(** * Atomkraft [Testnet]: genesis ceremony, teardown and transaction broadcast

    A shallow embedding of [atomkraft/chain/testnet.py].  The orchestrator is
    written as a program in a small writer/state/exception monad: the state
    is the [Testnet] object (with the node objects it owns), the written log
    is the sequence of calls made on the collaborators ([Node] methods, the
    helpers of [utils], the gRPC stubs), and a Python exception is a left
    injection.  The collaborators whose code lives in [node.py] and
    [utils.py] are an interface ([NodeAPI]); everything that is proved about
    the calls [prepare] makes holds for every implementation of it.  The
    module [SpecNode] gives the implementation described by the
    specification, for the statements about the resulting genesis
    documents. *)

From Stdlib Require Import ZArith List String Ascii Bool Lia Permutation.
From Stdlib Require Import DecimalString DecimalZ DecimalPos.
Import ListNotations.
Local Open Scope string_scope.
Local Open Scope list_scope.

Set Implicit Arguments.

Infix "+s+" := String.append (at level 60, right associativity).

(** ** Python values and exceptions *)

Inductive exn : Type :=
| IndexError
| KeyError
| AttributeError
| ValueError          (* the specification's ConfigurationError *)
| StopIteration
| MissingKey
| ResourceExhausted
| BootstrapFailure
| ProcessError
| TransportError
| OSError.

(** [inl e] is a raised exception, [inr a] a returned value. *)
Definition result (A : Type) : Type := (exn + A)%type.

(** [AccountId = Union[int, str]] *)
Inductive AccountId : Type :=
| IdInt (n : Z)
| IdStr (s : string).

Definition AccountId_eq_dec (a b : AccountId) : {a = b} + {a <> b}.
Proof.
  decide equality; [apply Z.eq_dec | apply string_dec].
Defined.

Definition id_eqb (a b : AccountId) : bool :=
  if AccountId_eq_dec a b then true else false.

(** [str(n)] for an integer. *)
Definition str_int (z : Z) : string := NilZero.string_of_int (Z.to_int z).

(** The text an identifier contributes to an f-string. *)
Definition str_id (a : AccountId) : string :=
  match a with
  | IdInt n => str_int n
  | IdStr s => s
  end.

(** Scalar values of the TOML and JSON documents. *)
Inductive Value : Type :=
| VStr (s : string)
| VInt (n : Z)
| VBool (b : bool).

Definition isinstance_str (v : Value) : bool :=
  match v with VStr _ => true | _ => false end.

(** [str(v)] *)
Definition py_str (v : Value) : string :=
  match v with
  | VStr s => s
  | VInt n => str_int n
  | VBool true => "True"
  | VBool false => "False"
  end.

Record Coin : Type := mkCoin { amount : Z; coin_denom : string }.

Record Account : Type := mkAccount {
  acc_name : AccountId;
  acc_group : string;
  acc_seed : option string;
  mnemonic : option string
}.

(** [ConfigPort(title, config_file, property_path)] *)
Record ConfigPort : Type := mkConfigPort {
  title : string;
  config_file : string;
  property_path : string
}.

(** ** Insertion-ordered dictionaries *)

Section Dict.
Variables (K V : Type).
Variable K_eq_dec : forall a b : K, {a = b} + {a <> b}.

Definition dict : Type := list (K * V).

Definition dict_keys (d : dict) : list K := map fst d.
Definition dict_values (d : dict) : list V := map snd d.

Fixpoint dict_get (k : K) (d : dict) : option V :=
  match d with
  | [] => None
  | (k', v) :: r => if K_eq_dec k k' then Some v else dict_get k r
  end.

(** [d[k] = v]: an existing key keeps its position, a new one goes last. *)
Fixpoint dict_set (k : K) (v : V) (d : dict) : dict :=
  match d with
  | [] => [(k, v)]
  | (k', v') :: r =>
      if K_eq_dec k k' then (k', v) :: r else (k', v') :: dict_set k v r
  end.

(** [{k: f(k) for k in ks}] *)
Definition dict_comp (f : K -> V) (ks : list K) : dict :=
  fold_left (fun d k => dict_set k (f k) d) ks [].
End Dict.

Arguments dict_get {K V} K_eq_dec k d.
Arguments dict_set {K V} K_eq_dec k v d.
Arguments dict_comp {K V} K_eq_dec f ks.
Arguments dict_keys {K V} d.
Arguments dict_values {K V} d.

(** ** List and string helpers *)

(** [list(range(n))] as identifiers. *)
Definition py_range (n : Z) : list AccountId :=
  map (fun i => IdInt (Z.of_nat i)) (seq 0 (Z.to_nat n)).

(** [l.pop()]: the last element and what is left, [None] on an empty list. *)
Definition list_pop (A : Type) (l : list A) : option (list A * A) :=
  match rev l with
  | [] => None
  | x :: r => Some (rev r, x)
  end.

Fixpoint enumerate_from (A : Type) (i : nat) (l : list A) : list (nat * A) :=
  match l with
  | [] => []
  | x :: r => (i, x) :: enumerate_from (S i) r
  end.

Definition enumerate (A : Type) (l : list A) : list (nat * A) :=
  enumerate_from 0 l.

Fixpoint rows_of (A : Type) (n w : nat) (l : list A) : list (list A) :=
  match n with
  | O => []
  | S n' => firstn w l :: rows_of n' w (skipn w l)
  end.

(** [np.array(l).reshape((-1, w)).tolist()]: rows of [w] columns; a length
    that is not a multiple of [w] is a [ValueError]. *)
Definition reshape (A : Type) (w : nat) (l : list A) : result (list (list A)) :=
  if (0 <? w)%nat && (List.length l mod w =? 0)%nat
  then inr (rows_of (List.length l / w) w l)
  else inl ValueError.

Definition colon : ascii := ":"%char.

Fixpoint has_colon (s : string) : bool :=
  match s with
  | EmptyString => false
  | String c r => if Ascii.eqb c colon then true else has_colon r
  end.

(** [s.rsplit(":", maxsplit=1)[-1]] *)
Fixpoint rsplit_last (s : string) : string :=
  match s with
  | EmptyString => EmptyString
  | String c r =>
      if has_colon r then rsplit_last r
      else if Ascii.eqb c colon then r else s
  end.

(** [s.split(":", 1)]: the two parts around the first colon, [None] when
    there is no colon (the list has one element). *)
Fixpoint split_first (s : string) : option (string * string) :=
  match s with
  | EmptyString => None
  | String c r =>
      if Ascii.eqb c colon then Some (EmptyString, r)
      else match split_first r with
           | Some (a, b) => Some (String c a, b)
           | None => None
           end
  end.

(** Text is Rocq's [string]: a character is a code point below 256.

    [str.strip()] as [int] applies it: among these characters Python's
    white space is 9 to 13, 28 to 32, 133 and 160. *)
Definition is_space (c : ascii) : bool :=
  let n := nat_of_ascii c in
  ((9 <=? n) && (n <=? 13) || (28 <=? n) && (n <=? 32) || (n =? 133) || (n =? 160))%nat.

(** Among these characters the decimal digits are ['0'] to ['9']. *)
Definition is_digit (c : ascii) : bool :=
  let n := nat_of_ascii c in ((48 <=? n) && (n <=? 57))%nat.

Fixpoint lstrip (s : string) : string :=
  match s with
  | EmptyString => EmptyString
  | String c r => if is_space c then lstrip r else s
  end.

Fixpoint rstrip (s : string) : string :=
  match s with
  | EmptyString => EmptyString
  | String c r =>
      match rstrip r with
      | EmptyString => if is_space c then EmptyString else String c EmptyString
      | r' => String c r'
      end
  end.

Definition strip (s : string) : string := rstrip (lstrip s).

Definition underscore : ascii := "_"%char.

(** The digits of a literal in which single underscores may separate
    digits: it starts and ends with a digit and has no two underscores in
    a row.  [after_digit] tells whether the character before was a digit. *)
Fixpoint digit_groups (after_digit : bool) (s : string) : option string :=
  match s with
  | EmptyString => if after_digit then Some EmptyString else None
  | String c r =>
      if is_digit c then
        match digit_groups true r with
        | Some ds => Some (String c ds)
        | None => None
        end
      else if Ascii.eqb c underscore then
        if after_digit then digit_groups false r else None
      else None
  end.

(** The sign of a literal, and what follows it. *)
Definition split_sign (literal : string) : string * string :=
  match literal with
  | EmptyString => (EmptyString, EmptyString)
  | String c r =>
      if Ascii.eqb c "+" then (EmptyString, r)
      else if Ascii.eqb c "-" then ("-", r)
      else (EmptyString, literal)
  end.

(** [int(s)], base ten: white space around the literal is dropped, a sign
    [+] or [-] may come first, underscores may separate digits; anything
    else is a [ValueError].  (The interpreter's optional limit on the
    number of digits, [sys.set_int_max_str_digits], is taken to be off.) *)
Definition py_int (s : string) : result Z :=
  let signed := split_sign (strip s) in
  match digit_groups false (snd signed) with
  | None => inl ValueError
  | Some digits =>
      match NilZero.int_of_string (fst signed +s+ digits) with
      | Some d => inr (Z.of_int d)
      | None => inl ValueError
      end
  end.

(** ** Paths

    A [pathlib.Path] of a POSIX system is held as its text, [str(path)],
    which determines it.  [path_of] is [Path(s)]: the text is cut at the
    slashes, empty components and [.] are dropped; the root is [/], or [//]
    when the text starts with exactly two slashes. *)
Definition slash : ascii := "/"%char.

Fixpoint split_slash (s : string) : list string :=
  match s with
  | EmptyString => [EmptyString]
  | String c r =>
      if Ascii.eqb c slash then EmptyString :: split_slash r
      else match split_slash r with
           | [] => [String c EmptyString]
           | part :: more => String c part :: more
           end
  end.

Fixpoint leading_slashes (s : string) : nat :=
  match s with
  | String c r => if Ascii.eqb c slash then S (leading_slashes r) else O
  | EmptyString => O
  end.

Record Path : Type := mkPath { path_root : string; path_parts : list string }.

Definition is_component (part : string) : bool :=
  negb (String.eqb part EmptyString) && negb (String.eqb part ".").

Definition path_of (s : string) : Path :=
  mkPath
    (match leading_slashes s with
     | O => EmptyString
     | 2%nat => "//"
     | _ => "/"
     end)
    (filter is_component (split_slash s)).

(** [str(path)] *)
Definition path_text (p : Path) : string :=
  match path_root p, path_parts p with
  | EmptyString, [] => "."
  | root, parts => root +s+ String.concat "/" parts
  end.

(** [path / s]: an absolute [s] replaces the path. *)
Definition path_div (p : Path) (s : string) : Path :=
  let q := path_of s in
  match path_root q with
  | EmptyString => mkPath (path_root p) (path_parts p ++ path_parts q)
  | _ => q
  end.

(** [a / b] on paths held as text. *)
Definition path_join (a b : string) : string :=
  path_text (path_div (path_of a) b).

(** [str(Path(s))] *)
Definition path_norm (s : string) : string := path_text (path_of s).

(** ** Transactions and the running chain *)

Definition Msg : Type := string.

(** [Fee(gas, Coins(f"{fee_amount}{denom}"))] *)
Record Fee : Type := mkFee { fee_gas : Z; fee_coins : string }.

(** What [wallet.create_and_sign_tx(CreateTxOptions(...))] signs: the key,
    the chain and the options. *)
Record Tx : Type := mkTx {
  tx_mnemonic : string;
  tx_coin_type : Z;
  tx_chain_id : string;
  tx_msgs : list Msg;
  tx_fee : Fee;
  tx_account_number : Z;
  tx_sequence : Z
}.

Inductive BroadcastMode : Type :=
| BROADCAST_MODE_UNSPECIFIED
| BROADCAST_MODE_BLOCK
| BROADCAST_MODE_SYNC
| BROADCAST_MODE_ASYNC.

Record BaseAccount : Type := mkBaseAccount {
  ba_address : string;
  account_number : Z;
  sequence : Z
}.

Record TxResponse : Type := mkTxResponse {
  code : Z;
  raw_log : string;
  height : Z;
  txhash : string
}.

(** ** The log of calls on collaborators *)

Inductive Event : Type :=
| EvMkdir (path : string)
| EvInit (node : AccountId)
| EvSet (node : AccountId) (file : string) (v : Value) (key : string)
| EvGet (node : AccountId) (file key : string) (ret : result Value)
| EvUpdatePort (node : AccountId) (file : string) (port : Value) (key : string)
| EvAddAccount (node : AccountId) (c : Coin) (a : Account)
| EvAddKey (node : AccountId) (a : Account)
| EvAddValidator (node : AccountId) (c : Coin) (a : Account)
| EvGlobGentx (node : AccountId) (ret : list string)
| EvSign (node : AccountId) (a : Account) (file : string)
| EvCopyGenesisFrom (node other : AccountId)
| EvCopyGentxFrom (node other : AccountId)
| EvCollectGentx (node : AccountId)
| EvStart (node : AccountId)
| EvClose (node : AccountId)
| EvGetFreePorts (n : Z) (ret : result (list Z))
| EvPrint (headers : list string) (rows : list (list Value))
| EvChannel (host : string) (port : Z)
| EvAuthAccount (address : string) (ret : result BaseAccount)
| EvBroadcastTx (tx : Tx) (mode : BroadcastMode) (ret : result TxResponse)
| EvChannelClose.

(** ** The monad *)

Section Monad.
Variable S : Type.

Definition M (A : Type) : Type := S -> list Event * S * result A.

Definition ret (A : Type) (a : A) : M A := fun s => ([], s, inr a).

Definition raise (A : Type) (e : exn) : M A := fun s => ([], s, inl e).

Definition bind (A B : Type) (m : M A) (f : A -> M B) : M B :=
  fun s =>
    match m s with
    | (tr, s1, inl e) => (tr, s1, inl e)
    | (tr, s1, inr a) =>
        match f a s1 with
        | (tr2, s2, r) => (tr ++ tr2, s2, r)
        end
    end.

Definition emit (e : Event) : M unit := fun s => ([e], s, inr tt).

Definition get_self : M S := fun s => ([], s, inr s).

Definition put_self (s : S) : M unit := fun _ => ([], s, inr tt).

(** [m] lifted from a returned value or a raised exception. *)
Definition lift (A : Type) (r : result A) : M A := fun s => ([], s, r).

(** [for x in xs: body(x)] *)
Fixpoint for_ (X : Type) (xs : list X) (body : X -> M unit) : M unit :=
  match xs with
  | [] => ret tt
  | x :: r => bind (body x) (fun _ => for_ r body)
  end.

(** A loop that carries local variables from one iteration to the next. *)
Fixpoint foldM (X A : Type) (body : A -> X -> M A) (a : A) (xs : list X) : M A :=
  match xs with
  | [] => ret a
  | x :: r => bind (body a x) (fun a' => foldM body a' r)
  end.

(** [[f(x) for x in xs]] *)
Fixpoint mapM (X A : Type) (f : X -> M A) (xs : list X) : M (list A) :=
  match xs with
  | [] => ret []
  | x :: r => bind (f x) (fun a => bind (mapM f r) (fun l => ret (a :: l)))
  end.
End Monad.

Arguments ret {S A} a.
Arguments raise {S A} e.
Arguments bind {S A B} m f.
Arguments emit {S} e.
Arguments get_self {S}.
Arguments put_self {S} s.
Arguments lift {S A} r.
Arguments for_ {S X} xs body.
Arguments foldM {S X A} body a xs.
Arguments mapM {S X A} f xs.

Notation "x <- m ;; k" := (bind m (fun x => k))
  (at level 61, m at next level, right associativity).
Notation "m ;; k" := (bind m (fun _ => k))
  (at level 61, right associativity).

(** The three components of a run. *)
Definition trace_of (S A : Type) (o : list Event * S * result A) : list Event := fst (fst o).
Definition state_of (S A : Type) (o : list Event * S * result A) : S := snd (fst o).
Definition value_of (S A : Type) (o : list Event * S * result A) : result A := snd o.

(** ** Collaborators

    [node.py] ([Account], [Node]), [utils.py] ([get_free_ports],
    [update_port]) and the file system are an interface.  A [Node] method
    that mutates the node returns the node after the call; one that raises
    leaves it as it was. *)

Class NodeAPI (Node : Type) : Type := {
  (** [Account(name, group=..., seed=...)] *)
  Account_new : AccountId -> string -> option string -> Account;
  (** [account.address(prefix)] *)
  account_address : Account -> string -> string;
  (** [Node(moniker, chain_id, home_dir, overwrite=, keep=, binary=, denom=, hrp_prefix=)] *)
  Node_new : string -> string -> string -> bool -> bool -> string -> string -> string -> Node;
  node_moniker : Node -> string;
  node_home_dir : Node -> string;
  node_init : Node -> result Node;
  (** [node.set(file, value, key)], [node.get(file, key)], [node.update(file, f, key)] *)
  node_set : Node -> string -> Value -> string -> result Node;
  node_get : Node -> string -> string -> result Value;
  node_update : Node -> string -> (Value -> result Value) -> string -> result Node;
  node_get_port : Node -> ConfigPort -> result Value;
  node_add_account : Node -> Coin -> Account -> result Node;
  node_add_key : Node -> Account -> result Node;
  node_add_validator : Node -> Coin -> Account -> result Node;
  (** [node.home_dir.glob("config/gentx/*json")], relative to [home_dir] *)
  node_glob_gentx : Node -> list string;
  node_sign : Node -> Account -> string -> result Node;
  (** [node.copy_genesis_from(other)], [node.copy_gentx_from(other)] *)
  node_copy_genesis_from : Node -> Node -> result Node;
  node_copy_gentx_from : Node -> Node -> result Node;
  node_collect_gentx : Node -> result Node;
  node_start : Node -> result Node;
  node_close : Node -> result Node;
  get_free_ports : Z -> result (list Z);
  update_port : Value -> Value -> result Value;
  (** [path.mkdir(parents=True, exist_ok=True)] of [pathlib]: what the file
      system answers, an [OSError] or nothing. *)
  path_mkdir : string -> result unit
}.

(** The gRPC services of a running node: the auth query and the transaction
    service, which may change the chain. *)
Class ChainAPI (Chain : Type) : Type := {
  auth_account : Chain -> string -> Z -> string -> result BaseAccount;
  broadcast_tx : Chain -> string -> Z -> Tx -> BroadcastMode -> Chain * result TxResponse
}.

Definition VALIDATOR_DIR : string := "validator_nodes".

(** [validators: Union[int, List[AccountId]]] *)
Inductive IdsArg : Type :=
| Count (n : Z)
| Ids (l : list AccountId).

(** [msgs: Union[Msg, List[Msg]]] *)
Inductive MsgsArg : Type :=
| OneMsg (m : Msg)
| MsgList (l : list Msg).

(** [Testnet.ports()]: the port table, in the order the keys are inserted. *)
Definition ports : dict string ConfigPort :=
  [ ("p2p", mkConfigPort "P2P" "config/config.toml" "p2p.laddr");
    ("abci", mkConfigPort "ABCI" "config/config.toml" "proxy_app");
    ("pprof_laddr", mkConfigPort "PPROF" "config/config.toml" "rpc.pprof_laddr");
    ("rpc", mkConfigPort "RPC" "config/config.toml" "rpc.laddr");
    ("prometheus",
      mkConfigPort "Prometheus" "config/config.toml"
        "instrumentation.prometheus_listen_addr");
    ("lcd", mkConfigPort "LCD" "config/app.toml" "api.address");
    ("grpc", mkConfigPort "gRPC" "config/app.toml" "grpc.address");
    ("grpc-web", mkConfigPort "gRPC" "config/app.toml" "grpc-web.address") ].

Definition genesis_json : string := "config/genesis.json".

(** [Path(f"config/{config_file}.toml")] *)
Definition config_toml (config_file : string) : string :=
  path_norm ("config/" +s+ config_file +s+ ".toml").

(** [f"node_{validator_id}"] *)
Definition node_name (validator_id : AccountId) : string :=
  "node_" +s+ str_id validator_id.

Section Testnet.
Context {Node : Type} {API : NodeAPI Node}.

(** The attributes of a [Testnet] object.  [validators], [accounts] and
    [validator_nodes] do not exist until [finalize_accounts] and [prepare]
    assign them. *)
Record Testnet : Type := mkTestnet {
  chain_id : string;
  _account_ids : list AccountId;
  _validator_ids : list AccountId;
  _lead_validator : AccountId;
  _account_seed : option string;
  binary : string;
  denom : string;
  hrp_prefix : string;
  coin_type : Z;
  config_genesis : dict string Value;
  config_node : dict string (dict string Value);
  account_balance : Z;
  validator_balance : Z;
  overwrite : bool;
  keep : bool;
  verbose : bool;
  data_dir : string;
  validators : option (dict AccountId Account);
  accounts : option (dict AccountId Account);
  validator_nodes : option (dict AccountId Node)
}.

Definition with_account_ids (self : Testnet) (ids : list AccountId) : Testnet :=
  mkTestnet (chain_id self) ids (_validator_ids self) (_lead_validator self)
    (_account_seed self) (binary self) (denom self) (hrp_prefix self)
    (coin_type self) (config_genesis self) (config_node self)
    (account_balance self) (validator_balance self) (overwrite self)
    (keep self) (verbose self) (data_dir self) (validators self)
    (accounts self) (validator_nodes self).

Definition with_validator_ids (self : Testnet) (ids : list AccountId)
    (lead : AccountId) : Testnet :=
  mkTestnet (chain_id self) (_account_ids self) ids lead
    (_account_seed self) (binary self) (denom self) (hrp_prefix self)
    (coin_type self) (config_genesis self) (config_node self)
    (account_balance self) (validator_balance self) (overwrite self)
    (keep self) (verbose self) (data_dir self) (validators self)
    (accounts self) (validator_nodes self).

Definition with_accounts (self : Testnet)
    (vals accs : dict AccountId Account) : Testnet :=
  mkTestnet (chain_id self) (_account_ids self) (_validator_ids self)
    (_lead_validator self) (_account_seed self) (binary self) (denom self)
    (hrp_prefix self) (coin_type self) (config_genesis self)
    (config_node self) (account_balance self) (validator_balance self)
    (overwrite self) (keep self) (verbose self) (data_dir self)
    (Some vals) (Some accs) (validator_nodes self).

Definition with_validator_nodes (self : Testnet)
    (nodes : dict AccountId Node) : Testnet :=
  mkTestnet (chain_id self) (_account_ids self) (_validator_ids self)
    (_lead_validator self) (_account_seed self) (binary self) (denom self)
    (hrp_prefix self) (coin_type self) (config_genesis self)
    (config_node self) (account_balance self) (validator_balance self)
    (overwrite self) (keep self) (verbose self) (data_dir self)
    (validators self) (accounts self) (Some nodes).

(** The list an [int], a [list] or another iterable argument becomes. *)
Definition ids_of (a : IdsArg) : list AccountId :=
  match a with
  | Count n => py_range n
  | Ids l => l
  end.

(** [set_accounts] *)
Definition set_accounts (self : Testnet) (accounts : IdsArg) : Testnet :=
  with_account_ids self (ids_of accounts).

(** [set_validators]: [self._validator_ids[0]] raises on an empty list. *)
Definition set_validators (self : Testnet) (validators : IdsArg) : result Testnet :=
  let _validator_ids := ids_of validators in
  match nth_error _validator_ids 0 with
  | None => inl IndexError
  | Some lead => inr (with_validator_ids self _validator_ids lead)
  end.

(** [Testnet.__init__]: [set_accounts], then [set_validators], then the
    other attributes; [binary] becomes a [Path]; [data_dir] is [None],
    which stands for [Path(".")], or the directory, and
    [self.data_dir = data_dir / VALIDATOR_DIR].  The object has no
    [_lead_validator] before [set_validators] assigns it: the record
    under construction holds the value [set_validators] is about to
    assign. *)
Definition Testnet_init (chain_id : string) (validators accounts : IdsArg)
    (binary denom hrp_prefix : string) (seed : option string) (coin_type : Z)
    (config_genesis : dict string Value)
    (config_node : dict string (dict string Value))
    (account_balance validator_balance : Z) (overwrite keep verbose : bool)
    (data_dir : option string) : result Testnet :=
  match nth_error (ids_of validators) 0 with
  | None => inl IndexError
  | Some lead =>
      let self :=
        mkTestnet chain_id [] [] lead seed (path_norm binary) denom
          hrp_prefix coin_type config_genesis config_node account_balance
          validator_balance overwrite keep verbose
          (path_join (match data_dir with
                      | None => "."
                      | Some d => d
                      end) VALIDATOR_DIR)
          None None None in
      set_validators (set_accounts self accounts) validators
  end.

(** [finalize_accounts] *)
Definition finalize_accounts (self : Testnet) : Testnet :=
  with_accounts self
    (dict_comp AccountId_eq_dec
       (fun v => Account_new v "val" (_account_seed self)) (_validator_ids self))
    (dict_comp AccountId_eq_dec
       (fun a => Account_new a "acc" (_account_seed self)) (_account_ids self)).

(** Reading an attribute that may not exist yet. *)
Definition attr (A : Type) (f : Testnet -> option A) : M Testnet A :=
  fun self =>
    match f self with
    | Some a => ([], self, inr a)
    | None => ([], self, inl AttributeError)
    end.

(** [d[k]] *)
Definition subscript (K V S : Type) (K_eq_dec : forall a b : K, {a = b} + {a <> b})
    (d : dict K V) (k : K) : M S V :=
  match dict_get K_eq_dec k d with
  | Some v => ret v
  | None => raise KeyError
  end.

(** A method call [self.validator_nodes[id].method(...)] that mutates the
    node: the call is logged, then the node is replaced by the node after
    the call, or the exception is raised. *)
Definition node_call (id : AccountId) (ev : Event)
    (method : Node -> result Node) : M Testnet unit :=
  fun self =>
    match validator_nodes self with
    | None => ([], self, inl AttributeError)
    | Some nodes =>
        match dict_get AccountId_eq_dec id nodes with
        | None => ([], self, inl KeyError)
        | Some node =>
            match method node with
            | inl e => ([ev], self, inl e)
            | inr node' =>
                ([ev],
                 with_validator_nodes self (dict_set AccountId_eq_dec id node' nodes),
                 inr tt)
            end
        end
    end.

(** A method call with another node as its argument. *)
Definition node_call2 (id other : AccountId) (ev : Event)
    (method : Node -> Node -> result Node) : M Testnet unit :=
  fun self =>
    match validator_nodes self with
    | None => ([], self, inl AttributeError)
    | Some nodes =>
        match dict_get AccountId_eq_dec id nodes,
              dict_get AccountId_eq_dec other nodes with
        | Some node, Some node_b =>
            match method node node_b with
            | inl e => ([ev], self, inl e)
            | inr node' =>
                ([ev],
                 with_validator_nodes self (dict_set AccountId_eq_dec id node' nodes),
                 inr tt)
            end
        | _, _ => ([], self, inl KeyError)
        end
    end.

(** A call that reads from a node; the log keeps what it returned. *)
Definition node_read (A : Type) (id : AccountId) (ev : A -> list Event)
    (method : Node -> A) : M Testnet A :=
  fun self =>
    match validator_nodes self with
    | None => ([], self, inl AttributeError)
    | Some nodes =>
        match dict_get AccountId_eq_dec id nodes with
        | None => ([], self, inl KeyError)
        | Some node => (ev (method node), self, inr (method node))
        end
    end.

(** [node.get(file, key)] *)
Definition call_get (id : AccountId) (file key : string) : M Testnet Value :=
  r <- node_read id (fun r => [EvGet id file key r])
         (fun node => node_get node file key) ;;
  lift r.

(** [node.set(file, value, key)] *)
Definition call_set (id : AccountId) (file : string) (v : Value)
    (key : string) : M Testnet unit :=
  node_call id (EvSet id file v key) (fun node => node_set node file v key).

(** [node.update(file, lambda x: update_port(x, port), key)] *)
Definition call_update_port (id : AccountId) (file : string) (port : Value)
    (key : string) : M Testnet unit :=
  node_call id (EvUpdatePort id file port key)
    (fun node => node_update node file (fun x => update_port x port) key).

(** The keys of [self.validator_nodes], as a loop over the dictionary sees
    them. *)
Definition node_ids : M Testnet (list AccountId) :=
  nodes <- attr validator_nodes ;;
  ret (dict_keys nodes).
End Testnet.

Arguments Testnet Node : clear implicits.

(** ** [prepare], [spinup], [oneshot], [teardown] *)

Section Ceremony.
Context {Node : Type} {API : NodeAPI Node}.

Abbreviation Prog := (M (Testnet Node)).

(** [for node in self.validator_nodes.values(): node.init()] *)
Definition init_nodes : Prog unit :=
  ids <- node_ids ;;
  for_ ids (fun id => node_call id (EvInit id) node_init).

(** [for (k, v) in self.config_genesis.items(): lead.set(genesis.json, v, k)] *)
Definition apply_genesis_overrides : Prog unit :=
  self <- get_self ;;
  for_ (config_genesis self) (fun kv =>
    call_set (_lead_validator self) genesis_json (snd kv) (fst kv)).

(** [lead.add_account(Coin(self.account_balance, self.denom), account)] *)
Definition fund (self : Testnet Node) (account : Account) : Prog unit :=
  node_call (_lead_validator self)
    (EvAddAccount (_lead_validator self)
       (mkCoin (account_balance self) (denom self)) account)
    (fun node =>
       node_add_account node (mkCoin (account_balance self) (denom self)) account).

(** [for validator in self.validators.values(): ...] *)
Definition fund_validators : Prog unit :=
  self <- get_self ;;
  validators <- attr validators ;;
  for_ (dict_values validators) (fund self).

(** [for account in self.accounts.values(): ...] *)
Definition fund_accounts : Prog unit :=
  self <- get_self ;;
  accounts <- attr accounts ;;
  for_ (dict_values accounts) (fund self).

(** Every node but the lead copies the lead's genesis. *)
Definition share_genesis : Prog unit :=
  self <- get_self ;;
  ids <- node_ids ;;
  for_ ids (fun node_id =>
    if id_eqb node_id (_lead_validator self) then ret tt
    else node_call2 node_id (_lead_validator self)
           (EvCopyGenesisFrom node_id (_lead_validator self))
           node_copy_genesis_from).

(** [get_free_ports(len(self.ports()) * (len(self.validators) - 1))],
    reshaped to rows of [len(self.ports())] columns. *)
Definition allocate_ports : Prog (list (list Z)) :=
  validators <- attr validators ;;
  let n := (Z.of_nat (List.length ports)
            * (Z.of_nat (List.length validators) - 1))%Z in
  emit (EvGetFreePorts n (get_free_ports n)) ;;
  flat <- lift (get_free_ports n) ;;
  lift (reshape (List.length ports) flat).

(** [node.set(Path(f"config/{config_file}.toml"), ..., k)] for every
    declared override. *)
Definition apply_config_overrides (self : Testnet Node)
    (node_id : AccountId) : Prog unit :=
  for_ (config_node self) (fun entry =>
    for_ (snd entry) (fun kv =>
      if isinstance_str (snd kv)
      then call_set node_id (config_toml (fst entry)) (VStr (py_str (snd kv))) (fst kv)
      else call_set node_id (config_toml (fst entry)) (snd kv) (fst kv))).

(** [for (j, e_port) in enumerate(self.ports().values()): node.update(...)].
    A row has [len(self.ports())] columns, so [ports[j]] exists; were it
    not to, the [IndexError] is raised here. *)
Definition rewrite_ports (node_id : AccountId) (row : list Z) : Prog unit :=
  for_ (enumerate (dict_values ports)) (fun je =>
    match nth_error row (fst je) with
    | None => raise IndexError
    | Some port =>
        call_update_port node_id (config_file (snd je)) (VInt port)
          (property_path (snd je))
    end).

(** [port_data]: the moniker, then every port field of the node. *)
Definition read_port_data (node_id : AccountId) : Prog (list Value) :=
  moniker <- node_read node_id (fun _ => []) node_moniker ;;
  cells <- mapM (fun e_port =>
             call_get node_id (config_file e_port) (property_path e_port))
             (dict_values ports) ;;
  ret (VStr moniker :: cells).

(** One iteration of the configuration loop; [all_ports] and
    [all_port_data] are the loop's local lists. *)
Definition configure_node (self : Testnet Node)
    (locals : list (list Z) * list (list Value)) (node_id : AccountId)
    : Prog (list (list Z) * list (list Value)) :=
  apply_config_overrides self node_id ;;
  all_ports <-
    (if id_eqb node_id (_lead_validator self) then ret (fst locals)
     else match list_pop (fst locals) with
          | None => raise IndexError
          | Some (rest, row) => rewrite_ports node_id row ;; ret rest
          end) ;;
  port_data <- read_port_data node_id ;;
  ret (all_ports, snd locals ++ [port_data]).

Definition configure_nodes (all_ports : list (list Z)) : Prog (list (list Value)) :=
  self <- get_self ;;
  ids <- node_ids ;;
  locals <- foldM (configure_node self) (all_ports, []) ids ;;
  ret (snd locals).

(** The three tables printed when [self.verbose] is set. *)
Definition print_tables (all_port_data : list (list Value)) : Prog unit :=
  self <- get_self ;;
  if verbose self then
    validators <- attr validators ;;
    accounts <- attr accounts ;;
    emit (EvPrint ("Moniker" :: map title (dict_values ports)) all_port_data) ;;
    emit (EvPrint ["Validators"]
            (map (fun v => [VStr (account_address v (hrp_prefix self))])
               (dict_values validators))) ;;
    emit (EvPrint ["Accounts"]
            (map (fun a => [VStr (account_address a (hrp_prefix self))])
               (dict_values accounts)))
  else ret tt.

(** The memo rewrite and the signature of a node that is not the lead. *)
Definition readdress_gentx (node_id : AccountId) (validator : Account)
    (p2p : ConfigPort) : Prog unit :=
  files <- node_read node_id (fun r => [EvGlobGentx node_id r]) node_glob_gentx ;;
  match files with
  | [] => raise StopIteration
  | gentx_file :: _ =>
      laddr <- call_get node_id (config_file p2p) (property_path p2p) ;;
      match laddr with
      | VStr s =>
          let node_p2p := rsplit_last s in
          call_update_port node_id gentx_file (VStr node_p2p) "body.memo" ;;
          home_dir <- node_read node_id (fun _ => []) node_home_dir ;;
          node_call node_id
            (EvSign node_id validator (path_join home_dir gentx_file))
            (fun node => node_sign node validator (path_join home_dir gentx_file))
      | _ => raise AttributeError
      end
  end.

(** One iteration of the gentx loop. *)
Definition stage_gentx (self : Testnet Node) (node_id : AccountId) : Prog unit :=
  validators <- attr validators ;;
  validator <- subscript AccountId_eq_dec validators node_id ;;
  node_call node_id (EvAddKey node_id validator)
    (fun node => node_add_key node validator) ;;
  p2p <- subscript string_dec ports "p2p" ;;
  node_call node_id
    (EvAddValidator node_id (mkCoin (validator_balance self) (denom self)) validator)
    (fun node =>
       node_add_validator node (mkCoin (validator_balance self) (denom self))
         validator) ;;
  if id_eqb node_id (_lead_validator self) then ret tt
  else readdress_gentx node_id validator p2p.

Definition stage_gentxs : Prog unit :=
  self <- get_self ;;
  ids <- node_ids ;;
  for_ ids (stage_gentx self).

(** [for a: for b: if id_a != id_b: node_a.copy_gentx_from(node_b)] *)
Definition exchange_gentxs : Prog unit :=
  ids <- node_ids ;;
  for_ ids (fun id_a =>
    for_ ids (fun id_b =>
      if id_eqb id_a id_b then ret tt
      else node_call2 id_a id_b (EvCopyGentxFrom id_a id_b)
             node_copy_gentx_from)).

(** [for node in self.validator_nodes.values(): node.collect_gentx()] *)
Definition collect_gentxs : Prog unit :=
  ids <- node_ids ;;
  for_ ids (fun id => node_call id (EvCollectGentx id) node_collect_gentx).

(** The node objects [prepare] creates, one for each key of
    [self.validators]. *)
Definition new_nodes (self : Testnet Node)
    (validators : dict AccountId Account) : dict AccountId Node :=
  dict_comp AccountId_eq_dec
    (fun validator_id =>
       Node_new (node_name validator_id) (chain_id self)
         (path_join (data_dir self) (node_name validator_id))
         (overwrite self) (keep self) (path_norm (binary self)) (denom self)
         (hrp_prefix self))
    (dict_keys validators).

(** The head of [prepare]: the identities, the data directory and one
    node object for each validator.  When [mkdir] raises,
    [validator_nodes] is not assigned. *)
Definition create_nodes : Prog unit :=
  self <- get_self ;;
  put_self (finalize_accounts self) ;;
  self <- get_self ;;
  emit (EvMkdir (data_dir self)) ;;
  lift (path_mkdir (data_dir self)) ;;
  validators <- attr validators ;;
  put_self (with_validator_nodes self (new_nodes self validators)).

(** The loops of [prepare] up to the signed gentx of every node. *)
Definition stage_ceremony : Prog unit :=
  init_nodes ;;
  apply_genesis_overrides ;;
  fund_validators ;;
  fund_accounts ;;
  share_genesis ;;
  all_ports <- allocate_ports ;;
  all_port_data <- configure_nodes all_ports ;;
  print_tables all_port_data ;;
  stage_gentxs.

(** [prepare] *)
Definition prepare : Prog unit :=
  create_nodes ;;
  stage_ceremony ;;
  exchange_gentxs ;;
  collect_gentxs.

(** [spinup] *)
Definition spinup : Prog unit :=
  ids <- node_ids ;;
  for_ ids (fun id => node_call id (EvStart id) node_start).

(** [oneshot] *)
Definition oneshot : Prog unit :=
  prepare ;;
  spinup.

(** [teardown] *)
Definition teardown : Prog unit :=
  ids <- node_ids ;;
  for_ ids (fun id => node_call id (EvClose id) node_close).
End Ceremony.

(** ** [get_validator_port], [get_grpc_channel], [broadcast_transaction] *)

Section Broadcast.
Context {Node : Type} {API : NodeAPI Node}.
Context {Chain : Type} {CAPI : ChainAPI Chain}.

(** [self.validator_nodes[validator_id].get_port(self.ports()[port_type])] *)
Definition get_validator_port (self : Testnet Node) (validator_id : AccountId)
    (port_type : string) : result Value :=
  match validator_nodes self with
  | None => inl AttributeError
  | Some nodes =>
      match dict_get AccountId_eq_dec validator_id nodes with
      | None => inl KeyError
      | Some node =>
          match dict_get string_dec port_type ports with
          | None => inl KeyError
          | Some spec => node_get_port node spec
          end
      end
  end.

(** [get_grpc_channel]: the host and the port of the [Channel]. *)
Definition get_grpc_channel (self : Testnet Node)
    (validator_id : option AccountId) : result (string * Z) :=
  let validator_id :=
    match validator_id with
    | None => _lead_validator self
    | Some v => v
    end in
  match get_validator_port self validator_id "grpc" with
  | inl e => inl e
  | inr (VStr address) =>
      match split_first address with
      | None => inl ValueError
      | Some (grpc_ip, grpc_port) =>
          match py_int grpc_port with
          | inl e => inl e
          | inr port => inr (grpc_ip, port)
          end
      end
  | inr _ => inl AttributeError
  end.

(** [asyncio.run(stub.account(address=...))], parsed as a [BaseAccount]. *)
Definition query_account (channel : string * Z) (address : string)
    : M Chain BaseAccount :=
  fun chain =>
    let r := auth_account chain (fst channel) (snd channel) address in
    ([EvAuthAccount address r], chain, r).

(** [asyncio.run(service.broadcast_tx(tx_bytes=..., mode=...)).tx_response] *)
Definition submit (channel : string * Z) (tx : Tx) (mode : BroadcastMode)
    : M Chain TxResponse :=
  fun chain =>
    let out := broadcast_tx chain (fst channel) (snd channel) tx mode in
    ([EvBroadcastTx tx mode (snd out)], fst out, snd out).

(** [broadcast_transaction] *)
Definition broadcast_transaction (self : Testnet Node) (account_id : AccountId)
    (msgs : MsgsArg) (gas fee_amount : Z) (validator_id : option AccountId)
    : M Chain TxResponse :=
  let validator_id :=
    match validator_id with
    | None => _lead_validator self
    | Some v => v
    end in
  let msgs :=
    match msgs with
    | OneMsg m => [m]
    | MsgList l => l
    end in
  accounts <- lift (match accounts self with
                    | Some d => inr d
                    | None => inl AttributeError
                    end) ;;
  account <- subscript AccountId_eq_dec accounts account_id ;;
  match mnemonic account with
  | None => raise ValueError
  | Some words =>
      channel <- lift (get_grpc_channel self (Some validator_id)) ;;
      emit (EvChannel (fst channel) (snd channel)) ;;
      account_info <- query_account channel
                        (account_address account (hrp_prefix self)) ;;
      let tx :=
        mkTx words (coin_type self) (chain_id self) msgs
          (mkFee gas (str_int fee_amount +s+ denom self))
          (account_number account_info) (sequence account_info) in
      result <- submit channel tx BROADCAST_MODE_BLOCK ;;
      emit EvChannelClose ;;
      ret result
  end.
End Broadcast.

(** ** The collaborators as the specification describes them *)

Module SpecNode.

(** Modelled from the spec: a structured document (TOML or JSON) of
    [ConfigStore], addressed by dotted paths; [node.py] is not part of the
    sources. *)
#[local] Unset Elimination Schemes.
Inductive Doc : Type :=
| Leaf (v : Value)
| Table (entries : list (string * Doc)).
#[local] Set Elimination Schemes.

Definition dot : ascii := "."%char.

(** The segments of a dotted path. *)
Fixpoint segments (s : string) : list string :=
  match s with
  | EmptyString => [EmptyString]
  | String c r =>
      if Ascii.eqb c dot then EmptyString :: segments r
      else match segments r with
           | [] => [String c EmptyString]
           | seg :: more => String c seg :: more
           end
  end.

(** Modelled from the spec: [get] of [ConfigStore]; a path that does not
    lead to a value is [MissingKey]. *)
Fixpoint doc_get (path : list string) (d : Doc) : result Value :=
  match path, d with
  | [], Leaf v => inr v
  | k :: rest, Table entries =>
      (fix find (es : list (string * Doc)) : result Value :=
         match es with
         | [] => inl MissingKey
         | (k', d') :: r => if string_dec k k' then doc_get rest d' else find r
         end) entries
  | _, _ => inl MissingKey
  end.

(** Modelled from the spec: [set] of [ConfigStore].  Every intermediate
    segment must exist ([MissingKey] otherwise, structure is never
    created); the last segment is assigned, all other content is kept. *)
Fixpoint doc_set (path : list string) (v : Value) (d : Doc) : result Doc :=
  match path, d with
  | [k], Table entries =>
      inr (Table
             ((fix assign (es : list (string * Doc)) : list (string * Doc) :=
                 match es with
                 | [] => [(k, Leaf v)]
                 | (k', d') :: r =>
                     if string_dec k k' then (k', Leaf v) :: r
                     else (k', d') :: assign r
                 end) entries))
  | k :: rest, Table entries =>
      match
        (fix descend (es : list (string * Doc)) : result (list (string * Doc)) :=
           match es with
           | [] => inl MissingKey
           | (k', d') :: r =>
               if string_dec k k'
               then match doc_set rest v d' with
                    | inl e => inl e
                    | inr d'' => inr ((k', d'') :: r)
                    end
               else match descend r with
                    | inl e => inl e
                    | inr r' => inr ((k', d') :: r')
                    end
           end) entries
      with
      | inl e => inl e
      | inr entries' => inr (Table entries')
      end
  | _, _ => inl MissingKey
  end.

(** Modelled from the spec: [update] of [ConfigStore]: the value at the
    path, transformed. *)
Definition doc_update (path : list string) (f : Value -> result Value)
    (d : Doc) : result Doc :=
  match doc_get path d with
  | inl e => inl e
  | inr old =>
      match f old with
      | inl e => inl e
      | inr new => doc_set path new d
      end
  end.

(** Modelled from the spec: the genesis document: chain parameters, funded
    balances and, after the ceremony, the validator set.  A balance or a
    validator entry names the identity whose address it carries. *)
Record Genesis : Type := mkGenesis {
  gen_params : Doc;
  gen_balances : list (Account * Coin);
  gen_validators : list (Account * Coin)
}.

(** Modelled from the spec: a gentx envelope: the self-staking transaction
    of one validator, its memo, and the key whose signature it carries
    ([None] once an edit has invalidated the signature). *)
Record Gentx : Type := mkGentx {
  gx_validator : Account;
  gx_stake : Coin;
  gx_memo : string;
  gx_signed_by : option Account
}.

(** Modelled from the spec: a node record: its working directory with the
    config documents, the genesis document, the key material and the gentx
    directory, and its process handle. *)
Record Node : Type := mkNode {
  moniker : string;
  node_chain_id : string;
  home_dir : string;
  node_overwrite : bool;
  node_keep : bool;
  node_binary : string;
  node_denom : string;
  node_hrp_prefix : string;
  configs : dict string Doc;
  genesis : option Genesis;
  keyring : list Account;
  gentx_dir : list Gentx;
  staged : option Account;
  running : bool
}.

(** What lies outside the system: the chain binary's defaults, the ports
    the operating system hands out, key derivation, and the file system's
    answer to [mkdir]. *)
Record World : Type := mkWorld {
  bin_default_configs : string -> dict string Doc;
  bin_default_genesis : string -> Doc;
  bin_gentx_memo : string -> dict string Doc -> string;
  os_free_ports : Z -> result (list Z);
  key_mnemonic : string -> string -> AccountId -> string;
  key_address : Account -> string -> string;
  fs_mkdir : string -> result unit
}.

Definition Account_eq_dec (a b : Account) : {a = b} + {a <> b}.
Proof.
  decide equality;
    try (decide equality; apply string_dec);
    try apply string_dec; apply AccountId_eq_dec.
Defined.

Definition with_files (n : Node) (cfg : dict string Doc) (g : option Genesis) : Node :=
  mkNode (moniker n) (node_chain_id n) (home_dir n) (node_overwrite n)
    (node_keep n) (node_binary n) (node_denom n) (node_hrp_prefix n)
    cfg g (keyring n) (gentx_dir n) (staged n) (running n).

Definition with_genesis (n : Node) (g : Genesis) : Node :=
  with_files n (configs n) (Some g).

Definition with_keyring (n : Node) (keys : list Account) : Node :=
  mkNode (moniker n) (node_chain_id n) (home_dir n) (node_overwrite n)
    (node_keep n) (node_binary n) (node_denom n) (node_hrp_prefix n)
    (configs n) (genesis n) keys (gentx_dir n) (staged n) (running n).

Definition with_gentx_dir (n : Node) (dir : list Gentx) (st : option Account) : Node :=
  mkNode (moniker n) (node_chain_id n) (home_dir n) (node_overwrite n)
    (node_keep n) (node_binary n) (node_denom n) (node_hrp_prefix n)
    (configs n) (genesis n) (keyring n) dir st (running n).

Definition with_running (n : Node) (b : bool) : Node :=
  mkNode (moniker n) (node_chain_id n) (home_dir n) (node_overwrite n)
    (node_keep n) (node_binary n) (node_denom n) (node_hrp_prefix n)
    (configs n) (genesis n) (keyring n) (gentx_dir n) (staged n) b.

(** Modelled from the spec: the file of a validator's gentx, below the
    node's working directory. *)
Definition gentx_path (g : Gentx) : string :=
  "config/gentx/gentx-" +s+ acc_group (gx_validator g) +s+ "-"
    +s+ str_id (acc_name (gx_validator g)) +s+ ".json".

Definition is_gentx_path (file : string) : bool :=
  String.prefix "config/gentx/" file.

(** The envelope of validator [v] in a gentx directory, and the directory
    with the envelope of a validator stored (one envelope per validator). *)
Fixpoint find_gentx (v : Account) (dir : list Gentx) : option Gentx :=
  match dir with
  | [] => None
  | g :: r => if Account_eq_dec v (gx_validator g) then Some g else find_gentx v r
  end.

Fixpoint store_gentx (g : Gentx) (dir : list Gentx) : list Gentx :=
  match dir with
  | [] => [g]
  | g' :: r =>
      if Account_eq_dec (gx_validator g) (gx_validator g') then g :: r
      else g' :: store_gentx g r
  end.

(** The first envelope stored in [file], rewritten by [f]. *)
Fixpoint edit_gentx (file : string) (f : Gentx -> result Gentx)
    (dir : list Gentx) : result (list Gentx) :=
  match dir with
  | [] => inl MissingKey
  | g :: r =>
      if string_dec file (gentx_path g)
      then match f g with
           | inl e => inl e
           | inr g' => inr (g' :: r)
           end
      else match edit_gentx file f r with
           | inl e => inl e
           | inr r' => inr (g :: r')
           end
  end.

Fixpoint read_gentx (file : string) (dir : list Gentx) : option Gentx :=
  match dir with
  | [] => None
  | g :: r => if string_dec file (gentx_path g) then Some g else read_gentx file r
  end.

Definition memo_key : string := "body.memo".

(** Modelled from the spec: an edit of a signed file invalidates its
    signature; writing the text it already holds is no edit. *)
Definition set_memo (v : Value) (g : Gentx) : result Gentx :=
  match v with
  | VStr s =>
      if string_dec s (gx_memo g) then inr g
      else inr (mkGentx (gx_validator g) (gx_stake g) s None)
  | _ => inl ValueError
  end.

(** Modelled from the spec: a gentx is well formed when it carries the
    signature of its own validator. *)
Definition gentx_valid (g : Gentx) : bool :=
  match gx_signed_by g with
  | Some a => if Account_eq_dec a (gx_validator g) then true else false
  | None => false
  end.

Definition validator_entry (g : Gentx) : Account * Coin :=
  (gx_validator g, gx_stake g).

(** The text of an address up to and including its last colon. *)
Fixpoint rsplit_head (s : string) : string :=
  match s with
  | EmptyString => EmptyString
  | String c r =>
      if has_colon r then String c (rsplit_head r)
      else if Ascii.eqb c colon then String c EmptyString else EmptyString
  end.

Section WithWorld.
Variable w : World.

(** Modelled from the spec: an identity derives its key material from
    [(seed, id)]; without a seed it is read-only and has no mnemonic. *)
Definition new_account (name : AccountId) (group : string)
    (seed : option string) : Account :=
  mkAccount name group seed
    (match seed with
     | Some s => Some (key_mnemonic w s group name)
     | None => None
     end).

Definition new_node (moniker chain_id home_dir : string)
    (overwrite keep : bool) (binary denom hrp_prefix : string) : Node :=
  mkNode moniker chain_id home_dir overwrite keep binary denom hrp_prefix
    [] None [] [] None false.

(** Modelled from the spec: [init()] produces the binary's default
    genesis and config documents. *)
Definition init (n : Node) : result Node :=
  inr (with_files n (bin_default_configs w (moniker n))
         (Some (mkGenesis (bin_default_genesis w (moniker n)) [] []))).

(** Modelled from the spec: [get] on a document of the node's working
    directory: the genesis document, a gentx file, or a config
    document. *)
Definition get (n : Node) (file key : string) : result Value :=
  if string_dec file genesis_json then
    match genesis n with
    | Some g => doc_get (segments key) (gen_params g)
    | None => inl MissingKey
    end
  else if is_gentx_path file then
    match read_gentx file (gentx_dir n) with
    | Some g => if string_dec key memo_key then inr (VStr (gx_memo g))
                else inl MissingKey
    | None => inl MissingKey
    end
  else
    match dict_get string_dec file (configs n) with
    | Some d => doc_get (segments key) d
    | None => inl MissingKey
    end.

(** Modelled from the spec: [update(file, transform, path)]. *)
Definition update (n : Node) (file : string) (f : Value -> result Value)
    (key : string) : result Node :=
  if string_dec file genesis_json then
    match genesis n with
    | Some g =>
        match doc_update (segments key) f (gen_params g) with
        | inl e => inl e
        | inr d => inr (with_genesis n (mkGenesis d (gen_balances g) (gen_validators g)))
        end
    | None => inl MissingKey
    end
  else if is_gentx_path file then
    if string_dec key memo_key then
      match
        edit_gentx file
          (fun g => match f (VStr (gx_memo g)) with
                    | inl e => inl e
                    | inr v => set_memo v g
                    end) (gentx_dir n)
      with
      | inl e => inl e
      | inr dir => inr (with_gentx_dir n dir (staged n))
      end
    else inl MissingKey
  else
    match dict_get string_dec file (configs n) with
    | Some d =>
        match doc_update (segments key) f d with
        | inl e => inl e
        | inr d' => inr (with_files n (dict_set string_dec file d' (configs n)) (genesis n))
        end
    | None => inl MissingKey
    end.

(** Modelled from the spec: [set(file, value, path)]. *)
Definition set (n : Node) (file : string) (v : Value) (key : string)
    : result Node :=
  if string_dec file genesis_json then
    match genesis n with
    | Some g =>
        match doc_set (segments key) v (gen_params g) with
        | inl e => inl e
        | inr d => inr (with_genesis n (mkGenesis d (gen_balances g) (gen_validators g)))
        end
    | None => inl MissingKey
    end
  else if is_gentx_path file then
    if string_dec key memo_key then
      match edit_gentx file (set_memo v) (gentx_dir n) with
      | inl e => inl e
      | inr dir => inr (with_gentx_dir n dir (staged n))
      end
    else inl MissingKey
  else
    match dict_get string_dec file (configs n) with
    | Some d =>
        match doc_set (segments key) v d with
        | inl e => inl e
        | inr d' => inr (with_files n (dict_set string_dec file d' (configs n)) (genesis n))
        end
    | None => inl MissingKey
    end.

(** Modelled from the spec: [addAccount] funds an account in the local
    genesis. *)
Definition add_account (n : Node) (c : Coin) (a : Account) : result Node :=
  match genesis n with
  | Some g =>
      inr (with_genesis n
             (mkGenesis (gen_params g) (gen_balances g ++ [(a, c)])
                (gen_validators g)))
  | None => inl ProcessError
  end.

Definition add_key (n : Node) (a : Account) : result Node :=
  inr (with_keyring n (keyring n ++ [a])).

(** Modelled from the spec: [addValidator] stages a locally signed
    gentx in the gentx directory. *)
Definition add_validator (n : Node) (c : Coin) (a : Account) : result Node :=
  match genesis n with
  | Some _ =>
      inr (with_gentx_dir n
             (store_gentx
                (mkGentx a c (bin_gentx_memo w (moniker n) (configs n)) (Some a))
                (gentx_dir n))
             (Some a))
  | None => inl ProcessError
  end.

Definition glob_gentx (n : Node) : list string :=
  map gentx_path (gentx_dir n).

(** Modelled from the spec: [sign(account, file)] (re-)signs a
    transaction file. *)
Definition sign (n : Node) (a : Account) (file : string) : result Node :=
  match
    (fix go (dir : list Gentx) : result (list Gentx) :=
       match dir with
       | [] => inl ProcessError
       | g :: r =>
           if string_dec file (path_join (home_dir n) (gentx_path g))
           then inr (mkGentx (gx_validator g) (gx_stake g) (gx_memo g) (Some a) :: r)
           else match go r with
                | inl e => inl e
                | inr r' => inr (g :: r')
                end
       end) (gentx_dir n)
  with
  | inl e => inl e
  | inr dir => inr (with_gentx_dir n dir (staged n))
  end.

(** Modelled from the spec: [copyGenesisFrom(other)] overwrites the local
    genesis with another node's. *)
Definition copy_genesis_from (n other : Node) : result Node :=
  match genesis other with
  | Some g => inr (with_genesis n g)
  | None => inl ProcessError
  end.

(** Modelled from the spec: [copyGentxFrom(other)] imports the peer's
    signed gentx, the one the peer staged, into the local directory. *)
Definition copy_gentx_from (n other : Node) : result Node :=
  match staged other with
  | Some v =>
      match find_gentx v (gentx_dir other) with
      | Some g => inr (with_gentx_dir n (store_gentx g (gentx_dir n)) (staged n))
      | None => inl ProcessError
      end
  | None => inl ProcessError
  end.

(** Modelled from the spec: [collectGentx()] folds every locally present
    gentx into the node's genesis, and fails with [BootstrapFailure] on
    a malformed one.  (That a peer's gentx is absent is not something
    one node's directory shows; see [exchange_complete].) *)
Definition collect_gentx (n : Node) : result Node :=
  match genesis n with
  | Some g =>
      if forallb gentx_valid (gentx_dir n)
      then inr (with_genesis n
                  (mkGenesis (gen_params g) (gen_balances g)
                     (map validator_entry (gentx_dir n))))
      else inl BootstrapFailure
  | None => inl ProcessError
  end.

(** Modelled from the spec: [start()] spawns the process of an
    initialised node. *)
Definition start (n : Node) : result Node :=
  match genesis n with
  | Some _ => inr (with_running n true)
  | None => inl ProcessError
  end.

(** Modelled from the spec: [close()] terminates the process if there is
    one; a node configured not to retain state loses its working
    directory.  It never fails. *)
Definition close (n : Node) : result Node :=
  if node_keep n then inr (with_running n false)
  else inr (mkNode (moniker n) (node_chain_id n) (home_dir n)
              (node_overwrite n) (node_keep n) (node_binary n)
              (node_denom n) (node_hrp_prefix n) [] None [] [] None false).

(** Modelled from the spec: [update_port(old, port)] rewrites the port of
    an address and keeps what precedes it. *)
Definition spec_update_port (old port : Value) : result Value :=
  match old with
  | VStr s => inr (VStr (rsplit_head s +s+ py_str port))
  | _ => inl AttributeError
  end.

#[export] Instance api : NodeAPI Node := {
  Account_new := new_account;
  account_address := key_address w;
  Node_new := new_node;
  node_moniker := moniker;
  node_home_dir := home_dir;
  node_init := init;
  node_set := set;
  node_get := get;
  node_update := update;
  node_get_port := fun n spec => get n (config_file spec) (property_path spec);
  node_add_account := add_account;
  node_add_key := add_key;
  node_add_validator := add_validator;
  node_glob_gentx := glob_gentx;
  node_sign := sign;
  node_copy_genesis_from := copy_genesis_from;
  node_copy_gentx_from := copy_gentx_from;
  node_collect_gentx := collect_gentx;
  node_start := start;
  node_close := close;
  get_free_ports := os_free_ports w;
  update_port := spec_update_port;
  path_mkdir := fs_mkdir w
}.
End WithWorld.
End SpecNode.

(** ** A concrete world: defaults of a Cosmos SDK binary *)

Module Simd.
Import SpecNode.

Definition config_toml_defaults : Doc :=
  Table
    [ ("proxy_app", Leaf (VStr "tcp://127.0.0.1:26658"));
      ("rpc", Table [ ("laddr", Leaf (VStr "tcp://127.0.0.1:26657"));
                      ("pprof_laddr", Leaf (VStr "localhost:6060")) ]);
      ("p2p", Table [ ("laddr", Leaf (VStr "tcp://0.0.0.0:26656"));
                      ("max_num_inbound_peers", Leaf (VInt 40)) ]);
      ("instrumentation",
        Table [ ("prometheus", Leaf (VBool false));
                ("prometheus_listen_addr", Leaf (VStr ":26660")) ]) ].

Definition app_toml_defaults : Doc :=
  Table
    [ ("minimum-gas-prices", Leaf (VStr ""));
      ("api", Table [ ("enable", Leaf (VBool false));
                      ("address", Leaf (VStr "tcp://0.0.0.0:1317")) ]);
      ("grpc", Table [ ("address", Leaf (VStr "0.0.0.0:9090")) ]);
      ("grpc-web", Table [ ("address", Leaf (VStr "0.0.0.0:9091")) ]) ].

Definition world : World :=
  mkWorld
    (fun _ => [ ("config/config.toml", config_toml_defaults);
                ("config/app.toml", app_toml_defaults) ])
    (fun moniker =>
       Table [ ("genesis_time", Leaf (VStr ("t-" +s+ moniker)));
               ("app_state",
                 Table [ ("staking",
                           Table [ ("params",
                                     Table [ ("max_validators", Leaf (VInt 100)) ]) ]) ]) ])
    (fun moniker _ => moniker +s+ "@192.168.0.1:26656")
    (fun n =>
       if (n <=? 1024)%Z
       then inr (map (fun i => (30000 + Z.of_nat i)%Z) (seq 0 (Z.to_nat n)))
       else inl ResourceExhausted)
    (fun seed group name => seed +s+ "/" +s+ group +s+ "/" +s+ str_id name)
    (fun a prefix => prefix +s+ "1" +s+ acc_group a +s+ str_id (acc_name a))
    (fun _ => inr tt).

#[export] Instance api : NodeAPI Node := SpecNode.api world.

(** Three validators, two accounts, one genesis and one node override:
    [Testnet("test-1", 3, 2, "simd", "stake", "cosmos", seed="seed",
    config_genesis=..., config_node=...)]. *)
Definition net3 : Testnet Node :=
  mkTestnet "test-1" [IdInt 0; IdInt 1] [IdInt 0; IdInt 1; IdInt 2] (IdInt 0)
    (Some "seed") "simd" "stake" "cosmos" 118
    [ ("app_state.staking.params.max_validators", VInt 7) ]
    [ ("app", [ ("api.enable", VBool true); ("minimum-gas-prices", VStr "0stake") ]) ]
    (10 ^ 27) (10 ^ 21) true true false "validator_nodes"
    None None None.

(** The same network with identities that have no seed, and a single
    validator given by name. *)
Definition net1 : Testnet Node :=
  mkTestnet "test-1" [IdStr "alice"] [IdStr "val"] (IdStr "val")
    None "simd" "stake" "cosmos" 118 [] [] (10 ^ 27) (10 ^ 21)
    true false false "validator_nodes" None None None.

(** [net3] once [prepare] has run. *)
Definition net3_prepared : Testnet Node := state_of (prepare (API := api) net3).

(** A chain that holds one account: its account number, and the sequence
    it expects next.  A transaction with another sequence is rejected with
    code 32; an endpoint other than a node's gRPC port is unreachable. *)
Record ChainState : Type := mkChain {
  acct_address : string;
  acct_number : Z;
  next_sequence : Z;
  block_height : Z
}.

#[export] Instance chain_api : ChainAPI ChainState := {
  auth_account := fun c host port address =>
    if (port =? 9090)%Z
    then if string_dec address (acct_address c)
         then inr (mkBaseAccount address (acct_number c) (next_sequence c))
         else inl KeyError
    else inl TransportError;
  broadcast_tx := fun c host port tx mode =>
    if (port =? 9090)%Z
    then if (tx_sequence tx =? next_sequence c)%Z
         then (mkChain (acct_address c) (acct_number c) (next_sequence c + 1)
                 (block_height c + 1),
               inr (mkTxResponse 0 "[]" (block_height c + 1) "A1B2"))
         else (c, inr (mkTxResponse 32 "account sequence mismatch" 0 "A1B2"))
    else (c, inl TransportError)
}.

Definition chain0 : ChainState := mkChain "cosmos1acc0" 7 0 10.
End Simd.

(** The keys of a dictionary comprehension: the first occurrence of every
    key, in order ([seen] are the keys already inserted). *)
Fixpoint first_occurrences (seen ks : list AccountId) : list AccountId :=
  match ks with
  | [] => []
  | k :: r =>
      if in_dec AccountId_eq_dec k seen then first_occurrences seen r
      else k :: first_occurrences (seen ++ [k]) r
  end.



(** ** [acc_addr], [val_addr] *)

Section Addresses.
Context {Node : Type} {API : NodeAPI Node}.

(** [account.validator_address(prefix)] of [node.py]. *)
Variable validator_address : Account -> string -> string.

(** [self.accounts[id]]: the attribute, then the subscript. *)
Definition the_account (self : Testnet Node) (id : AccountId) : result Account :=
  match accounts self with
  | None => inl AttributeError
  | Some d =>
      match dict_get AccountId_eq_dec id d with
      | None => inl KeyError
      | Some a => inr a
      end
  end.

(** [acc_addr] *)
Definition acc_addr (self : Testnet Node) (id : AccountId) : result string :=
  match the_account self id with
  | inl e => inl e
  | inr a => inr (account_address a (hrp_prefix self))
  end.

(** [val_addr]: both branches subscript [self.accounts]. *)
Definition val_addr (self : Testnet Node) (id : AccountId) (valoper : bool)
    : result string :=
  if valoper then
    match the_account self id with
    | inl e => inl e
    | inr a => inr (validator_address a (hrp_prefix self))
    end
  else
    match the_account self id with
    | inl e => inl e
    | inr a => inr (account_address a (hrp_prefix self))
    end.
End Addresses.


(** ** Nodes whose process cannot be terminated *)

Module Stubborn.
(** The nodes of [Simd], but [close()] raises on a node that is running. *)
Definition close (n : SpecNode.Node) : result SpecNode.Node :=
  if SpecNode.running n then inl ProcessError else SpecNode.close n.

Definition api : NodeAPI SpecNode.Node := {|
  Account_new := SpecNode.new_account Simd.world;
  account_address := SpecNode.key_address Simd.world;
  Node_new := SpecNode.new_node;
  node_moniker := SpecNode.moniker;
  node_home_dir := SpecNode.home_dir;
  node_init := SpecNode.init Simd.world;
  node_set := SpecNode.set;
  node_get := SpecNode.get;
  node_update := SpecNode.update;
  node_get_port := fun n spec =>
    SpecNode.get n (config_file spec) (property_path spec);
  node_add_account := SpecNode.add_account;
  node_add_key := SpecNode.add_key;
  node_add_validator := SpecNode.add_validator Simd.world;
  node_glob_gentx := SpecNode.glob_gentx;
  node_sign := SpecNode.sign;
  node_copy_genesis_from := SpecNode.copy_genesis_from;
  node_copy_gentx_from := SpecNode.copy_gentx_from;
  node_collect_gentx := SpecNode.collect_gentx;
  node_start := SpecNode.start;
  node_close := close;
  get_free_ports := SpecNode.os_free_ports Simd.world;
  update_port := SpecNode.spec_update_port;
  path_mkdir := SpecNode.fs_mkdir Simd.world
|}.

(** The prepared network of [Simd] with the second node started. *)
Definition second_started : Testnet SpecNode.Node :=
  state_of (node_call (IdInt 1) (EvStart (IdInt 1)) SpecNode.start
              Simd.net3_prepared).

(** The network of [Simd] with its node objects created and the first
    node initialised. *)
Definition first_initialised : Testnet SpecNode.Node :=
  state_of (node_call (IdInt 0) (EvInit (IdInt 0)) (SpecNode.init Simd.world)
              (state_of (create_nodes (API := Simd.api) Simd.net3))).
End Stubborn.

(** ** An operating system without free ports *)

Module Exhausted.
Definition world : SpecNode.World :=
  SpecNode.mkWorld (SpecNode.bin_default_configs Simd.world)
    (SpecNode.bin_default_genesis Simd.world)
    (SpecNode.bin_gentx_memo Simd.world)
    (fun _ => inl ResourceExhausted)
    (SpecNode.key_mnemonic Simd.world)
    (SpecNode.key_address Simd.world)
    (SpecNode.fs_mkdir Simd.world).
End Exhausted.

(** ** A file system that refuses the data directory *)

Module ReadOnly.
Definition world : SpecNode.World :=
  SpecNode.mkWorld (SpecNode.bin_default_configs Simd.world)
    (SpecNode.bin_default_genesis Simd.world)
    (SpecNode.bin_gentx_memo Simd.world)
    (SpecNode.os_free_ports Simd.world)
    (SpecNode.key_mnemonic Simd.world)
    (SpecNode.key_address Simd.world)
    (fun _ => inl OSError).
End ReadOnly.


(** ** [examples/cosmos-sdk/transfer/reactor.py]: the step [Init] *)

Section Reactor.
Context {Node : Type} {API : NodeAPI Node}.

(** [testnet.verbose = b] *)
Definition with_verbose (self : Testnet Node) (b : bool) : Testnet Node :=
  mkTestnet (chain_id self) (_account_ids self) (_validator_ids self)
    (_lead_validator self) (_account_seed self) (binary self) (denom self)
    (hrp_prefix self) (coin_type self) (config_genesis self)
    (config_node self) (account_balance self) (validator_balance self)
    (overwrite self) (keep self) b (data_dir self)
    (validators self) (accounts self) (validator_nodes self).

(** [init(testnet, action)].  [testnet.n_account = n_wallet] adds an
    attribute that no method of [Testnet] reads (the accounts are
    [_account_ids]), so the object of the embedding is unchanged by it;
    then [testnet.verbose = True] and [testnet.oneshot()].  The calls of
    [logging] and [time.sleep] are left out. *)
Definition reactor_init (n_wallet : Z) : M (Testnet Node) unit :=
  self <- get_self ;;
  put_self (with_verbose self true) ;;
  oneshot.
End Reactor.


(** * Statements about runs *)

(** Every run of [m] from a state in [I], failed or not, writes a log in [T]
    and ends in [I]; a returned value is in [Q]. *)
Definition sound_for (S : Type) (I : S -> Prop) (T : list Event -> Prop)
    (A : Type) (m : M S A) (Q : A -> Prop) : Prop :=
  forall s, I s ->
    T (trace_of (m s)) /\ I (state_of (m s))
    /\ forall a, value_of (m s) = inr a -> Q a.

Definition is_ok (A : Type) (r : result A) : bool :=
  match r with
  | inr _ => true
  | inl _ => false
  end.

(** A description of the logs of a program: [L ok tr] for the log [tr] of a
    run that returned ([ok = true]) or raised ([ok = false]). *)
Definition Log : Type := bool -> list Event -> Prop.

(** Every run of [m] from a state in [I] writes a log that [L] describes
    and ends in [I]; a returned value is in [Q]. *)
Definition spec_for (S : Type) (I : S -> Prop) (L : Log)
    (A : Type) (m : M S A) (Q : A -> Prop) : Prop :=
  forall s, I s ->
    L (is_ok (value_of (m s))) (trace_of (m s)) /\ I (state_of (m s))
    /\ forall a, value_of (m s) = inr a -> Q a.

(** The logs of [m ;; k]: those of [m] when it raises, or those of a [m] that
    returned followed by those of [k]. *)
Definition then_ (L1 L2 : Log) : Log :=
  fun ok tr =>
    exists l1 l2,
      tr = l1 ++ l2
      /\ ((L1 true l1 /\ L2 ok l2) \/ (ok = false /\ l2 = [] /\ L1 false l1)).

(** The logs of one loop: [T] in every run, [C] in a run that returned. *)
Definition phase (T C : list Event -> Prop) : Log :=
  fun ok tr => T tr /\ (ok = true -> C tr).

Section CeremonyStatements.
Context {Node : Type} {API : NodeAPI Node}.

(** The keys of [self.validators] and of [self.validator_nodes]: the nodes
    in creation order. *)
Definition node_keys (self : Testnet Node) : list AccountId :=
  first_occurrences [] (_validator_ids self).

(** [self.validators] and [self.accounts] as [finalize_accounts] builds
    them. *)
Definition the_validators (self : Testnet Node) : dict AccountId Account :=
  dict_comp AccountId_eq_dec
    (fun v => Account_new v "val" (_account_seed self)) (_validator_ids self).

Definition the_accounts (self : Testnet Node) : dict AccountId Account :=
  dict_comp AccountId_eq_dec
    (fun a => Account_new a "acc" (_account_seed self)) (_account_ids self).

(** The nodes that are not the lead, in creation order. *)
Definition followers (self : Testnet Node) : list AccountId :=
  filter (fun n => negb (id_eqb n (_lead_validator self))) (node_keys self).

(** [len(self.ports()) * (len(self.validators) - 1)] *)
Definition port_request (self : Testnet Node) : Z :=
  (Z.of_nat (List.length ports) * (Z.of_nat (List.length (node_keys self)) - 1))%Z.

(** The lead is the first identifier, as [set_validators] leaves it. *)
Definition lead_first (self : Testnet Node) : Prop :=
  nth_error (_validator_ids self) 0 = Some (_lead_validator self).

(** The states [prepare] goes through once the node objects exist: the
    object after [finalize_accounts], with some node objects under the
    keys of [self.validators]. *)
Definition in_ceremony (self s : Testnet Node) : Prop :=
  exists nodes,
    s = with_validator_nodes (finalize_accounts self) nodes
    /\ dict_keys nodes = node_keys self.

Definition funding (self : Testnet Node) : Coin :=
  mkCoin (account_balance self) (denom self).

Definition self_stake (self : Testnet Node) : Coin :=
  mkCoin (validator_balance self) (denom self).

(** The memo rewrite of node [n] that a signature follows: the gentx file
    found, the node's own p2p address read, the memo rewritten to the port
    of that address. *)
Definition readdressing (n : AccountId) (file : string) (more : list string)
    (laddr : string) : list Event :=
  [ EvGlobGentx n (file :: more);
    EvGet n "config/config.toml" "p2p.laddr" (inr (VStr laddr));
    EvUpdatePort n file (VStr (rsplit_last laddr)) "body.memo" ].

(** Every signature in the log comes right after the memo rewrite of the
    same node, on the same file. *)
Definition signs_follow_rewrite (tr : list Event) : Prop :=
  forall pre n a f post,
    tr = pre ++ EvSign n a f :: post ->
    exists pre' file more laddr home,
      pre = pre' ++ readdressing n file more laddr
      /\ f = path_join home file.

(** The calls each loop of [prepare] may make. *)
Definition init_event (self : Testnet Node) (e : Event) : Prop :=
  match e with
  | EvInit n => In n (node_keys self)
  | _ => False
  end.

Definition override_event (self : Testnet Node) (e : Event) : Prop :=
  match e with
  | EvSet n file v k =>
      n = _lead_validator self /\ file = genesis_json
      /\ In (k, v) (config_genesis self)
  | _ => False
  end.

Definition fund_event (self : Testnet Node) (who : list Account) (e : Event) : Prop :=
  match e with
  | EvAddAccount n c a =>
      n = _lead_validator self /\ c = funding self /\ In a who
  | _ => False
  end.

Definition share_event (self : Testnet Node) (e : Event) : Prop :=
  match e with
  | EvCopyGenesisFrom n other =>
      other = _lead_validator self /\ In n (followers self)
  | _ => False
  end.

Definition alloc_event (self : Testnet Node) (e : Event) : Prop :=
  match e with
  | EvGetFreePorts n r => n = port_request self /\ r = get_free_ports n
  | _ => False
  end.

Definition config_event (self : Testnet Node) (e : Event) : Prop :=
  match e with
  | EvSet n file v k =>
      In n (node_keys self)
      /\ exists cf kvs,
           file = config_toml cf /\ In (cf, kvs) (config_node self) /\ In (k, v) kvs
  | EvUpdatePort n file (VInt _) key =>
      In n (followers self)
      /\ exists e_port,
           In e_port (dict_values ports)
           /\ file = config_file e_port /\ key = property_path e_port
  | EvGet n file key _ =>
      In n (node_keys self)
      /\ exists e_port,
           In e_port (dict_values ports)
           /\ file = config_file e_port /\ key = property_path e_port
  | _ => False
  end.

Definition print_event (e : Event) : Prop :=
  match e with
  | EvPrint _ _ => True
  | _ => False
  end.

Definition is_validator (self : Testnet Node) (n : AccountId) (a : Account) : Prop :=
  dict_get AccountId_eq_dec n (the_validators self) = Some a.

Definition gentx_event (self : Testnet Node) (e : Event) : Prop :=
  match e with
  | EvAddKey n a => is_validator self n a
  | EvAddValidator n c a => c = self_stake self /\ is_validator self n a
  | EvGlobGentx n _ => In n (followers self)
  | EvGet n file key _ =>
      In n (followers self) /\ file = "config/config.toml" /\ key = "p2p.laddr"
  | EvUpdatePort n _ (VStr _) key => In n (followers self) /\ key = "body.memo"
  | EvSign n a _ => In n (followers self) /\ is_validator self n a
  | _ => False
  end.

Definition gentx_logs (self : Testnet Node) (tr : list Event) : Prop :=
  Forall (gentx_event self) tr /\ signs_follow_rewrite tr.

Definition exchange_event (self : Testnet Node) (e : Event) : Prop :=
  match e with
  | EvCopyGentxFrom a b =>
      In a (node_keys self) /\ In b (node_keys self) /\ a <> b
  | _ => False
  end.

Definition collect_event (self : Testnet Node) (e : Event) : Prop :=
  match e with
  | EvCollectGentx n => In n (node_keys self)
  | _ => False
  end.

Definition is_collect (e : Event) : bool :=
  match e with EvCollectGentx _ => true | _ => false end.

Definition is_copy_gentx (e : Event) : bool :=
  match e with EvCopyGentxFrom _ _ => true | _ => false end.

(** The calls of the all-pairs exchange over the nodes [ids]. *)
Definition exchange_script (ids : list AccountId) : list Event :=
  flat_map (fun id_a =>
    flat_map (fun id_b =>
      if id_eqb id_a id_b then [] else [EvCopyGentxFrom id_a id_b]) ids) ids.

(** A rewrite of a listening address to an allocated port. *)
Definition is_port_assignment (e : Event) : bool :=
  match e with
  | EvUpdatePort _ _ (VInt _) _ => true
  | _ => false
  end.

(** [node.update(e_port.config_file, lambda x: update_port(x, row[j]), ...)]
    for every role [j] of the port table, in its order. *)
Definition block_assignment (n : AccountId) (row : list Z) : list Event :=
  map (fun je =>
         EvUpdatePort n (config_file (snd je)) (VInt (nth (fst je) row 0%Z))
           (property_path (snd je)))
    (enumerate (dict_values ports)).

(** The port assignments of the configuration loop over [ids], the rows
    popped off the end of [rows] one node after the other. *)
Fixpoint assignment_script (lead : AccountId) (ids : list AccountId)
    (rows : list (list Z)) : list Event :=
  match ids with
  | [] => []
  | n :: r =>
      if id_eqb n lead then assignment_script lead r rows
      else match list_pop rows with
           | None => []
           | Some (rest, row) => block_assignment n row ++ assignment_script lead r rest
           end
  end.





Definition is_set (e : Event) : bool :=
  match e with
  | EvSet _ _ _ _ => true
  | _ => false
  end.


(** The logs of the loops that returned. *)
Definition init_script (self : Testnet Node) : list Event :=
  map EvInit (node_keys self).

Definition override_script (self : Testnet Node) : list Event :=
  map (fun kv => EvSet (_lead_validator self) genesis_json (snd kv) (fst kv))
    (config_genesis self).

Definition fund_script (self : Testnet Node) (who : list Account) : list Event :=
  map (EvAddAccount (_lead_validator self) (funding self)) who.

Definition share_script (self : Testnet Node) : list Event :=
  map (fun n => EvCopyGenesisFrom n (_lead_validator self)) (followers self).

Definition alloc_script (self : Testnet Node) : list Event :=
  [EvGetFreePorts (port_request self) (get_free_ports (port_request self))].

(** The declared config overrides, applied to node [n]. *)
Definition overrides_of (self : Testnet Node) (n : AccountId) : list Event :=
  flat_map (fun entry =>
              map (fun kv => EvSet n (config_toml (fst entry)) (snd kv) (fst kv))
                (snd entry))
    (config_node self).

(** The configuration loop that returned: the overrides on every node and
    the rows of allocated ports assigned to the followers. *)
Definition config_script (self : Testnet Node) (tr : list Event) : Prop :=
  exists flat rows,
    get_free_ports (port_request self) = inr flat
    /\ reshape (List.length ports) flat = inr rows
    /\ filter is_port_assignment tr
       = assignment_script (_lead_validator self) (node_keys self) rows
    /\ filter is_set tr = flat_map (overrides_of self) (node_keys self)
    /\ (List.length (followers self) <= List.length rows)%nat.

(** The calls of the gentx loop on node [n]. *)
Definition gentx_segment (self : Testnet Node) (n : AccountId)
    (seg : list Event) : Prop :=
  exists a rest,
    is_validator self n a
    /\ seg = EvAddKey n a :: EvAddValidator n (self_stake self) a :: rest
    /\ if id_eqb n (_lead_validator self) then rest = []
       else exists file more laddr home,
              rest = readdressing n file more laddr
                     ++ [EvSign n a (path_join home file)].

Definition gentx_script (self : Testnet Node) (tr : list Event) : Prop :=
  exists segs,
    tr = List.concat segs /\ Forall2 (gentx_segment self) (node_keys self) segs.

Definition collect_script (self : Testnet Node) : list Event :=
  map EvCollectGentx (node_keys self).

Definition any_log : list Event -> Prop := fun _ => True.

(** The logs of the loops of [prepare], loop after loop. *)
Definition ceremony_log (self : Testnet Node) : Log :=
  then_ (phase (Forall (init_event self)) (eq (init_script self)))
 (then_ (phase (Forall (override_event self)) (eq (override_script self)))
 (then_ (phase (Forall (fund_event self (dict_values (the_validators self))))
               (eq (fund_script self (dict_values (the_validators self)))))
 (then_ (phase (Forall (fund_event self (dict_values (the_accounts self))))
               (eq (fund_script self (dict_values (the_accounts self)))))
 (then_ (phase (Forall (share_event self)) (eq (share_script self)))
 (then_ (phase (eq (alloc_script self)) any_log)
 (then_ (phase (Forall (config_event self)) (config_script self))
 (then_ (phase (Forall print_event) any_log)
 (then_ (phase (gentx_logs self) (gentx_script self))
 (then_ (phase (Forall (exchange_event self))
               (eq (exchange_script (node_keys self))))
        (phase (Forall (collect_event self)) (eq (collect_script self)))))))))))).

(** The logs of [prepare]. *)
Definition prepare_log (self : Testnet Node) : Log :=
  then_ (phase (eq [EvMkdir (data_dir self)]) any_log) (ceremony_log self).

(** The object once [prepare] has created the node objects. *)
Definition after_create (self : Testnet Node) : Testnet Node :=
  with_validator_nodes (finalize_accounts self)
    (new_nodes (finalize_accounts self) (the_validators self)).

(** Genesis content comes from the lead: a genesis override or a funding
    call targets the lead, a genesis copy is a copy of the lead's into
    another node. *)
Definition genesis_from_lead (self : Testnet Node) (e : Event) : Prop :=
  match e with
  | EvSet n file _ _ => file = genesis_json -> n = _lead_validator self
  | EvAddAccount n _ _ => n = _lead_validator self
  | EvCopyGenesisFrom n other =>
      other = _lead_validator self /\ n <> _lead_validator self
  | _ => True
  end.

(** The amounts of the ceremony: funding is with [account_balance], on the
    lead; a self-stake is [validator_balance], for the node's validator. *)
Definition balance_use (self : Testnet Node) (e : Event) : Prop :=
  match e with
  | EvAddAccount n c _ =>
      n = _lead_validator self
      /\ c = mkCoin (account_balance self) (denom self)
  | EvAddValidator n c a =>
      c = mkCoin (validator_balance self) (denom self) /\ is_validator self n a
  | _ => True
  end.

(** Locating a gentx, editing a document through [update] and signing are
    calls on nodes other than the lead; a signature is by the node's own
    validator. *)
Definition followers_only (self : Testnet Node) (e : Event) : Prop :=
  match e with
  | EvGlobGentx n _ => n <> _lead_validator self
  | EvUpdatePort n _ _ _ => n <> _lead_validator self
  | EvSign n a _ => n <> _lead_validator self /\ is_validator self n a
  | _ => True
  end.

(** The port request is for one port per role and node but the lead; only
    other nodes have an address rewritten. *)
Definition port_use (self : Testnet Node) (e : Event) : Prop :=
  match e with
  | EvGetFreePorts n _ =>
      n = (Z.of_nat (List.length ports)
           * (Z.of_nat (List.length (node_keys self)) - 1))%Z
  | EvUpdatePort n _ _ _ => n <> _lead_validator self
  | _ => True
  end.

Definition pair_exchange (e : Event) : Prop :=
  match e with
  | EvCopyGentxFrom a b => a <> b
  | _ => True
  end.

(** A log ends with the exchange and the collection: calls that are no
    collection, then the all-pairs exchange, complete if any collection
    follows, then collections only. *)
Definition ends_with_collection (self : Testnet Node) (tr : list Event) : Prop :=
  exists before t_ex t_col,
    tr = before ++ t_ex ++ t_col
    /\ Forall (fun e => is_collect e = false) (before ++ t_ex)
    /\ Forall (fun e => is_collect e = true) t_col
    /\ (t_col <> [] -> t_ex = exchange_script (node_keys self)).

(** The node object under key [x], if there is one. *)
Definition node_of (s : Testnet Node) (x : AccountId) : option Node :=
  match validator_nodes s with
  | Some nodes => dict_get AccountId_eq_dec x nodes
  | None => None
  end.

(** A program whose runs that return leave the object as it was. *)
Definition quiet (A : Type) (m : M (Testnet Node) A) : Prop :=
  forall s tr s' a, m s = (tr, s', inr a) -> s' = s.

(** A program whose runs that return change node [x] only, taking it from
    [n] to some [n'] with [Rel n n']. *)
Definition local (self : Testnet Node) (x : AccountId)
    (Rel : Node -> Node -> Prop) (A : Type) (m : M (Testnet Node) A) : Prop :=
  forall s tr s' a,
    in_ceremony self s -> m s = (tr, s', inr a) ->
    in_ceremony self s'
    /\ (forall y, y <> x -> node_of s' y = node_of s y)
    /\ exists n n', node_of s x = Some n /\ node_of s' x = Some n' /\ Rel n n'.
End CeremonyStatements.

(** ** Statements about [broadcast_transaction] and [teardown] *)

(** [msgs] as the list the transaction carries. *)
Definition msgs_of (msgs : MsgsArg) : list Msg :=
  match msgs with
  | OneMsg m => [m]
  | MsgList l => l
  end.

(** The node a broadcast addresses. *)
Definition target_of (Node : Type) (self : Testnet Node)
    (validator_id : option AccountId) : AccountId :=
  match validator_id with
  | None => _lead_validator self
  | Some v => v
  end.

Definition is_broadcast (e : Event) : bool :=
  match e with
  | EvBroadcastTx _ _ _ => true
  | _ => false
  end.

(** A submission waits for the commit. *)
Definition waits_for_commit (e : Event) : Prop :=
  match e with
  | EvBroadcastTx _ mode _ => mode = BROADCAST_MODE_BLOCK
  | _ => True
  end.

(** Contact with a node's endpoint: a channel, a query or a submission. *)
Definition contacts_endpoint (e : Event) : bool :=
  match e with
  | EvChannel _ _ | EvAuthAccount _ _ | EvBroadcastTx _ _ _ | EvChannelClose => true
  | _ => false
  end.

(** ** Statements about the genesis documents of the nodes *)

Section AgreementStatements.
Import SpecNode.

(** Two genesis documents with the same validator set, whatever the order
    of its entries in the document, and the same balances. *)
Definition genesis_agree (a b : Genesis) : Prop :=
  Permutation (gen_validators a) (gen_validators b)
  /\ gen_balances a = gen_balances b.

(** Every two nodes of [s] hold genesis documents that agree. *)
Definition nodes_agree (s : Testnet Node) : Prop :=
  forall x y nx ny,
    node_of s x = Some nx -> node_of s y = Some ny ->
    exists gx gy,
      genesis nx = Some gx /\ genesis ny = Some gy /\ genesis_agree gx gy.

(** Every node of the network exists and satisfies [P]. *)
Definition all_nodes (self : Testnet Node) (P : AccountId -> Node -> Prop)
    (s : Testnet Node) : Prop :=
  forall x, In x (node_keys self) -> exists n, node_of s x = Some n /\ P x n.

(** The validator set the ceremony is to produce: every validator
    identity with the self-stake. *)
Definition expected_validators (w : World) (self : Testnet Node)
    : list (Account * Coin) :=
  map (fun v => (v, self_stake self))
    (dict_values (the_validators (API := api w) self)).

(** Node [a] holds the gentx [g]. *)
Definition holds (s : Testnet Node) (a : AccountId) (g : Gentx) : Prop :=
  exists n, node_of s a = Some n /\ In g (gentx_dir n).

(** The validator identity of node [x]. *)
Definition validator_of (w : World) (self : Testnet Node) (x : AccountId) : Account :=
  new_account w x "val" (_account_seed self).

(** The stages a node goes through: no gentx yet; initialised; holding
    the shared genesis [G]; holding its own signed gentx; exchanging. *)
Definition fresh (n : Node) : Prop := gentx_dir n = [].

Definition initialised (n : Node) : Prop :=
  gentx_dir n = [] /\ genesis n <> None.

Definition shares (G : Genesis) (n : Node) : Prop :=
  gentx_dir n = [] /\ genesis n = Some G.

Definition staged_own (G : Genesis) (v : Account) (c : Coin) (n : Node) : Prop :=
  genesis n = Some G /\ staged n = Some v
  /\ exists g, gentx_dir n = [g] /\ gx_validator g = v /\ gx_stake g = c
               /\ gx_signed_by g = Some v.

Definition exchanging (w : World) (self : Testnet Node) (G : Genesis)
    (own : AccountId -> Gentx) (x : AccountId) (n : Node) : Prop :=
  genesis n = Some G /\ staged n = Some (validator_of w self x)
  /\ find_gentx (validator_of w self x) (gentx_dir n) = Some (own x)
  /\ (forall g, In g (gentx_dir n) -> exists y, In y (node_keys self) /\ g = own y)
  /\ NoDup (map gx_validator (gentx_dir n)).

(** What a call before the gentx loop does to a node without a gentx: it
    leaves it without one, and with a genesis document if it had one; a
    call on a config file leaves the genesis document as it was. *)
Definition keeps_fresh (n n' : Node) : Prop :=
  gentx_dir n = [] ->
  gentx_dir n' = [] /\ (genesis n <> None -> genesis n' <> None).

Definition keeps_genesis (n n' : Node) : Prop :=
  gentx_dir n = [] -> gentx_dir n' = [] /\ genesis n' = genesis n.

(** The gentx a node holds once it has staged its own. *)
Definition own_gentx (w : World) (self s : Testnet Node) (x : AccountId) : Gentx :=
  match node_of s x with
  | Some n =>
      match gentx_dir n with
      | g :: _ => g
      | [] => mkGentx (validator_of w self x) (self_stake self) "" None
      end
  | None => mkGentx (validator_of w self x) (self_stake self) "" None
  end.
End AgreementStatements.

(** ** Statements about the endpoints *)

(** The character [c] occurs in [s]. *)
Fixpoint has_char (c : ascii) (s : string) : bool :=
  match s with
  | EmptyString => false
  | String a r => if Ascii.eqb a c then true else has_char c r
  end.

(** Every character of [s] satisfies [f]. *)
Fixpoint all_chars (f : ascii -> bool) (s : string) : bool :=
  match s with
  | EmptyString => true
  | String c r => f c && all_chars f r
  end.

(** The role [get_grpc_channel] asks for. *)
Definition grpc_role : ConfigPort :=
  mkConfigPort "gRPC" "config/app.toml" "grpc.address".

(** ** Statements about the processes *)

Definition is_start (e : Event) : bool :=
  match e with
  | EvStart _ => true
  | _ => false
  end.

(** A call that starts or closes a node. *)
Definition is_process_event (e : Event) : bool :=
  match e with
  | EvStart _ | EvClose _ => true
  | _ => false
  end.

(** ** Statements about the identities and the tables of [prepare] *)

Section PrepareStatements.
Context {Node : Type} {API : NodeAPI Node}.

(** A key, a stake or a signature on node [n] is of the validator
    identity with the identifier [n]. *)
Definition uses_own_identity (self : Testnet Node) (e : Event) : Prop :=
  match e with
  | EvAddKey n a | EvAddValidator n _ a | EvSign n a _ => is_validator self n a
  | _ => True
  end.

Definition is_print (e : Event) : bool :=
  match e with
  | EvPrint _ _ => true
  | _ => false
  end.

(** The row of node [n] in the table of ports: the moniker of the node
    object, then what [get] on that object returned for each port field,
    in the order of the port table; the log [tr] holds these reads as
    calls on node [n]. *)
Definition port_row (tr : list Event) (n : AccountId) (row : list Value) : Prop :=
  exists node cells,
    row = VStr (node_moniker node) :: cells
    /\ Forall2 (fun e_port cell =>
                  node_get node (config_file e_port) (property_path e_port)
                  = inr cell
                  /\ In (EvGet n (config_file e_port) (property_path e_port)
                           (inr cell)) tr)
         (dict_values ports) cells.

(** The three tables: the ports of every node, the validator addresses,
    the account addresses. *)
Definition tables (self : Testnet Node) (all_port_data : list (list Value))
    : list Event :=
  [ EvPrint ("Moniker" :: map title (dict_values ports)) all_port_data;
    EvPrint ["Validators"]
      (map (fun v => [VStr (account_address v (hrp_prefix self))])
         (dict_values (the_validators self)));
    EvPrint ["Accounts"]
      (map (fun a => [VStr (account_address a (hrp_prefix self))])
         (dict_values (the_accounts self))) ].
End PrepareStatements.

(** A call [prepare] makes before the configuration loop: the data
    directory, [init], a genesis override, a funding, a genesis copy, the
    port request. *)
Definition before_configuration (e : Event) : Prop :=
  match e with
  | EvMkdir _ | EvInit _ | EvAddAccount _ _ _ | EvCopyGenesisFrom _ _
  | EvGetFreePorts _ _ => True
  | EvSet _ file _ _ => file = genesis_json
  | _ => False
  end.

(** * Properties *)

(** ** Dictionaries *)

Section DictFacts.
Variables (K V : Type).
Variable K_eq_dec : forall a b : K, {a = b} + {a <> b}.
Implicit Types (d : dict K V) (k : K) (v : V).

Lemma dict_get_set_same k v d :
  dict_get K_eq_dec k (dict_set K_eq_dec k v d) = Some v.
Proof.
  induction d as [|[k' v'] r IH]; simpl.
  - destruct (K_eq_dec k k); congruence.
  - destruct (K_eq_dec k k') as [E|E]; simpl.
    + destruct (K_eq_dec k k'); congruence.
    + destruct (K_eq_dec k k'); congruence.
Qed.

Lemma dict_get_set_other k k' v d :
  k <> k' -> dict_get K_eq_dec k' (dict_set K_eq_dec k v d) = dict_get K_eq_dec k' d.
Proof.
  intros Hne. induction d as [|[k1 v1] r IH]; simpl.
  - destruct (K_eq_dec k' k); congruence.
  - destruct (K_eq_dec k k1) as [E|E]; simpl.
    + subst k1. destruct (K_eq_dec k' k); congruence.
    + destruct (K_eq_dec k' k1); congruence.
Qed.

Lemma dict_keys_set_present k v v0 d :
  dict_get K_eq_dec k d = Some v0 ->
  dict_keys (dict_set K_eq_dec k v d) = dict_keys d.
Proof.
  induction d as [|[k1 v1] r IH]; simpl; [discriminate|].
  destruct (K_eq_dec k k1) as [E|E]; simpl; intros H.
  - reflexivity.
  - f_equal. apply IH, H.
Qed.

Lemma dict_get_some_in k v d :
  dict_get K_eq_dec k d = Some v -> In k (dict_keys d).
Proof.
  induction d as [|[k1 v1] r IH]; simpl; [discriminate|].
  destruct (K_eq_dec k k1) as [E|E]; intros H; auto.
Qed.

Lemma dict_get_in_some k d :
  In k (dict_keys d) -> exists v, dict_get K_eq_dec k d = Some v.
Proof.
  induction d as [|[k1 v1] r IH]; simpl; [tauto|].
  intros [E|Hin]; destruct (K_eq_dec k k1) as [E'|E']; eauto; congruence.
Qed.

Lemma dict_get_none_notin k d :
  dict_get K_eq_dec k d = None -> ~ In k (dict_keys d).
Proof.
  intros H Hin. apply dict_get_in_some in Hin. destruct Hin as [v Hv]. congruence.
Qed.

Lemma dict_get_map (f : K -> V) k ks :
  In k ks -> dict_get K_eq_dec k (map (fun x => (x, f x)) ks) = Some (f k).
Proof.
  induction ks as [|k1 r IH]; simpl; [tauto|].
  intros [E|Hin]; destruct (K_eq_dec k k1) as [E'|E']; subst; auto; congruence.
Qed.

Lemma dict_get_in_values k v d :
  dict_get K_eq_dec k d = Some v -> In v (dict_values d).
Proof.
  induction d as [|[k1 v1] r IH]; simpl; [discriminate|].
  destruct (K_eq_dec k k1); intros H; [left; congruence | right; auto].
Qed.

Lemma dict_set_map_in (f : K -> V) k ks :
  In k ks ->
  dict_set K_eq_dec k (f k) (map (fun x => (x, f x)) ks) = map (fun x => (x, f x)) ks.
Proof.
  induction ks as [|k1 r IH]; simpl; [tauto|].
  intros Hin. destruct (K_eq_dec k k1) as [E|E].
  - subst; reflexivity.
  - f_equal. apply IH. destruct Hin; congruence.
Qed.

Lemma dict_set_map_notin (f : K -> V) k ks :
  ~ In k ks ->
  dict_set K_eq_dec k (f k) (map (fun x => (x, f x)) ks)
  = map (fun x => (x, f x)) (ks ++ [k]).
Proof.
  induction ks as [|k1 r IH]; simpl; [reflexivity|].
  intros Hnin. destruct (K_eq_dec k k1) as [E|E].
  - exfalso. apply Hnin. left. congruence.
  - f_equal. apply IH. tauto.
Qed.
End DictFacts.

Lemma first_occurrences_spec seen ks :
  NoDup seen ->
  NoDup (seen ++ first_occurrences seen ks)
  /\ forall x, In x (seen ++ first_occurrences seen ks) <-> In x seen \/ In x ks.
Proof.
  revert seen. induction ks as [|k r IH]; intros seen Hnd; simpl.
  - rewrite app_nil_r. split; [assumption | intros x; tauto].
  - destruct (in_dec AccountId_eq_dec k seen) as [Hin|Hnin].
    + destruct (IH seen Hnd) as [H1 H2]. split; [assumption|].
      intros x. rewrite H2. split; [tauto|]. intros [?|[?|?]]; subst; auto.
    + assert (Hnd' : NoDup (seen ++ [k])).
      { apply NoDup_app; [assumption | repeat constructor; simpl; tauto |].
        intros a Ha [E|[]]. subst. contradiction. }
      destruct (IH (seen ++ [k]) Hnd') as [H1 H2].
      rewrite <- app_assoc in H1, H2. simpl in H1, H2.
      split; [assumption|].
      intros x. rewrite H2, in_app_iff. simpl. tauto.
Qed.

Lemma first_occurrences_nodup ks : NoDup (first_occurrences [] ks).
Proof. exact (proj1 (first_occurrences_spec ks (NoDup_nil _))). Qed.

Lemma first_occurrences_in ks x : In x (first_occurrences [] ks) <-> In x ks.
Proof.
  destruct (first_occurrences_spec ks (NoDup_nil _)) as [_ H].
  specialize (H x). simpl in H. tauto.
Qed.

Lemma first_occurrences_head ks :
  nth_error (first_occurrences [] ks) 0 = nth_error ks 0.
Proof. destruct ks; reflexivity. Qed.

Lemma first_occurrences_id seen ks :
  NoDup ks -> (forall x, In x ks -> ~ In x seen) -> first_occurrences seen ks = ks.
Proof.
  revert seen. induction ks as [|k r IH]; intros seen Hnd Hdisj; simpl; [reflexivity|].
  inversion Hnd; subst.
  destruct (in_dec AccountId_eq_dec k seen) as [Hin|Hnin].
  - exfalso. apply (Hdisj k); simpl; auto.
  - f_equal. apply IH; [assumption|].
    intros x Hx Hin. apply in_app_or in Hin. destruct Hin as [Hin|[E|[]]].
    + apply (Hdisj x); simpl; auto.
    + subst. contradiction.
Qed.

Lemma dict_comp_fold (V : Type) (f : AccountId -> V) ks seen :
  fold_left (fun d k => dict_set AccountId_eq_dec k (f k) d) ks
    (map (fun x => (x, f x)) seen)
  = map (fun x => (x, f x)) (seen ++ first_occurrences seen ks).
Proof.
  revert seen. induction ks as [|k r IH]; intros seen; simpl.
  - now rewrite app_nil_r.
  - destruct (in_dec AccountId_eq_dec k seen) as [Hin|Hnin].
    + rewrite dict_set_map_in by assumption. apply IH.
    + rewrite dict_set_map_notin by assumption. rewrite IH.
      now rewrite <- app_assoc.
Qed.

Lemma dict_comp_map (V : Type) (f : AccountId -> V) ks :
  dict_comp AccountId_eq_dec f ks = map (fun x => (x, f x)) (first_occurrences [] ks).
Proof. exact (dict_comp_fold f ks []). Qed.

Lemma dict_comp_keys (V : Type) (f : AccountId -> V) ks :
  dict_keys (dict_comp AccountId_eq_dec f ks) = first_occurrences [] ks.
Proof.
  rewrite dict_comp_map. unfold dict_keys. rewrite map_map. simpl. apply map_id.
Qed.

Lemma dict_comp_values (V : Type) (f : AccountId -> V) ks :
  dict_values (dict_comp AccountId_eq_dec f ks) = map f (first_occurrences [] ks).
Proof.
  rewrite dict_comp_map. unfold dict_values. now rewrite map_map.
Qed.

Lemma dict_comp_get (V : Type) (f : AccountId -> V) ks k :
  In k ks -> dict_get AccountId_eq_dec k (dict_comp AccountId_eq_dec f ks) = Some (f k).
Proof.
  intros Hin. rewrite dict_comp_map. apply dict_get_map.
  now apply first_occurrences_in.
Qed.

Lemma id_eqb_true a b : id_eqb a b = true <-> a = b.
Proof. unfold id_eqb. destruct (AccountId_eq_dec a b); split; congruence. Qed.

Lemma id_eqb_false a b : id_eqb a b = false <-> a <> b.
Proof. unfold id_eqb. destruct (AccountId_eq_dec a b); split; congruence. Qed.

(** ** Runs of monadic programs *)

Section Runs.
Variable S : Type.

Lemma bind_ok (A B : Type) (m : M S A) (f : A -> M S B) s tr s' b :
  bind m f s = (tr, s', inr b) ->
  exists tr1 s1 a tr2,
    m s = (tr1, s1, inr a) /\ f a s1 = (tr2, s', inr b) /\ tr = tr1 ++ tr2.
Proof.
  unfold bind. destruct (m s) as [[tr1 s1] [e|a]]; [discriminate|].
  destruct (f a s1) as [[tr2 s2] r] eqn:Ef. intros H. inversion H; subst.
  exists tr1, s1, a, tr2. auto.
Qed.

Lemma bind_run (A B : Type) (m : M S A) (f : A -> M S B) s :
  (exists e, value_of (m s) = inl e /\ bind m f s = (trace_of (m s), state_of (m s), inl e))
  \/ (exists a, value_of (m s) = inr a
        /\ bind m f s
           = (trace_of (m s) ++ trace_of (f a (state_of (m s))),
              state_of (f a (state_of (m s))),
              value_of (f a (state_of (m s))))).
Proof.
  unfold bind, trace_of, state_of, value_of.
  destruct (m s) as [[tr1 s1] [e|a]]; simpl.
  - left. eauto.
  - right. exists a. split; [reflexivity|].
    destruct (f a s1) as [[tr2 s2] r]; reflexivity.
Qed.

Lemma run_eta (A : Type) (o : list Event * S * result A) :
  o = (trace_of o, state_of o, value_of o).
Proof. destruct o as [[tr s] r]; reflexivity. Qed.

(** A successful loop is the concatenation of its successful iterations. *)
Lemma for_ok (X : Type) (body : X -> M S unit) (I : S -> Prop)
    xs (Hpres : forall x s, In x xs -> I s -> I (state_of (body x s))) :
  forall s tr s',
    I s -> for_ xs body s = (tr, s', inr tt) ->
    I s' /\
    exists trs,
      tr = List.concat trs /\
      Forall2 (fun x tr_x => exists s1 s2, I s1 /\ body x s1 = (tr_x, s2, inr tt)) xs trs.
Proof.
  induction xs as [|x r IH]; intros s tr s' Hs H; simpl in H.
  - inversion H; subst. split; [assumption|]. exists []. split; constructor.
  - apply bind_ok in H. destruct H as (tr1 & s1 & [] & tr2 & H1 & H2 & ->).
    assert (Hs1 : I s1).
    { pose proof (Hpres x s (or_introl eq_refl) Hs) as K. rewrite H1 in K. exact K. }
    destruct (IH (fun y s0 Hy => Hpres y s0 (or_intror Hy)) _ _ _ Hs1 H2)
      as (Hs' & trs & -> & HF).
    split; [assumption|]. exists (tr1 :: trs). split; [reflexivity|].
    constructor; [|assumption]. exists s, s1. auto.
Qed.

Section Sound.
(** [I] is an invariant of the state, [T] a property of logs that holds
    of the empty log and of the concatenation of two logs it holds of. *)
Variable I : S -> Prop.
Variable T : list Event -> Prop.
Hypothesis T_nil : T [].
Hypothesis T_app : forall l1 l2, T l1 -> T l2 -> T (l1 ++ l2).

Abbreviation sound := (@sound_for S I T).

Lemma sound_weaken (A : Type) (m : M S A) (Q Q' : A -> Prop) :
  sound m Q -> (forall a, Q a -> Q' a) -> sound m Q'.
Proof.
  intros H HQ s Hs. destruct (H s Hs) as (H1 & H2 & H3). repeat split; auto.
Qed.

Lemma sound_ret (A : Type) (a : A) (Q : A -> Prop) : Q a -> sound (ret a) Q.
Proof.
  intros Ha s Hs. unfold ret; simpl. repeat split; auto. congruence.
Qed.

Lemma sound_raise (A : Type) (e : exn) (Q : A -> Prop) : sound (raise e) Q.
Proof. intros s Hs. unfold raise; simpl. repeat split; auto. discriminate. Qed.

Lemma sound_lift (A : Type) (r : result A) : sound (lift r) (fun a => r = inr a).
Proof. intros s Hs. unfold lift; simpl. repeat split; auto. Qed.

Lemma sound_emit (e : Event) : T [e] -> sound (emit e) (fun _ => True).
Proof. intros He s Hs. unfold emit; simpl. repeat split; auto. Qed.

Lemma sound_get_self : sound get_self I.
Proof. intros s Hs. unfold get_self; simpl. repeat split; auto. congruence. Qed.

Lemma sound_put_self (s' : S) : I s' -> sound (put_self s') (fun _ => True).
Proof. intros H s Hs. unfold put_self; simpl. repeat split; auto. Qed.

Lemma sound_bind (A B : Type) (m : M S A) (f : A -> M S B)
    (Q : A -> Prop) (R : B -> Prop) :
  sound m Q -> (forall a, Q a -> sound (f a) R) -> sound (bind m f) R.
Proof.
  intros Hm Hf s Hs. destruct (Hm s Hs) as (H1 & H2 & H3).
  destruct (bind_run m f s) as [(e & He & ->) | (a & Ha & ->)];
    unfold trace_of, state_of, value_of in *; simpl.
  - repeat split; auto. discriminate.
  - destruct (Hf a (H3 a Ha) _ H2) as (K1 & K2 & K3). repeat split; auto.
Qed.

Lemma sound_loop (X : Type) (xs : list X) (body : X -> M S unit) :
  (forall x, In x xs -> sound (body x) (fun _ => True)) ->
  sound (for_ xs body) (fun _ => True).
Proof.
  induction xs as [|x r IH]; intros H; simpl.
  - apply sound_ret; exact Logic.I.
  - eapply sound_bind; [apply H; simpl; auto|].
    intros _ _. apply IH. intros y Hy. apply H. simpl; auto.
Qed.

Lemma sound_foldM (X A : Type) (body : A -> X -> M S A) (xs : list X) :
  (forall a x, In x xs -> sound (body a x) (fun _ => True)) ->
  forall a, sound (foldM body a xs) (fun _ => True).
Proof.
  induction xs as [|x r IH]; intros H a; simpl.
  - apply sound_ret; exact Logic.I.
  - eapply sound_bind; [apply H; simpl; auto|].
    intros a' _. apply IH. intros b y Hy. apply H. simpl; auto.
Qed.

Lemma sound_mapM (X A : Type) (f : X -> M S A) (xs : list X) :
  (forall x, In x xs -> sound (f x) (fun _ => True)) ->
  sound (mapM f xs) (fun _ => True).
Proof.
  induction xs as [|x r IH]; intros H; simpl.
  - apply sound_ret; exact Logic.I.
  - eapply sound_bind; [apply H; simpl; auto|].
    intros a _. eapply sound_bind; [apply IH; intros y Hy; apply H; simpl; auto|].
    intros l _. apply sound_ret; exact Logic.I.
Qed.
End Sound.
End Runs.

(** ** The calls of the ceremony, in every run *)

Section Primitives.
Context {Node : Type} {API : NodeAPI Node}.
Variable self : Testnet Node.
Variable T : list Event -> Prop.
Hypothesis T_nil : T [].

Abbreviation csound := (@sound_for (Testnet Node) (in_ceremony self) T).

Lemma in_ceremony_nodes s :
  in_ceremony self s ->
  exists nodes, validator_nodes s = Some nodes /\ dict_keys nodes = node_keys self.
Proof. intros (nodes & -> & Hk). exists nodes. split; [reflexivity | assumption]. Qed.

Lemma in_ceremony_update s nodes id node node' :
  in_ceremony self s ->
  validator_nodes s = Some nodes ->
  dict_get AccountId_eq_dec id nodes = Some node ->
  in_ceremony self (with_validator_nodes s (dict_set AccountId_eq_dec id node' nodes)).
Proof.
  intros (nodes0 & -> & Hk) Hn Hg. simpl in Hn. inversion Hn; subst nodes0.
  exists (dict_set AccountId_eq_dec id node' nodes). split; [reflexivity|].
  rewrite (dict_keys_set_present AccountId_eq_dec id node' nodes Hg). assumption.
Qed.

Lemma sound_attr_validators :
  csound (attr validators) (fun d => d = the_validators self).
Proof.
  intros s Hs. pose proof Hs as (nodes & -> & Hk).
  unfold attr, trace_of, state_of, value_of; simpl. repeat split; auto.
  intros a H. inversion H. reflexivity.
Qed.

Lemma sound_attr_accounts :
  csound (attr accounts) (fun d => d = the_accounts self).
Proof.
  intros s Hs. pose proof Hs as (nodes & -> & Hk).
  unfold attr, trace_of, state_of, value_of; simpl. repeat split; auto.
  intros a H. inversion H. reflexivity.
Qed.

Lemma sound_node_ids : csound node_ids (fun ids => ids = node_keys self).
Proof.
  intros s Hs. pose proof Hs as (nodes & -> & Hk).
  unfold node_ids, bind, attr, ret, trace_of, state_of, value_of; simpl.
  repeat split; auto. intros a H. inversion H. assumption.
Qed.

Lemma sound_node_call id ev method :
  T [ev] -> csound (node_call id ev method) (fun _ => True).
Proof.
  intros Hev s Hs. destruct (in_ceremony_nodes Hs) as (nodes & Hn & Hk).
  unfold node_call, trace_of, state_of, value_of. rewrite Hn.
  destruct (dict_get AccountId_eq_dec id nodes) as [node|] eqn:Hg; simpl; auto.
  destruct (method node) as [e|node']; simpl; auto.
  repeat split; auto. eapply in_ceremony_update; eauto.
Qed.

Lemma sound_node_call2 id other ev method :
  T [ev] -> csound (node_call2 id other ev method) (fun _ => True).
Proof.
  intros Hev s Hs. destruct (in_ceremony_nodes Hs) as (nodes & Hn & Hk).
  unfold node_call2, trace_of, state_of, value_of. rewrite Hn.
  destruct (dict_get AccountId_eq_dec id nodes) as [node|] eqn:Hg; simpl; auto.
  destruct (dict_get AccountId_eq_dec other nodes) as [node_b|]; simpl; auto.
  destruct (method node node_b) as [e|node']; simpl; auto.
  repeat split; auto. eapply in_ceremony_update; eauto.
Qed.

Lemma sound_node_read (A : Type) id (ev : A -> list Event) (method : Node -> A) :
  (forall a, T (ev a)) -> csound (node_read id ev method) (fun _ => True).
Proof.
  intros Hev s Hs. destruct (in_ceremony_nodes Hs) as (nodes & Hn & Hk).
  unfold node_read, trace_of, state_of, value_of. rewrite Hn.
  destruct (dict_get AccountId_eq_dec id nodes) as [node|] eqn:Hg; simpl; auto.
Qed.

Lemma sound_subscript (K V : Type) (dec : forall a b : K, {a = b} + {a <> b})
    (d : dict K V) (k : K) :
  csound (subscript dec d k) (fun v => dict_get dec k d = Some v).
Proof.
  intros s Hs. unfold subscript.
  destruct (dict_get dec k d) as [v|]; unfold ret, raise, trace_of, state_of, value_of;
    simpl; repeat split; auto; intros a H; inversion H; reflexivity.
Qed.

Hypothesis T_app : forall l1 l2, T l1 -> T l2 -> T (l1 ++ l2).

Lemma sound_call_get id file key :
  (forall r, T [EvGet id file key r]) -> csound (call_get id file key) (fun _ => True).
Proof.
  intros Hev. unfold call_get.
  eapply sound_bind; [exact T_app | apply sound_node_read; exact Hev |].
  intros r _. eapply sound_weaken; [apply sound_lift; exact T_nil | auto].
Qed.
End Primitives.

(** ** Paths *)

Lemma has_char_app c a b : has_char c (a +s+ b) = has_char c a || has_char c b.
Proof.
  induction a as [|x a IH]; simpl; [reflexivity|].
  destruct (Ascii.eqb x c); [reflexivity | exact IH].
Qed.

(** A character that is no slash stays in a component of the path. *)
Lemma split_slash_keeps c s :
  c <> slash -> has_char c s = true ->
  exists part, In part (split_slash s) /\ has_char c part = true.
Proof.
  intros Hc. induction s as [|a r IH]; simpl; [discriminate|].
  destruct (Ascii.eqb_spec a slash) as [->|Ha].
  - destruct (Ascii.eqb_spec slash c) as [E|_]; [congruence|].
    intros H. destruct (IH H) as (part & Hin & Hp). exists part. simpl. auto.
  - destruct (Ascii.eqb_spec a c) as [->|Hac].
    + intros _. destruct (split_slash r) as [|p more].
      * exists (String c EmptyString). simpl.
        split; [auto|]. now rewrite Ascii.eqb_refl.
      * exists (String c p). simpl. split; [auto|]. now rewrite Ascii.eqb_refl.
    + intros H. destruct (IH H) as (part & Hin & Hp).
      destruct (split_slash r) as [|p more]; [contradiction|].
      destruct Hin as [->|Hin].
      * exists (String a part). simpl. split; [auto|].
        destruct (Ascii.eqb a c); [reflexivity | exact Hp].
      * exists part. simpl. auto.
Qed.

Lemma concat_keeps c sep part parts :
  In part parts -> has_char c part = true ->
  has_char c (String.concat sep parts) = true.
Proof.
  induction parts as [|x r IH]; simpl; [tauto|].
  intros Hin Hp. destruct r as [|y r].
  - destruct Hin as [->|[]]. exact Hp.
  - rewrite !has_char_app. destruct Hin as [->|Hin].
    + now rewrite Hp.
    + rewrite (IH Hin Hp). now rewrite !orb_true_r.
Qed.

(** [Path(s)] keeps every character of [s] that is no slash and no dot. *)
Lemma path_norm_keeps c s :
  c <> slash -> c <> "."%char -> has_char c s = true ->
  has_char c (path_norm s) = true.
Proof.
  intros Hs Hd H. destruct (split_slash_keeps s Hs H) as (part & Hin & Hp).
  assert (Hcomp : is_component part = true).
  { unfold is_component.
    destruct (String.eqb_spec part EmptyString) as [->|_]; [discriminate|].
    destruct (String.eqb_spec part ".") as [->|_]; [|reflexivity].
    cbn [has_char] in Hp.
    destruct (Ascii.eqb_spec "."%char c) as [E|E]; [congruence | discriminate Hp]. }
  assert (Hkept : In part (path_parts (path_of s)))
    by (unfold path_of; simpl; apply filter_In; auto).
  unfold path_norm, path_text.
  destruct (path_parts (path_of s)) as [|x r] eqn:E; [contradiction|].
  assert (Hc : has_char c (String.concat "/" (x :: r)) = true)
    by (eapply concat_keeps; eauto).
  destruct (path_root (path_of s)); rewrite has_char_app, Hc; now rewrite orb_true_r.
Qed.

Lemma config_toml_not_genesis (config_file : string) :
  config_toml config_file <> genesis_json.
Proof.
  intros H.
  assert (Ht : has_char "t" (config_toml config_file) = true).
  { unfold config_toml. apply path_norm_keeps; try discriminate.
    rewrite !has_char_app. simpl. now rewrite orb_true_r. }
  rewrite H in Ht. discriminate.
Qed.

(** Each loop of [prepare], in every run, failed or not: the calls it may
    make.  [T] is any property of logs that holds of the empty log and of
    concatenations; each lemma asks that [T] holds of the single calls of its
    loop. *)
Section Phases.
Context {Node : Type} {API : NodeAPI Node}.
Variable self : Testnet Node.
Variable T : list Event -> Prop.
Hypothesis T_nil : T [].
Hypothesis T_app : forall l1 l2, T l1 -> T l2 -> T (l1 ++ l2).

Abbreviation psound := (@sound_for (Testnet Node) (in_ceremony self) T).
Abbreviation lead := (_lead_validator self).

Lemma T_cons e l : T [e] -> T l -> T (e :: l).
Proof. intros He Hl. change (e :: l) with ([e] ++ l). now apply T_app. Qed.

Lemma phase_bind (A B : Type) (m : M (Testnet Node) A) (f : A -> M (Testnet Node) B)
    (Q : A -> Prop) (R : B -> Prop) :
  psound m Q -> (forall a, Q a -> psound (f a) R) -> psound (bind m f) R.
Proof. apply sound_bind. exact T_app. Qed.

Lemma phase_for (X : Type) (xs : list X) (body : X -> M (Testnet Node) unit) :
  (forall x, In x xs -> psound (body x) (fun _ => True)) ->
  psound (for_ xs body) (fun _ => True).
Proof. apply sound_loop; assumption. Qed.

Lemma phase_call id ev method :
  T [ev] -> psound (node_call id ev method) (fun _ => True).
Proof. intros H. apply sound_node_call; assumption. Qed.

Lemma phase_self : psound get_self (in_ceremony self).
Proof. apply sound_get_self. exact T_nil. Qed.

Lemma phase_ids : psound node_ids (fun ids => ids = node_keys self).
Proof. apply sound_node_ids. exact T_nil. Qed.

Lemma phase_ret (A : Type) (a : A) : psound (ret a) (fun _ => True).
Proof. apply sound_ret; [exact T_nil | exact I]. Qed.

Lemma phase_raise (A : Type) (e : exn) : psound (@raise _ A e) (fun _ => True).
Proof. apply sound_raise. exact T_nil. Qed.

Lemma phase_read (A : Type) id (method : Node -> A) :
  psound (node_read id (fun _ => []) method) (fun _ => True).
Proof. apply sound_node_read; [exact T_nil | intros _; exact T_nil]. Qed.

Lemma init_nodes_sound :
  (forall n, In n (node_keys self) -> T [EvInit n]) ->
  psound init_nodes (fun _ => True).
Proof.
  intros H. unfold init_nodes. eapply phase_bind; [apply phase_ids|].
  intros ids ->. apply phase_for. intros id Hid. apply phase_call. auto.
Qed.

Lemma apply_genesis_overrides_sound :
  (forall k v, In (k, v) (config_genesis self) -> T [EvSet lead genesis_json v k]) ->
  psound apply_genesis_overrides (fun _ => True).
Proof.
  intros H. unfold apply_genesis_overrides. eapply phase_bind; [apply phase_self|].
  intros s (nodes & -> & _). apply phase_for. intros [k v] Hkv.
  unfold call_set. apply phase_call. simpl. auto.
Qed.

Lemma fund_sound s account :
  in_ceremony self s ->
  T [EvAddAccount lead (funding self) account] ->
  psound (fund s account) (fun _ => True).
Proof.
  intros (nodes & -> & _) H. unfold fund. apply phase_call. exact H.
Qed.

Lemma fund_validators_sound :
  (forall a, In a (dict_values (the_validators self)) ->
             T [EvAddAccount lead (funding self) a]) ->
  psound fund_validators (fun _ => True).
Proof.
  intros H. unfold fund_validators. eapply phase_bind; [apply phase_self|].
  intros s Hs. eapply phase_bind; [apply sound_attr_validators, T_nil|].
  intros d ->. apply phase_for. intros a Ha. apply fund_sound; auto.
Qed.

Lemma fund_accounts_sound :
  (forall a, In a (dict_values (the_accounts self)) ->
             T [EvAddAccount lead (funding self) a]) ->
  psound fund_accounts (fun _ => True).
Proof.
  intros H. unfold fund_accounts. eapply phase_bind; [apply phase_self|].
  intros s Hs. eapply phase_bind; [apply sound_attr_accounts, T_nil|].
  intros d ->. apply phase_for. intros a Ha. apply fund_sound; auto.
Qed.

Lemma share_genesis_sound :
  (forall n, In n (followers self) -> T [EvCopyGenesisFrom n lead]) ->
  psound share_genesis (fun _ => True).
Proof.
  intros H. unfold share_genesis. eapply phase_bind; [apply phase_self|].
  intros s (nodes & -> & _). eapply phase_bind; [apply phase_ids|].
  intros ids ->. apply phase_for. intros id Hid. simpl.
  destruct (id_eqb id lead) eqn:E.
  - apply phase_ret.
  - apply sound_node_call2; [exact T_nil|]. apply H.
    unfold followers. apply filter_In. split; [assumption|]. now rewrite E.
Qed.

Lemma node_keys_length :
  List.length (the_validators self) = List.length (node_keys self).
Proof.
  unfold the_validators, node_keys. rewrite dict_comp_map. apply length_map.
Qed.

Lemma allocate_ports_sound :
  (forall r, T [EvGetFreePorts (port_request self) r]) ->
  psound allocate_ports
    (fun rows => exists flat,
       get_free_ports (port_request self) = inr flat
       /\ reshape (List.length ports) flat = inr rows).
Proof.
  intros H. unfold allocate_ports.
  eapply phase_bind; [apply sound_attr_validators, T_nil|].
  intros d ->. rewrite node_keys_length. fold (port_request self).
  eapply phase_bind; [apply sound_emit; apply H|].
  intros _ _. eapply phase_bind; [apply sound_lift, T_nil|].
  intros flat Hflat. eapply sound_weaken; [apply sound_lift, T_nil|].
  intros rows Hrows. exists flat. auto.
Qed.

Lemma isinstance_str_value v : isinstance_str v = true -> VStr (py_str v) = v.
Proof. destruct v; simpl; congruence. Qed.

Lemma apply_config_overrides_sound s id :
  in_ceremony self s ->
  (forall cf kvs k v, In (cf, kvs) (config_node self) -> In (k, v) kvs ->
                      T [EvSet id (config_toml cf) v k]) ->
  psound (apply_config_overrides s id) (fun _ => True).
Proof.
  intros (nodes & -> & _) H. unfold apply_config_overrides. simpl.
  apply phase_for. intros [cf kvs] Hcf.
  apply phase_for. intros [k v] Hkv. simpl.
  destruct (isinstance_str v) eqn:E; unfold call_set; apply phase_call.
  - rewrite (isinstance_str_value v E). eauto.
  - eauto.
Qed.

Lemma rewrite_ports_sound id row :
  (forall e p, In e (dict_values ports) ->
               T [EvUpdatePort id (config_file e) (VInt p) (property_path e)]) ->
  psound (rewrite_ports id row) (fun _ => True).
Proof.
  intros H. unfold rewrite_ports. apply phase_for. intros [j e] Hje. simpl.
  destruct (nth_error row j); [|apply phase_raise].
  unfold call_update_port. apply phase_call. apply H.
  clear - Hje. unfold enumerate in Hje. revert Hje. generalize 0%nat.
  induction (dict_values ports) as [|x r IH]; simpl; intros i Hin; [contradiction|].
  destruct Hin as [E|Hin].
  - inversion E; auto.
  - right. eapply IH, Hin.
Qed.

Lemma phase_get id file key :
  (forall r, T [EvGet id file key r]) -> psound (call_get id file key) (fun _ => True).
Proof. intros H. apply sound_call_get; assumption. Qed.

Lemma read_port_data_sound id :
  (forall e r, In e (dict_values ports) ->
               T [EvGet id (config_file e) (property_path e) r]) ->
  psound (read_port_data id) (fun _ => True).
Proof.
  intros H. unfold read_port_data. eapply phase_bind; [apply phase_read|].
  intros moniker _. eapply phase_bind.
  - apply sound_mapM; [exact T_nil | exact T_app |].
    intros e He. apply phase_get. intros r. apply H, He.
  - intros cells _. apply phase_ret.
Qed.

Section Configure.
Hypothesis T_set : forall n cf kvs k v,
  In n (node_keys self) -> In (cf, kvs) (config_node self) -> In (k, v) kvs ->
  T [EvSet n (config_toml cf) v k].
Hypothesis T_assign : forall n e p,
  In n (followers self) -> In e (dict_values ports) ->
  T [EvUpdatePort n (config_file e) (VInt p) (property_path e)].
Hypothesis T_get : forall n e r,
  In n (node_keys self) -> In e (dict_values ports) ->
  T [EvGet n (config_file e) (property_path e) r].

Lemma configure_node_sound s locals id :
  in_ceremony self s -> In id (node_keys self) ->
  psound (configure_node s locals id) (fun _ => True).
Proof.
  intros Hs Hid. unfold configure_node.
  eapply phase_bind; [apply apply_config_overrides_sound; eauto|].
  destruct Hs as (nodes & -> & _).
  intros _ _. eapply phase_bind with (Q := fun _ => True).
  - simpl. destruct (id_eqb id lead) eqn:E; [apply phase_ret|].
    destruct (list_pop (fst locals)) as [[rest row]|]; [|apply phase_raise].
    eapply phase_bind; [|intros _ _; apply phase_ret].
    apply rewrite_ports_sound. intros e p He. apply T_assign; [|assumption].
    unfold followers. apply filter_In. split; [assumption|]. now rewrite E.
  - intros all_ports _. eapply phase_bind; [|intros pd _; apply phase_ret].
    apply read_port_data_sound. intros e r He. now apply T_get.
Qed.

Lemma configure_nodes_sound all_ports :
  psound (configure_nodes all_ports) (fun _ => True).
Proof.
  unfold configure_nodes. eapply phase_bind; [apply phase_self|].
  intros s Hs. eapply phase_bind; [apply phase_ids|].
  intros ids ->. eapply phase_bind.
  - apply sound_foldM; [exact T_nil | exact T_app |].
    intros a x Hx. now apply configure_node_sound.
  - intros locals _. apply phase_ret.
Qed.
End Configure.

Lemma print_tables_sound all_port_data :
  (forall headers rows, T [EvPrint headers rows]) ->
  psound (print_tables all_port_data) (fun _ => True).
Proof.
  intros H. unfold print_tables. eapply phase_bind; [apply phase_self|].
  intros s _. destruct (verbose s); [|apply phase_ret].
  eapply phase_bind; [apply sound_attr_validators, T_nil|].
  intros vs _. eapply phase_bind; [apply sound_attr_accounts, T_nil|].
  intros accs _.
  eapply phase_bind; [apply sound_emit, H|]. intros _ _.
  eapply phase_bind; [apply sound_emit, H|]. intros _ _.
  apply sound_emit, H.
Qed.

Section Gentx.
Hypothesis T_key : forall n a,
  dict_get AccountId_eq_dec n (the_validators self) = Some a -> T [EvAddKey n a].
Hypothesis T_stake : forall n a,
  dict_get AccountId_eq_dec n (the_validators self) = Some a ->
  T [EvAddValidator n (self_stake self) a].
Hypothesis T_glob : forall n files, In n (followers self) -> T [EvGlobGentx n files].
Hypothesis T_laddr : forall n r,
  In n (followers self) -> T [EvGet n "config/config.toml" "p2p.laddr" r].
Hypothesis T_memo : forall n file laddr,
  In n (followers self) ->
  T [EvUpdatePort n file (VStr (rsplit_last laddr)) "body.memo"].
Hypothesis T_signed : forall n a file more laddr home,
  In n (followers self) ->
  dict_get AccountId_eq_dec n (the_validators self) = Some a ->
  T (readdressing n file more laddr ++ [EvSign n a (path_join home file)]).

Lemma readdress_gentx_sound id validator :
  In id (followers self) ->
  dict_get AccountId_eq_dec id (the_validators self) = Some validator ->
  psound
    (readdress_gentx id validator
       (mkConfigPort "P2P" "config/config.toml" "p2p.laddr"))
    (fun _ => True).
Proof.
  intros Hne Hv s Hs. destruct (in_ceremony_nodes Hs) as (nodes & Hn & Hk).
  unfold readdress_gentx, call_get, call_update_port, bind, node_read, node_call,
    lift, raise, trace_of, state_of, value_of.
  rewrite Hn. cbn [config_file property_path].
  destruct (dict_get AccountId_eq_dec id nodes) as [node|] eqn:Hg;
    [|simpl; repeat split; auto].
  destruct (node_glob_gentx node) as [|file more] eqn:Hglob.
  { simpl. repeat split; auto. }
  rewrite Hn, Hg.
  destruct (node_get node "config/config.toml" "p2p.laddr") as [e|[laddr|z|b]] eqn:Hget;
    try (simpl; repeat split; auto; apply T_cons; auto).
  rewrite Hn, Hg.
  destruct (node_update node file _ "body.memo") as [e|node'] eqn:Hupd.
  { simpl. repeat split; auto. repeat (apply T_cons; auto). }
  repeat (cbn [validator_nodes with_validator_nodes]; cbv beta iota;
          rewrite dict_get_set_same).
  assert (Hs1 : in_ceremony self
                  (with_validator_nodes s (dict_set AccountId_eq_dec id node' nodes))).
  { eapply in_ceremony_update; eauto. }
  cbv beta.
  destruct (node_sign node' validator (path_join (node_home_dir node') file))
    as [e|node''] eqn:Hsign; simpl.
  - repeat split; auto.
    apply T_signed; assumption.
  - repeat split; auto.
    + apply T_signed; assumption.
    + eapply in_ceremony_update; [exact Hs1 | reflexivity | apply dict_get_set_same].
Qed.

Lemma stage_gentx_sound s id :
  in_ceremony self s -> In id (node_keys self) ->
  psound (stage_gentx s id) (fun _ => True).
Proof.
  intros (nodes & -> & _) Hid. unfold stage_gentx.
  eapply phase_bind; [apply sound_attr_validators, T_nil|].
  intros d ->.
  eapply phase_bind; [apply sound_subscript, T_nil|].
  intros validator Hv.
  eapply phase_bind; [apply phase_call; auto|]. intros _ _.
  eapply phase_bind; [apply sound_subscript, T_nil|].
  intros p2p Hp. vm_compute in Hp. inversion Hp; subst p2p; clear Hp.
  eapply phase_bind; [apply phase_call; apply T_stake, Hv|].
  intros _ _. cbn [_lead_validator with_validator_nodes finalize_accounts with_accounts].
  destruct (id_eqb id lead) eqn:E; [apply phase_ret|].
  apply readdress_gentx_sound; [|exact Hv].
  unfold followers. apply filter_In. split; [assumption|]. now rewrite E.
Qed.

Lemma stage_gentxs_sound : psound stage_gentxs (fun _ => True).
Proof.
  unfold stage_gentxs. eapply phase_bind; [apply phase_self|].
  intros s Hs. eapply phase_bind; [apply phase_ids|].
  intros ids ->. apply phase_for. intros id Hid. now apply stage_gentx_sound.
Qed.
End Gentx.

Lemma exchange_gentxs_sound :
  (forall a b, In a (node_keys self) -> In b (node_keys self) -> a <> b ->
               T [EvCopyGentxFrom a b]) ->
  psound exchange_gentxs (fun _ => True).
Proof.
  intros H. unfold exchange_gentxs. eapply phase_bind; [apply phase_ids|].
  intros ids ->. apply phase_for. intros a Ha. apply phase_for. intros b Hb.
  destruct (id_eqb a b) eqn:E; [apply phase_ret|].
  apply sound_node_call2; [exact T_nil|]. apply H; auto. now apply id_eqb_false.
Qed.

Lemma collect_gentxs_sound :
  (forall n, In n (node_keys self) -> T [EvCollectGentx n]) ->
  psound collect_gentxs (fun _ => True).
Proof.
  intros H. unfold collect_gentxs. eapply phase_bind; [apply phase_ids|].
  intros ids ->. apply phase_for. intros id Hid. apply phase_call. auto.
Qed.
End Phases.


(** ** Descriptions of logs *)

Section Logs.
Variable S : Type.
Variable I : S -> Prop.

Lemma spec_bind (A B : Type) (m : M S A) (f : A -> M S B) (L1 L2 : Log)
    (Q : A -> Prop) (R : B -> Prop) :
  spec_for I L1 m Q -> (forall a, Q a -> spec_for I L2 (f a) R) ->
  spec_for I (then_ L1 L2) (bind m f) R.
Proof.
  intros Hm Hf s Hs. destruct (Hm s Hs) as (H1 & H2 & H3).
  destruct (bind_run m f s) as [(e & He & ->) | (a & Ha & ->)];
    unfold trace_of, state_of, value_of in *; simpl.
  - rewrite He in H1. simpl in H1. repeat split; auto; [|discriminate].
    exists (fst (fst (m s))), []. rewrite app_nil_r. auto.
  - rewrite Ha in H1. simpl in H1.
    destruct (Hf a (H3 a Ha) _ H2) as (K1 & K2 & K3). repeat split; auto.
    exists (fst (fst (m s))), (fst (fst (f a (snd (fst (m s)))))). auto.
Qed.

Lemma spec_phase (A : Type) (m : M S A) (T C : list Event -> Prop) (Q : A -> Prop) :
  sound_for I T m Q ->
  (forall s tr s' a, I s -> m s = (tr, s', inr a) -> C tr) ->
  spec_for I (phase T C) m Q.
Proof.
  intros Hm HC s Hs. destruct (Hm s Hs) as (H1 & H2 & H3).
  repeat split; auto. intros Hok.
  destruct (m s) as [[tr s'] [e|a]] eqn:E; [discriminate|].
  exact (HC s tr s' a Hs E).
Qed.

Lemma spec_weaken (A : Type) (m : M S A) (L L' : Log) (Q : A -> Prop) :
  spec_for I L m Q -> (forall ok tr, L ok tr -> L' ok tr) -> spec_for I L' m Q.
Proof.
  intros H HL s Hs. destruct (H s Hs) as (H1 & H2 & H3). repeat split; auto.
Qed.
End Logs.

Lemma then_assoc (L1 L2 L3 : Log) ok tr :
  then_ (then_ L1 L2) L3 ok tr -> then_ L1 (then_ L2 L3) ok tr.
Proof.
  intros (l12 & l3 & -> & [[H12 H3] | (-> & -> & H12)]).
  - destruct H12 as (l1 & l2 & -> & [[H1 H2] | (Hf & _)]); [|discriminate].
    exists l1, (l2 ++ l3). rewrite app_assoc. split; [reflexivity|].
    left. split; [assumption|]. exists l2, l3. auto.
  - destruct H12 as (l1 & l2 & -> & [[H1 H2] | (_ & -> & H1)]).
    + exists l1, (l2 ++ []). rewrite app_assoc. split; [reflexivity|].
      left. split; [assumption|]. exists l2, []. auto.
    + exists l1, []. rewrite !app_nil_r. auto.
Qed.

Lemma then_mono (L1 L2 L2' : Log) ok tr :
  (forall ok l, L2 ok l -> L2' ok l) -> then_ L1 L2 ok tr -> then_ L1 L2' ok tr.
Proof.
  intros H (l1 & l2 & -> & [[H1 H2] | (-> & -> & H1)]).
  - exists l1, l2. auto.
  - exists l1, []. auto.
Qed.

Lemma then_ok (L1 L2 : Log) tr :
  then_ L1 L2 true tr -> exists l1 l2, tr = l1 ++ l2 /\ L1 true l1 /\ L2 true l2.
Proof.
  intros (l1 & l2 & -> & [[H1 H2] | (Hf & _)]); [|discriminate]. eauto.
Qed.

Lemma then_all (P : Event -> Prop) (L1 L2 : Log) ok tr :
  (forall ok l, L1 ok l -> Forall P l) -> (forall ok l, L2 ok l -> Forall P l) ->
  then_ L1 L2 ok tr -> Forall P tr.
Proof.
  intros F1 F2 (l1 & l2 & -> & [[H1 H2] | (-> & -> & H1)]).
  - apply Forall_app. split; eauto.
  - rewrite app_nil_r. eauto.
Qed.

Lemma phase_all (P : Event -> Prop) (T C : list Event -> Prop) ok tr :
  (forall l, T l -> Forall P l) -> phase T C ok tr -> Forall P tr.
Proof. intros H [HT _]. auto. Qed.

(** ** The loops of [prepare] that return *)

Section Scripts.
Variable S : Type.

Lemma for_script (X : Type) (body : X -> M S unit) (script : X -> list Event) xs :
  (forall x s tr s', In x xs -> body x s = (tr, s', inr tt) -> tr = script x) ->
  forall s tr s', for_ xs body s = (tr, s', inr tt) -> tr = flat_map script xs.
Proof.
  induction xs as [|x r IH]; intros Hb s tr s' H; simpl in H.
  - inversion H; reflexivity.
  - apply bind_ok in H. destruct H as (tr1 & s1 & [] & tr2 & H1 & H2 & ->).
    simpl. f_equal.
    + eapply Hb; [simpl; auto | exact H1].
    + eapply IH; [|exact H2]. intros y s0 tr0 s0' Hy. apply Hb. simpl; auto.
Qed.

Lemma flat_map_single (X Y : Type) (f : X -> Y) xs :
  flat_map (fun x => [f x]) xs = map f xs.
Proof. induction xs; simpl; congruence. Qed.

Lemma bind_pure (A B : Type) (m : M S A) (f : A -> M S B) s a :
  m s = ([], s, inr a) -> bind m f s = f a s.
Proof.
  intros H. unfold bind. rewrite H. destruct (f a s) as [[tr2 s2] r]. reflexivity.
Qed.

Lemma bind_get_self (B : Type) (f : S -> M S B) s : bind get_self f s = f s s.
Proof. apply bind_pure. reflexivity. Qed.

Lemma ret_ok (A : Type) (a b : A) (s s' : S) tr :
  ret a s = (tr, s', inr b) -> tr = [] /\ s' = s /\ b = a.
Proof. unfold ret. intros H. inversion H. auto. Qed.
End Scripts.

Section PhaseScripts.
Context {Node : Type} {API : NodeAPI Node}.
Variable self : Testnet Node.

Lemma node_ids_run s :
  in_ceremony self s -> node_ids s = ([], s, inr (node_keys self)).
Proof.
  intros (nodes & -> & Hk). unfold node_ids, bind, attr, ret. simpl. now rewrite Hk.
Qed.

Lemma attr_validators_run s :
  in_ceremony self s -> attr validators s = ([], s, inr (the_validators self)).
Proof. intros (nodes & -> & Hk). reflexivity. Qed.

Lemma attr_accounts_run s :
  in_ceremony self s -> attr accounts s = ([], s, inr (the_accounts self)).
Proof. intros (nodes & -> & Hk). reflexivity. Qed.

Lemma node_call_ok id ev method (s s' : Testnet Node) tr :
  node_call id ev method s = (tr, s', inr tt) -> tr = [ev].
Proof.
  unfold node_call. destruct (validator_nodes s); [|discriminate].
  destruct (dict_get AccountId_eq_dec id d); [|discriminate].
  destruct (method n); intros H; inversion H; reflexivity.
Qed.

Lemma node_call2_ok id other ev method (s s' : Testnet Node) tr :
  node_call2 id other ev method s = (tr, s', inr tt) -> tr = [ev].
Proof.
  unfold node_call2. destruct (validator_nodes s); [|discriminate].
  destruct (dict_get AccountId_eq_dec id d); [|discriminate].
  destruct (dict_get AccountId_eq_dec other d); [|discriminate].
  destruct (method n n0); intros H; inversion H; reflexivity.
Qed.

Lemma init_nodes_ok s tr s' :
  in_ceremony self s -> init_nodes s = (tr, s', inr tt) -> tr = init_script self.
Proof.
  intros Hs H. unfold init_nodes in H. apply bind_ok in H.
  destruct H as (tr1 & s1 & ids & tr2 & H1 & H2 & ->).
  rewrite (node_ids_run Hs) in H1. inversion H1; subst. simpl.
  apply for_script with (script := fun id => [EvInit id]) in H2.
  - rewrite H2. apply flat_map_single.
  - intros x s0 tr0 s0' _. apply node_call_ok.
Qed.

Lemma apply_genesis_overrides_ok s tr s' :
  in_ceremony self s -> apply_genesis_overrides s = (tr, s', inr tt) ->
  tr = override_script self.
Proof.
  intros Hs H. unfold apply_genesis_overrides in H. apply bind_ok in H.
  destruct H as (tr1 & s1 & s0 & tr2 & H1 & H2 & ->).
  unfold get_self in H1. inversion H1; subst. simpl.
  destruct Hs as (nodes & -> & _). simpl in H2.
  apply for_script
    with (script := fun kv => [EvSet (_lead_validator self) genesis_json (snd kv) (fst kv)])
    in H2.
  - rewrite H2. apply flat_map_single.
  - intros x s0 tr0 s0' _. apply node_call_ok.
Qed.

Lemma fund_validators_ok s tr s' :
  in_ceremony self s -> fund_validators s = (tr, s', inr tt) ->
  tr = fund_script self (dict_values (the_validators self)).
Proof.
  intros Hs H. unfold fund_validators in H. apply bind_ok in H.
  destruct H as (tr1 & s1 & s0 & tr2 & H1 & H2 & ->).
  unfold get_self in H1. inversion H1; subst. simpl.
  apply bind_ok in H2. destruct H2 as (tr3 & s3 & d & tr4 & H1' & H2 & ->).
  rewrite (attr_validators_run Hs) in H1'. inversion H1'; subst. simpl.
  destruct Hs as (nodes & -> & _).
  apply for_script
    with (script := fun a => [EvAddAccount (_lead_validator self) (funding self) a])
    in H2.
  - rewrite H2. apply flat_map_single.
  - intros x s0 tr0 s0' _. apply node_call_ok.
Qed.

Lemma fund_accounts_ok s tr s' :
  in_ceremony self s -> fund_accounts s = (tr, s', inr tt) ->
  tr = fund_script self (dict_values (the_accounts self)).
Proof.
  intros Hs H. unfold fund_accounts in H. apply bind_ok in H.
  destruct H as (tr1 & s1 & s0 & tr2 & H1 & H2 & ->).
  unfold get_self in H1. inversion H1; subst. simpl.
  apply bind_ok in H2. destruct H2 as (tr3 & s3 & d & tr4 & H1' & H2 & ->).
  rewrite (attr_accounts_run Hs) in H1'. inversion H1'; subst. simpl.
  destruct Hs as (nodes & -> & _).
  apply for_script
    with (script := fun a => [EvAddAccount (_lead_validator self) (funding self) a])
    in H2.
  - rewrite H2. apply flat_map_single.
  - intros x s0 tr0 s0' _. apply node_call_ok.
Qed.

Lemma flat_map_filter_single (X Y : Type) (p : X -> bool) (f : X -> Y) xs :
  flat_map (fun x => if p x then [] else [f x]) xs
  = map f (filter (fun x => negb (p x)) xs).
Proof.
  induction xs as [|x r IH]; simpl; [reflexivity|].
  destruct (p x); simpl; congruence.
Qed.

Lemma share_genesis_ok s tr s' :
  in_ceremony self s -> share_genesis s = (tr, s', inr tt) -> tr = share_script self.
Proof.
  intros Hs H. unfold share_genesis in H. apply bind_ok in H.
  destruct H as (tr1 & s1 & s0 & tr2 & H1 & H2 & ->).
  unfold get_self in H1. inversion H1; subst. simpl.
  apply bind_ok in H2. destruct H2 as (tr3 & s3 & ids & tr4 & H1' & H2 & ->).
  rewrite (node_ids_run Hs) in H1'. inversion H1'; subst. simpl.
  destruct Hs as (nodes & -> & _). simpl in H2.
  apply for_script
    with (script := fun n => if id_eqb n (_lead_validator self) then []
                             else [EvCopyGenesisFrom n (_lead_validator self)])
    in H2.
  - rewrite H2. unfold share_script, followers. apply flat_map_filter_single.
  - intros x s0 tr0 s0' _. destruct (id_eqb x (_lead_validator self)).
    + intros H. apply ret_ok in H. tauto.
    + apply node_call2_ok.
Qed.

Lemma exchange_gentxs_ok s tr s' :
  in_ceremony self s -> exchange_gentxs s = (tr, s', inr tt) ->
  tr = exchange_script (node_keys self).
Proof.
  intros Hs H. unfold exchange_gentxs in H. apply bind_ok in H.
  destruct H as (tr1 & s1 & ids & tr2 & H1 & H2 & ->).
  rewrite (node_ids_run Hs) in H1. inversion H1; subst. simpl.
  unfold exchange_script.
  eapply for_script; [|exact H2].
  intros a s0 tr0 s0' _. apply for_script.
  intros b s3 tr3 s3' _. destruct (id_eqb a b).
  - intros H. apply ret_ok in H. tauto.
  - apply node_call2_ok.
Qed.

Lemma collect_gentxs_ok s tr s' :
  in_ceremony self s -> collect_gentxs s = (tr, s', inr tt) ->
  tr = collect_script self.
Proof.
  intros Hs H. unfold collect_gentxs in H. apply bind_ok in H.
  destruct H as (tr1 & s1 & ids & tr2 & H1 & H2 & ->).
  rewrite (node_ids_run Hs) in H1. inversion H1; subst. simpl.
  apply for_script with (script := fun id => [EvCollectGentx id]) in H2.
  - rewrite H2. apply flat_map_single.
  - intros x s0 tr0 s0' _. apply node_call_ok.
Qed.
End PhaseScripts.


(** ** Port allocation and the configuration loop *)

Lemma filter_all_true (A : Type) (f : A -> bool) l :
  Forall (fun x => f x = true) l -> filter f l = l.
Proof. induction 1 as [|x l Hx _ IH]; simpl; [reflexivity|]. now rewrite Hx, IH. Qed.

Lemma filter_all_false (A : Type) (f : A -> bool) l :
  Forall (fun x => f x = false) l -> filter f l = [].
Proof. induction 1 as [|x l Hx _ IH]; simpl; [reflexivity|]. now rewrite Hx. Qed.

Lemma list_pop_some (A : Type) (l rest : list A) (x : A) :
  list_pop l = Some (rest, x) -> l = rest ++ [x].
Proof.
  unfold list_pop. destruct (rev l) as [|y r] eqn:E; [discriminate|].
  intros H. inversion H; subst.
  rewrite <- (rev_involutive l), E. reflexivity.
Qed.

Lemma list_pop_app (A : Type) (rest : list A) (x : A) :
  list_pop (rest ++ [x]) = Some (rest, x).
Proof. unfold list_pop. rewrite rev_app_distr. simpl. now rewrite rev_involutive. Qed.

Lemma list_pop_none (A : Type) (l : list A) : list_pop l = None -> l = [].
Proof.
  unfold list_pop. destruct (rev l) eqn:E; [|discriminate].
  intros _. rewrite <- (rev_involutive l), E. reflexivity.
Qed.

Section ConfigScripts.
Context {Node : Type} {API : NodeAPI Node}.
Variable self : Testnet Node.

Abbreviation lead := (_lead_validator self).

Lemma allocate_ports_spec :
  spec_for (in_ceremony self) (phase (eq (alloc_script self)) any_log)
    allocate_ports
    (fun rows => exists flat,
       get_free_ports (port_request self) = inr flat
       /\ reshape (List.length ports) flat = inr rows).
Proof.
  intros s Hs. unfold allocate_ports, bind, emit, lift, trace_of, state_of, value_of.
  rewrite (attr_validators_run Hs). rewrite node_keys_length.
  fold (port_request self). unfold alloc_script, phase, any_log.
  destruct (get_free_ports (port_request self)) as [e|flat] eqn:Ef; simpl.
  - repeat split; auto. discriminate.
  - destruct (reshape 8 flat) as [e|rows] eqn:Er; simpl.
    + repeat split; auto. discriminate.
    + repeat split; auto. intros a H. inversion H; subst. eauto.
Qed.

Lemma overrides_are_sets n :
  Forall (fun e => is_set e = true) (overrides_of self n)
  /\ Forall (fun e => is_port_assignment e = false) (overrides_of self n).
Proof.
  unfold overrides_of. induction (config_node self) as [|entry r [IH1 IH2]]; simpl.
  - split; constructor.
  - split; apply Forall_app; split; auto;
      apply Forall_forall; intros e He; apply in_map_iff in He;
      destruct He as (kv & <- & _); reflexivity.
Qed.

Lemma block_is_assignment n row :
  Forall (fun e => is_port_assignment e = true) (block_assignment n row)
  /\ Forall (fun e => is_set e = false) (block_assignment n row).
Proof.
  unfold block_assignment.
  split; apply Forall_forall; intros e He; apply in_map_iff in He;
    destruct He as (je & <- & _); reflexivity.
Qed.

Lemma apply_config_overrides_ok s0 id s tr s' :
  in_ceremony self s0 ->
  apply_config_overrides s0 id s = (tr, s', inr tt) -> tr = overrides_of self id.
Proof.
  intros (nodes & -> & _) H. unfold apply_config_overrides in H. simpl in H.
  unfold overrides_of. eapply for_script; [|exact H].
  intros entry s1 tr1 s1' _ H1.
  apply for_script
    with (script := fun kv => [EvSet id (config_toml (fst entry)) (snd kv) (fst kv)])
    in H1.
  - rewrite H1. apply flat_map_single.
  - intros kv s2 tr2 s2' _.
    destruct (isinstance_str (snd kv)) eqn:E; unfold call_set; intros H2;
      apply node_call_ok in H2; subst; [|reflexivity].
    now rewrite (isinstance_str_value _ E).
Qed.

Lemma rewrite_ports_ok id row (s s' : Testnet Node) tr :
  rewrite_ports id row s = (tr, s', inr tt) -> tr = block_assignment id row.
Proof.
  intros H. unfold rewrite_ports in H.
  apply for_script
    with (script := fun je =>
            [EvUpdatePort id (config_file (snd je)) (VInt (nth (fst je) row 0%Z))
               (property_path (snd je))]) in H.
  - rewrite H. apply flat_map_single.
  - intros je s1 tr1 s1' _.
    destruct (nth_error row (fst je)) as [p|] eqn:E; [|discriminate].
    unfold call_update_port. intros H1. apply node_call_ok in H1. subst.
    now rewrite (nth_error_nth _ _ 0%Z E).
Qed.

Lemma read_port_data_quiet id s :
  in_ceremony self s ->
  Forall (fun e => is_port_assignment e = false /\ is_set e = false)
    (trace_of (read_port_data id s)).
Proof.
  intros Hs.
  refine (proj1 (@read_port_data_sound Node API self
                   (Forall (fun e => is_port_assignment e = false /\ is_set e = false))
                   _ _ id _ s Hs)).
  - constructor.
  - intros l1 l2 H1 H2. apply Forall_app; auto.
  - intros e r _. repeat constructor.
Qed.

Lemma Forall_and_l (A : Type) (P Q : A -> Prop) l :
  Forall (fun x => P x /\ Q x) l -> Forall P l.
Proof. intros H. eapply Forall_impl; [|exact H]. simpl. tauto. Qed.

Lemma Forall_and_r (A : Type) (P Q : A -> Prop) l :
  Forall (fun x => P x /\ Q x) l -> Forall Q l.
Proof. intros H. eapply Forall_impl; [|exact H]. simpl. tauto. Qed.

Lemma ceremony_step (A : Type) (m : M (Testnet Node) A) (Q : A -> Prop) s :
  sound_for (in_ceremony self) any_log m Q ->
  in_ceremony self s -> in_ceremony self (state_of (m s)).
Proof. intros H Hs. exact (proj1 (proj2 (H s Hs))). Qed.

Lemma configure_node_ok s0 locals id s tr s' locals' :
  in_ceremony self s0 -> in_ceremony self s -> In id (node_keys self) ->
  configure_node s0 locals id s = (tr, s', inr locals') ->
  in_ceremony self s'
  /\ filter is_set tr = overrides_of self id
  /\ if id_eqb id lead
     then fst locals' = fst locals /\ filter is_port_assignment tr = []
     else exists row,
            list_pop (fst locals) = Some (fst locals', row)
            /\ filter is_port_assignment tr = block_assignment id row.
Proof.
  intros Hs0 Hs Hid H.
  assert (Hs' : in_ceremony self s').
  { assert (K : in_ceremony self (state_of (configure_node s0 locals id s))).
    { apply ceremony_step with (Q := fun _ => True); [|exact Hs].
      apply configure_node_sound; unfold any_log; auto. }
    rewrite H in K. exact K. }
  split; [exact Hs'|].
  unfold configure_node in H. apply bind_ok in H.
  destruct H as (t1 & s1 & [] & t2 & H1 & H2 & ->).
  assert (t1 = overrides_of self id) as -> by (eapply apply_config_overrides_ok; [exact Hs0 | exact H1]).
  assert (Hs1 : in_ceremony self s1).
  { assert (K : in_ceremony self (state_of (apply_config_overrides s0 id s))).
    { apply ceremony_step with (Q := fun _ => True); [|exact Hs].
      apply apply_config_overrides_sound; unfold any_log; auto. }
    rewrite H1 in K. exact K. }
  apply bind_ok in H2. destruct H2 as (t3 & s3 & all_ports & t4 & H3 & H4 & ->).
  apply bind_ok in H4. destruct H4 as (t5 & s5 & pd & t6 & H5 & H6 & ->).
  apply ret_ok in H6. destruct H6 as (-> & -> & ->). simpl fst.
  rewrite app_nil_r.
  destruct (overrides_are_sets id) as [Ov1 Ov2].
  destruct Hs0 as (nodes0 & -> & _). simpl in H3.
  destruct (id_eqb id lead) eqn:E.
  - apply ret_ok in H3. destruct H3 as (-> & -> & ->).
    pose proof (read_port_data_quiet id Hs1) as Hq. rewrite H5 in Hq.
    unfold trace_of in Hq; simpl in Hq.
    rewrite !filter_app. simpl.
    rewrite (filter_all_true _ Ov1), (filter_all_false _ Ov2).
    rewrite (filter_all_false _ (@Forall_and_l _ _ _ _ Hq)),
            (filter_all_false _ (@Forall_and_r _ _ _ _ Hq)).
    rewrite app_nil_r. auto.
  - destruct (list_pop (fst locals)) as [[rest row]|] eqn:Ep; [|discriminate].
    apply bind_ok in H3. destruct H3 as (t7 & s7 & [] & t8 & H7 & H8 & ->).
    apply ret_ok in H8. destruct H8 as (-> & -> & ->).
    assert (t7 = block_assignment id row) as -> by (eapply rewrite_ports_ok; exact H7).
    assert (Hs7 : in_ceremony self s7).
    { assert (K : in_ceremony self (state_of (rewrite_ports id row s1))).
      { apply ceremony_step with (Q := fun _ => True); [|exact Hs1].
        apply rewrite_ports_sound; unfold any_log; auto. }
      rewrite H7 in K. exact K. }
    pose proof (read_port_data_quiet id Hs7) as Hq. rewrite H5 in Hq.
    unfold trace_of in Hq; simpl in Hq.
    destruct (block_is_assignment id row) as [B1 B2].
    rewrite !filter_app, app_nil_r.
    rewrite (filter_all_true _ Ov1), (filter_all_false _ Ov2).
    rewrite (filter_all_true _ B1), (filter_all_false _ B2).
    rewrite (filter_all_false _ (@Forall_and_l _ _ _ _ Hq)),
            (filter_all_false _ (@Forall_and_r _ _ _ _ Hq)).
    rewrite !app_nil_r. simpl. split; [reflexivity|]. exists row. auto.
Qed.

Lemma configure_fold_ok s0 ids :
  in_ceremony self s0 ->
  (forall x, In x ids -> In x (node_keys self)) ->
  forall locals s tr s' res,
    in_ceremony self s ->
    foldM (configure_node s0) locals ids s = (tr, s', inr res) ->
    filter is_port_assignment tr = assignment_script lead ids (fst locals)
    /\ filter is_set tr = flat_map (overrides_of self) ids
    /\ (List.length (filter (fun n => negb (id_eqb n lead)) ids)
        <= List.length (fst locals))%nat.
Proof.
  intros Hs0 Hin.
  induction ids as [|id r IH]; intros locals s tr s' res Hs H; simpl in H.
  - apply ret_ok in H. destruct H as (-> & _ & _). simpl. repeat split. lia.
  - apply bind_ok in H. destruct H as (t1 & s1 & locals1 & t2 & H1 & H2 & ->).
    assert (Hid : In id (node_keys self)) by (apply Hin; simpl; auto).
    pose proof (@configure_node_ok s0 locals id s t1 s1 locals1 Hs0 Hs Hid H1)
      as (Hs1 & Hset & Hrow).
    assert (Hin' : forall x, In x r -> In x (node_keys self))
      by (intros x Hx; apply Hin; simpl; auto).
    pose proof (IH Hin' locals1 s1 t2 s' res Hs1 H2) as (IH1 & IH2 & IH3).
    rewrite !filter_app, Hset, IH2. simpl.
    destruct (id_eqb id lead) eqn:E; simpl.
    + destruct Hrow as (Hl & ->). simpl. rewrite IH1, <- Hl.
      repeat split; auto.
    + destruct Hrow as (row & Hp & ->). rewrite Hp, IH1.
      repeat split; auto.
      apply list_pop_some in Hp. rewrite Hp, length_app. simpl. lia.
Qed.

Lemma configure_nodes_spec rows flat :
  get_free_ports (port_request self) = inr flat ->
  reshape (List.length ports) flat = inr rows ->
  spec_for (in_ceremony self)
    (phase (Forall (config_event self)) (config_script self))
    (configure_nodes rows) (fun _ => True).
Proof.
  intros Hflat Hrows. apply spec_phase.
  - apply configure_nodes_sound.
    + constructor.
    + intros l1 l2 H1 H2. apply Forall_app; auto.
    + intros n cf kvs k v Hn Hcf Hkv. constructor; [|constructor].
      simpl. split; [assumption|]. exists cf, kvs. auto.
    + intros n e p Hn He. constructor; [|constructor].
      simpl. split; [assumption|]. exists e. auto.
    + intros n e r Hn He. constructor; [|constructor].
      simpl. split; [assumption|]. exists e. auto.
  - intros s tr s' a Hs H. unfold configure_nodes in H.
    rewrite bind_get_self in H.
    rewrite (@bind_pure _ _ _ _ _ _ _ (node_ids_run Hs)) in H.
    apply bind_ok in H. destruct H as (t5 & s5 & locals & t6 & H5 & H6 & ->).
    apply ret_ok in H6. destruct H6 as (-> & _ & _). rewrite app_nil_r.
    pose proof (@configure_fold_ok s (node_keys self) Hs (fun x Hx => Hx)
                  (rows, []) s t5 s5 locals Hs H5) as (K1 & K2 & K3).
    exists flat, rows. simpl in K1, K3. repeat split; auto.
Qed.
End ConfigScripts.


(** ** The gentx loop *)

Lemma signs_nil : signs_follow_rewrite [].
Proof. intros pre n a f post H. destruct pre; discriminate. Qed.

Lemma signs_app l1 l2 :
  signs_follow_rewrite l1 -> signs_follow_rewrite l2 -> signs_follow_rewrite (l1 ++ l2).
Proof.
  intros H1 H2 pre n a f post E.
  apply app_eq_app in E. destruct E as [l [[E1 E2] | [E1 E2]]].
  - destruct l as [|x l].
    + rewrite app_nil_r in E1. simpl in E2. subst l1.
      destruct (H2 [] n a f post (eq_sym E2)) as (pre' & file & more & laddr & home & Hp & Hf).
      destruct pre'; discriminate.
    + simpl in E2. inversion E2; subst.
      exact (H1 pre n a f l eq_refl).
  - subst pre.
    destruct (H2 l n a f post E2) as (pre' & file & more & laddr & home & Hp & Hf).
    exists (l1 ++ pre'), file, more, laddr, home. subst l. now rewrite app_assoc.
Qed.

Lemma signs_atom e :
  (forall n a f, e <> EvSign n a f) -> signs_follow_rewrite [e].
Proof.
  intros He pre n a f post E. destruct pre as [|x pre]; simpl in E.
  - inversion E. destruct (He n a f); assumption.
  - inversion E. destruct pre; discriminate.
Qed.

Lemma signs_signed n a file more laddr home :
  signs_follow_rewrite
    (readdressing n file more laddr ++ [EvSign n a (path_join home file)]).
Proof.
  intros pre n' a' f post E. unfold readdressing in E. simpl in E.
  do 3 (destruct pre as [|x pre]; simpl in E; [discriminate|];
        injection E as <- E).
  destruct pre as [|x pre]; simpl in E.
  - inversion E; subst. exists [], file, more, laddr, home. auto.
  - injection E as _ E. destruct pre; discriminate.
Qed.

Section GentxScripts.
Context {Node : Type} {API : NodeAPI Node}.
Variable self : Testnet Node.

Abbreviation lead := (_lead_validator self).

Lemma gentx_logs_nil : gentx_logs self [].
Proof. split; [constructor | apply signs_nil]. Qed.

Lemma gentx_logs_app l1 l2 : gentx_logs self l1 -> gentx_logs self l2 -> gentx_logs self (l1 ++ l2).
Proof.
  intros [A1 B1] [A2 B2]. split; [apply Forall_app; auto | now apply signs_app].
Qed.

Lemma gentx_logs_atom e :
  gentx_event self e -> (forall n a f, e <> EvSign n a f) -> gentx_logs self [e].
Proof. intros H1 H2. split; [repeat constructor; assumption | now apply signs_atom]. Qed.

Lemma stage_gentxs_logs :
  sound_for (in_ceremony self) (gentx_logs self) stage_gentxs (fun _ => True).
Proof.
  apply stage_gentxs_sound.
  - apply gentx_logs_nil.
  - apply gentx_logs_app.
  - intros n a Ha. apply gentx_logs_atom; [exact Ha | discriminate].
  - intros n a Ha. apply gentx_logs_atom; [split; [reflexivity | exact Ha] | discriminate].
  - intros n files Hn. apply gentx_logs_atom; [exact Hn | discriminate].
  - intros n r Hn. apply gentx_logs_atom; [simpl; auto | discriminate].
  - intros n file laddr Hn. apply gentx_logs_atom; [simpl; auto | discriminate].
  - intros n a file more laddr home Hn Ha. split; [|apply signs_signed].
    unfold readdressing. repeat constructor; simpl; auto.
Qed.

Lemma readdress_gentx_ok id validator s tr s' :
  readdress_gentx id validator (mkConfigPort "P2P" "config/config.toml" "p2p.laddr") s
  = (tr, s', inr tt) ->
  exists file more laddr home,
    tr = readdressing id file more laddr ++ [EvSign id validator (path_join home file)].
Proof.
  unfold readdress_gentx, call_get, call_update_port, bind, node_read, node_call,
    lift, raise.
  cbn [config_file property_path].
  destruct (validator_nodes s) as [nodes|] eqn:Hn; [|discriminate].
  destruct (dict_get AccountId_eq_dec id nodes) as [node|] eqn:Hg; [|discriminate].
  destruct (node_glob_gentx node) as [|file more] eqn:Hglob; [discriminate|].
  rewrite Hn, Hg.
  destruct (node_get node "config/config.toml" "p2p.laddr") as [e|[laddr|z|b]] eqn:Hget;
    try discriminate.
  rewrite Hn, Hg.
  destruct (node_update node file _ "body.memo") as [e|node'] eqn:Hupd; [discriminate|].
  repeat (cbn [validator_nodes with_validator_nodes]; cbv beta iota;
          rewrite dict_get_set_same).
  cbv beta.
  destruct (node_sign node' validator (path_join (node_home_dir node') file))
    as [e|node''] eqn:Hsign; simpl; [discriminate|].
  intros H. inversion H; subst.
  exists file, more, laddr, (node_home_dir node'). reflexivity.
Qed.

Lemma stage_gentx_ok s0 id s tr s' :
  in_ceremony self s0 -> in_ceremony self s ->
  stage_gentx s0 id s = (tr, s', inr tt) -> gentx_segment self id tr.
Proof.
  intros (nodes0 & -> & _) Hs H. unfold stage_gentx in H.
  rewrite (@bind_pure _ _ _ _ _ _ _ (attr_validators_run Hs)) in H.
  unfold subscript at 1 in H.
  destruct (dict_get AccountId_eq_dec id (the_validators self)) as [a|] eqn:Ha;
    [|discriminate].
  rewrite (@bind_pure _ _ _ (ret a) _ s a eq_refl) in H.
  apply bind_ok in H. destruct H as (t1 & s1 & [] & t2 & H1 & H2 & ->).
  apply node_call_ok in H1. subst t1.
  unfold subscript at 1 in H2. simpl dict_get in H2.
  rewrite (@bind_pure _ _ _ (ret (mkConfigPort "P2P" "config/config.toml" "p2p.laddr"))
             _ s1 _ eq_refl) in H2.
  apply bind_ok in H2. destruct H2 as (t3 & s3 & [] & t4 & H3 & H4 & ->).
  apply node_call_ok in H3. subst t3.
  cbn [_lead_validator with_validator_nodes finalize_accounts with_accounts
       validator_balance denom] in H4.
  exists a, t4. split; [exact Ha|]. split; [reflexivity|].
  destruct (id_eqb id lead) eqn:E.
  - apply ret_ok in H4. tauto.
  - apply readdress_gentx_ok in H4. exact H4.
Qed.

Lemma stage_gentxs_ok s tr s' :
  in_ceremony self s -> stage_gentxs s = (tr, s', inr tt) -> gentx_script self tr.
Proof.
  intros Hs H. unfold stage_gentxs in H.
  rewrite bind_get_self in H.
  rewrite (@bind_pure _ _ _ _ _ _ _ (node_ids_run Hs)) in H.
  apply for_ok with (I := in_ceremony self) in H; [|intros x s1 Hx Hs1|exact Hs].
  - destruct H as (_ & trs & -> & HF). exists trs. split; [reflexivity|].
    eapply Forall2_impl; [|exact HF].
    intros id tr_x (s1 & s2 & Hs1 & Hrun).
    exact (@stage_gentx_ok s id s1 tr_x s2 Hs Hs1 Hrun).
  - apply (@ceremony_step _ _ self _ (stage_gentx s x) (fun _ => True)); [|exact Hs1].
    apply stage_gentx_sound; unfold any_log; auto.
Qed.
End GentxScripts.


(** ** The logs of [prepare] *)

Section Assembly.
Context {Node : Type} {API : NodeAPI Node}.
Variable self : Testnet Node.

Lemma bind_assoc_run (S A B C : Type) (m : M S A) (f : A -> M S B)
    (g : B -> M S C) s :
  bind (bind m f) g s = bind m (fun a => bind (f a) g) s.
Proof.
  unfold bind. destruct (m s) as [[tr1 s1] [e|a]]; [reflexivity|].
  destruct (f a s1) as [[tr2 s2] [e|b]]; [reflexivity|].
  destruct (g b s2) as [[tr3 s3] r]. now rewrite app_assoc.
Qed.

Lemma spec_assoc (S A B C : Type) (I : S -> Prop) (L : Log) (m : M S A)
    (f : A -> M S B) (g : B -> M S C) (R : C -> Prop) :
  spec_for I L (bind m (fun a => bind (f a) g)) R ->
  spec_for I L (bind (bind m f) g) R.
Proof. intros H s Hs. rewrite bind_assoc_run. exact (H s Hs). Qed.

Lemma Forall_closed (P : Event -> Prop) :
  Forall P [] /\ forall l1 l2, Forall P l1 -> Forall P l2 -> Forall P (l1 ++ l2).
Proof. split; [constructor | intros l1 l2 H1 H2; apply Forall_app; auto]. Qed.

Lemma init_nodes_spec :
  spec_for (in_ceremony self)
    (phase (Forall (init_event self)) (eq (init_script self)))
    init_nodes (fun _ => True).
Proof.
  apply spec_phase.
  - apply init_nodes_sound; try apply Forall_closed.
    intros n Hn. repeat constructor. exact Hn.
  - intros s tr s' a Hs H. destruct a. symmetry. eapply init_nodes_ok; eauto.
Qed.

Lemma apply_genesis_overrides_spec :
  spec_for (in_ceremony self)
    (phase (Forall (override_event self)) (eq (override_script self)))
    apply_genesis_overrides (fun _ => True).
Proof.
  apply spec_phase.
  - apply apply_genesis_overrides_sound; try apply Forall_closed.
    intros k v Hkv. repeat constructor; simpl; auto.
  - intros s tr s' a Hs H. destruct a. symmetry.
    eapply apply_genesis_overrides_ok; eauto.
Qed.

Lemma fund_validators_spec :
  spec_for (in_ceremony self)
    (phase (Forall (fund_event self (dict_values (the_validators self))))
       (eq (fund_script self (dict_values (the_validators self)))))
    fund_validators (fun _ => True).
Proof.
  apply spec_phase.
  - apply fund_validators_sound; try apply Forall_closed.
    intros a Ha. repeat constructor; simpl; auto.
  - intros s tr s' a Hs H. destruct a. symmetry. eapply fund_validators_ok; eauto.
Qed.

Lemma fund_accounts_spec :
  spec_for (in_ceremony self)
    (phase (Forall (fund_event self (dict_values (the_accounts self))))
       (eq (fund_script self (dict_values (the_accounts self)))))
    fund_accounts (fun _ => True).
Proof.
  apply spec_phase.
  - apply fund_accounts_sound; try apply Forall_closed.
    intros a Ha. repeat constructor; simpl; auto.
  - intros s tr s' a Hs H. destruct a. symmetry. eapply fund_accounts_ok; eauto.
Qed.

Lemma share_genesis_spec :
  spec_for (in_ceremony self)
    (phase (Forall (share_event self)) (eq (share_script self)))
    share_genesis (fun _ => True).
Proof.
  apply spec_phase.
  - apply share_genesis_sound; try apply Forall_closed.
    intros n Hn. repeat constructor; simpl; auto.
  - intros s tr s' a Hs H. destruct a. symmetry. eapply share_genesis_ok; eauto.
Qed.

Lemma print_tables_spec data :
  spec_for (in_ceremony self) (phase (Forall print_event) any_log)
    (print_tables data) (fun _ => True).
Proof.
  apply spec_phase.
  - apply print_tables_sound; try apply Forall_closed.
    intros h r. repeat constructor.
  - intros; exact I.
Qed.

Lemma stage_gentxs_spec :
  spec_for (in_ceremony self) (phase (gentx_logs self) (gentx_script self))
    stage_gentxs (fun _ => True).
Proof.
  apply spec_phase.
  - apply stage_gentxs_logs.
  - intros s tr s' a Hs H. destruct a. eapply stage_gentxs_ok; eauto.
Qed.

Lemma exchange_gentxs_spec :
  spec_for (in_ceremony self)
    (phase (Forall (exchange_event self)) (eq (exchange_script (node_keys self))))
    exchange_gentxs (fun _ => True).
Proof.
  apply spec_phase.
  - apply exchange_gentxs_sound; try apply Forall_closed.
    intros a b Ha Hb Hab. repeat constructor; simpl; auto.
  - intros s tr s' a Hs H. destruct a. symmetry. eapply exchange_gentxs_ok; eauto.
Qed.

Lemma collect_gentxs_spec :
  spec_for (in_ceremony self)
    (phase (Forall (collect_event self)) (eq (collect_script self)))
    collect_gentxs (fun _ => True).
Proof.
  apply spec_phase.
  - apply collect_gentxs_sound; try apply Forall_closed.
    intros n Hn. repeat constructor; simpl; auto.
  - intros s tr s' a Hs H. destruct a. symmetry. eapply collect_gentxs_ok; eauto.
Qed.

Lemma ceremony_spec :
  spec_for (in_ceremony self) (ceremony_log self)
    (stage_ceremony ;; exchange_gentxs ;; collect_gentxs) (fun _ => True).
Proof.
  unfold stage_ceremony, ceremony_log.
  apply spec_assoc. eapply spec_bind; [apply init_nodes_spec|]. intros _ _.
  apply spec_assoc. eapply spec_bind; [apply apply_genesis_overrides_spec|]. intros _ _.
  apply spec_assoc. eapply spec_bind; [apply fund_validators_spec|]. intros _ _.
  apply spec_assoc. eapply spec_bind; [apply fund_accounts_spec|]. intros _ _.
  apply spec_assoc. eapply spec_bind; [apply share_genesis_spec|]. intros _ _.
  apply spec_assoc. eapply spec_bind; [apply allocate_ports_spec|].
  intros rows (flat & Hflat & Hrows).
  apply spec_assoc. eapply spec_bind; [apply (configure_nodes_spec Hflat Hrows)|].
  intros data _.
  apply spec_assoc. eapply spec_bind; [apply print_tables_spec|]. intros _ _.
  eapply spec_bind; [apply stage_gentxs_spec|]. intros _ _.
  eapply spec_bind; [apply exchange_gentxs_spec|]. intros _ _.
  apply collect_gentxs_spec.
Qed.

Lemma new_nodes_keys :
  dict_keys (new_nodes (finalize_accounts self) (the_validators self)) = node_keys self.
Proof.
  unfold new_nodes. rewrite dict_comp_keys.
  unfold the_validators. rewrite dict_comp_keys.
  apply first_occurrences_id; [apply first_occurrences_nodup | auto].
Qed.

Lemma after_create_in_ceremony : in_ceremony self (after_create self).
Proof.
  exists (new_nodes (finalize_accounts self) (the_validators self)).
  split; [reflexivity | apply new_nodes_keys].
Qed.

Lemma create_nodes_run :
  create_nodes self
  = ([EvMkdir (data_dir self)],
     match path_mkdir (data_dir self) with
     | inr _ => after_create self
     | inl _ => finalize_accounts self
     end,
     match path_mkdir (data_dir self) with
     | inr _ => inr tt
     | inl e => inl e
     end).
Proof.
  unfold create_nodes, bind, get_self, put_self, emit, lift, attr. simpl.
  destruct (path_mkdir (data_dir self)) as [e|[]]; reflexivity.
Qed.

(** [prepare] once the data directory exists. *)
Lemma prepare_run :
  path_mkdir (data_dir self) = inr tt ->
  prepare self
  = (EvMkdir (data_dir self)
       :: trace_of ((stage_ceremony ;; exchange_gentxs ;; collect_gentxs)
                      (after_create self)),
     state_of ((stage_ceremony ;; exchange_gentxs ;; collect_gentxs) (after_create self)),
     value_of ((stage_ceremony ;; exchange_gentxs ;; collect_gentxs) (after_create self))).
Proof.
  intros Hmk. unfold prepare. unfold bind at 1. rewrite create_nodes_run, Hmk.
  destruct ((stage_ceremony ;; exchange_gentxs ;; collect_gentxs) (after_create self))
    as [[tr s] r].
  reflexivity.
Qed.

(** [prepare] when [mkdir] raises: nothing else is called, and
    [validator_nodes] is not assigned. *)
Lemma prepare_stopped e :
  path_mkdir (data_dir self) = inl e ->
  prepare self = ([EvMkdir (data_dir self)], finalize_accounts self, inl e).
Proof.
  intros Hmk. unfold prepare. unfold bind at 1. rewrite create_nodes_run, Hmk.
  reflexivity.
Qed.

Lemma prepare_made_dir :
  value_of (prepare self) = inr tt -> path_mkdir (data_dir self) = inr tt.
Proof.
  destruct (path_mkdir (data_dir self)) as [e|[]] eqn:Hmk; [|reflexivity].
  rewrite (prepare_stopped Hmk). discriminate.
Qed.

(** Every run of [prepare] writes a log of [prepare_log]; one that got
    past [mkdir] leaves node objects under the keys of [validators]. *)
Lemma prepare_spec :
  prepare_log self (is_ok (value_of (prepare self))) (trace_of (prepare self))
  /\ (path_mkdir (data_dir self) = inr tt ->
      in_ceremony self (state_of (prepare self))).
Proof.
  destruct (path_mkdir (data_dir self)) as [e|[]] eqn:Hmk.
  - rewrite (prepare_stopped Hmk). split; [|discriminate].
    exists [EvMkdir (data_dir self)], []. split; [reflexivity|].
    right. split; [reflexivity|]. split; [reflexivity|].
    split; [reflexivity | discriminate].
  - rewrite (prepare_run Hmk).
    unfold trace_of at 1, value_of at 1, state_of at 1. simpl.
    destruct (ceremony_spec after_create_in_ceremony) as (H1 & H2 & _).
    split; [|intros _; exact H2].
    exists [EvMkdir (data_dir self)], (trace_of ((stage_ceremony ;; exchange_gentxs ;; collect_gentxs) (after_create self))).
    split; [reflexivity|]. left. split; [|exact H1].
    split; [reflexivity | intros _; exact I].
Qed.

Lemma prepare_in_ceremony :
  path_mkdir (data_dir self) = inr tt ->
  in_ceremony self (state_of (prepare self)).
Proof. exact (proj2 prepare_spec). Qed.
End Assembly.


(** ** What the logs of [prepare] say *)

Lemma then_closed (T : list Event -> Prop) (L1 L2 : Log) :
  (forall l1 l2, T l1 -> T l2 -> T (l1 ++ l2)) ->
  (forall ok l, L1 ok l -> T l) -> (forall ok l, L2 ok l -> T l) ->
  forall ok tr, then_ L1 L2 ok tr -> T tr.
Proof.
  intros Happ F1 F2 ok tr (l1 & l2 & -> & [[H1 H2] | (-> & -> & H1)]).
  - apply Happ; eauto.
  - rewrite app_nil_r. eauto.
Qed.

Lemma phase_ok (T C : list Event -> Prop) l : phase T C true l -> T l /\ C l.
Proof. intros [H1 H2]. auto. Qed.

Section Extract.
Context {Node : Type} {API : NodeAPI Node}.
Variable self : Testnet Node.

Abbreviation lead := (_lead_validator self).

(** A property of logs that concatenation keeps holds of the log of
    [prepare] when it holds of the log of each loop. *)
Lemma prepare_log_closed (T : list Event -> Prop) :
  (forall l1 l2, T l1 -> T l2 -> T (l1 ++ l2)) ->
  T [EvMkdir (data_dir self)] ->
  (forall l, Forall (init_event self) l -> T l) ->
  (forall l, Forall (override_event self) l -> T l) ->
  (forall l, Forall (fund_event self (dict_values (the_validators self))) l -> T l) ->
  (forall l, Forall (fund_event self (dict_values (the_accounts self))) l -> T l) ->
  (forall l, Forall (share_event self) l -> T l) ->
  T (alloc_script self) ->
  (forall l, Forall (config_event self) l -> T l) ->
  (forall l, Forall print_event l -> T l) ->
  (forall l, gentx_logs self l -> T l) ->
  (forall l, Forall (exchange_event self) l -> T l) ->
  (forall l, Forall (collect_event self) l -> T l) ->
  forall ok tr, prepare_log self ok tr -> T tr.
Proof.
  intros Happ H0 H1 H2 H3 H4 H5 H6 H7 H8 H9 H10 H11.
  unfold prepare_log, ceremony_log.
  repeat (apply then_closed;
          [ exact Happ
          | intros ok l [HT _]; try (rewrite <- HT); auto
          | ]).
  intros ok l [HT _]. auto.
Qed.

(** Every call in the log of [prepare] satisfies [P] when the calls of
    each loop do. *)
Lemma prepare_log_all (P : Event -> Prop) :
  P (EvMkdir (data_dir self)) ->
  (forall e, init_event self e -> P e) ->
  (forall e, override_event self e -> P e) ->
  (forall e, fund_event self (dict_values (the_validators self)) e -> P e) ->
  (forall e, fund_event self (dict_values (the_accounts self)) e -> P e) ->
  (forall e, share_event self e -> P e) ->
  Forall P (alloc_script self) ->
  (forall e, config_event self e -> P e) ->
  (forall e, print_event e -> P e) ->
  (forall e, gentx_event self e -> P e) ->
  (forall e, exchange_event self e -> P e) ->
  (forall e, collect_event self e -> P e) ->
  forall ok tr, prepare_log self ok tr -> Forall P tr.
Proof.
  intros H0 H1 H2 H3 H4 H5 H6 H7 H8 H9 H10 H11.
  apply prepare_log_closed; auto;
    try (intros l Hl; eapply Forall_impl; [|exact Hl]; assumption).
  - intros l1 l2 A B. apply Forall_app; auto.
  - intros l [Hl _]. eapply Forall_impl; [|exact Hl]; assumption.
Qed.

(** The log of a [prepare] that returned. *)
Lemma prepare_log_ok tr :
  prepare_log self true tr ->
  exists t_conf t_print t_gentx,
    tr = [EvMkdir (data_dir self)] ++ init_script self ++ override_script self
         ++ fund_script self (dict_values (the_validators self))
         ++ fund_script self (dict_values (the_accounts self))
         ++ share_script self ++ alloc_script self
         ++ t_conf ++ t_print ++ t_gentx
         ++ exchange_script (node_keys self) ++ collect_script self
    /\ Forall (config_event self) t_conf /\ config_script self t_conf
    /\ Forall print_event t_print
    /\ gentx_logs self t_gentx /\ gentx_script self t_gentx.
Proof.
  unfold prepare_log, ceremony_log. intros H.
  repeat (apply then_ok in H;
          let l := fresh "l" in let r := fresh "r" in
          let Hl := fresh "Hl" in
          destruct H as (l & r & -> & Hl & H)).
  apply phase_ok in Hl, Hl0, Hl1, Hl2, Hl3, Hl4, Hl5, Hl6, Hl7, Hl8, Hl9, H.
  destruct Hl as [<- _]. destruct Hl0 as [_ <-]. destruct Hl1 as [_ <-].
  destruct Hl2 as [_ <-]. destruct Hl3 as [_ <-]. destruct Hl4 as [_ <-].
  destruct Hl5 as [<- _]. destruct Hl6 as [A6 B6]. destruct Hl7 as [A7 _].
  destruct Hl8 as [A8 B8]. destruct Hl9 as [_ <-]. destruct H as [_ <-].
  exists l6, l7, l8. split; [reflexivity|]. repeat (split; [assumption|]). assumption.
Qed.
End Extract.


(** * The claims about the calls of [prepare] *)

Lemma Forall2_in_left (A B : Type) (R : A -> B -> Prop) xs ys x :
  Forall2 R xs ys -> In x xs -> exists y, In y ys /\ R x y.
Proof.
  induction 1 as [|a b xs ys Hab _ IH]; simpl; [tauto|].
  intros [->|Hin]; [eauto|]. destruct (IH Hin) as (y & Hy & HR). eauto.
Qed.

Lemma in_concat_of (A : Type) (x : A) l ls : In l ls -> In x l -> In x (List.concat ls).
Proof. intros H1 H2. apply in_concat. eauto. Qed.

Section TraceClaims.
Context {Node : Type} {API : NodeAPI Node}.
Variable self : Testnet Node.

Abbreviation lead := (_lead_validator self).
Abbreviation tr := (trace_of (prepare self)).

Lemma followers_in n :
  In n (followers self) <-> In n (node_keys self) /\ n <> lead.
Proof.
  unfold followers. rewrite filter_In.
  destruct (id_eqb n lead) eqn:E; simpl.
  - apply id_eqb_true in E. split; [intros [_ H]; discriminate | tauto].
  - apply id_eqb_false in E. tauto.
Qed.

Lemma node_keys_in n : In n (node_keys self) <-> In n (_validator_ids self).
Proof. apply first_occurrences_in. Qed.

Lemma node_keys_head : lead_first self -> nth_error (node_keys self) 0 = Some lead.
Proof. intros H. unfold node_keys. now rewrite first_occurrences_head. Qed.

Lemma lead_in_keys : lead_first self -> In lead (node_keys self).
Proof. intros H. eapply nth_error_In. apply node_keys_head, H. Qed.

Lemma is_validator_in n a : is_validator self n a -> In n (node_keys self).
Proof.
  unfold is_validator, the_validators, node_keys. intros H.
  apply dict_get_some_in in H. now rewrite dict_comp_keys in H.
Qed.

Lemma is_validator_value n a :
  is_validator self n a -> In a (dict_values (the_validators self)).
Proof. apply dict_get_in_values. Qed.

Lemma prepare_ok_log :
  value_of (prepare self) = inr tt -> prepare_log self true tr.
Proof.
  intros H. destruct (prepare_spec self) as [HL _]. rewrite H in HL. exact HL.
Qed.

Lemma prepare_events (P : Event -> Prop) :
  P (EvMkdir (data_dir self)) ->
  (forall e, init_event self e -> P e) ->
  (forall e, override_event self e -> P e) ->
  (forall e, fund_event self (dict_values (the_validators self)) e -> P e) ->
  (forall e, fund_event self (dict_values (the_accounts self)) e -> P e) ->
  (forall e, share_event self e -> P e) ->
  Forall P (alloc_script self) ->
  (forall e, config_event self e -> P e) ->
  (forall e, print_event e -> P e) ->
  (forall e, gentx_event self e -> P e) ->
  (forall e, exchange_event self e -> P e) ->
  (forall e, collect_event self e -> P e) ->
  Forall P tr.
Proof.
  intros. destruct (prepare_spec self) as [HL _].
  eapply prepare_log_all; eauto.
Qed.

Lemma genesis_from_lead_all : Forall (genesis_from_lead self) tr.
Proof.
  apply prepare_events; try exact I;
    try (intros [] H; simpl in *; try exact I; try contradiction).
  - tauto.
  - tauto.
  - tauto.
  - destruct H as [-> Hn]. apply followers_in in Hn. tauto.
  - repeat constructor.
  - destruct H as (_ & cf & kvs & -> & _). intros E.
    destruct (@config_toml_not_genesis cf E).
Qed.

Lemma share_script_in n :
  In n (_validator_ids self) -> n <> lead ->
  In (EvCopyGenesisFrom n lead) (share_script self).
Proof.
  intros Hn Hne. unfold share_script.
  apply in_map with (f := fun n => EvCopyGenesisFrom n lead).
  apply followers_in. split; [now apply node_keys_in | assumption].
Qed.
End TraceClaims.


Lemma signs_of_unsigned l :
  Forall (fun e => forall n a f, e <> EvSign n a f) l -> signs_follow_rewrite l.
Proof.
  induction 1 as [|e l He _ IH]; [apply signs_nil|].
  change (e :: l) with ([e] ++ l). apply signs_app; [now apply signs_atom | exact IH].
Qed.

Lemma in_concat_split (A : Type) (l : list A) ls :
  In l ls -> exists p q, List.concat ls = p ++ l ++ q.
Proof.
  induction ls as [|x r IH]; simpl; [tauto|]. intros [->|Hin].
  - exists [], (List.concat r). reflexivity.
  - destruct (IH Hin) as (p & q & ->). exists (x ++ p), q. now rewrite app_assoc.
Qed.

Section GenesisClaims.
Context {Node : Type} {API : NodeAPI Node}.
Context {Chain : Type} {CAPI : ChainAPI Chain}.

(** C2: the lead validator is the first identifier ([set_validators] makes
    element 0 the lead, and the lead's node is the first node created,
    once [mkdir] has returned);
    in every run of [prepare] a genesis override and a funding call target
    the lead only and a genesis copy is a copy of the lead's genesis into
    another node; in a run that returns every other node has copied the
    lead's genesis; and [broadcast_transaction] and [get_grpc_channel]
    address the lead when no node is given. *)
Theorem lead_is_single_source_of_genesis (self : Testnet Node)
    (Hlead : lead_first self) :
  (forall (t t' : Testnet Node) vs,
      set_validators t vs = inr t' ->
      _validator_ids t' = ids_of vs /\ lead_first t')
  /\ (path_mkdir (data_dir self) = inr tt ->
      exists nodes,
        validator_nodes (state_of (prepare self)) = Some nodes
        /\ nth_error (dict_keys nodes) 0 = Some (_lead_validator self))
  /\ Forall (genesis_from_lead self) (trace_of (prepare self))
  /\ (value_of (prepare self) = inr tt ->
      forall n, In n (_validator_ids self) -> n <> _lead_validator self ->
                In (EvCopyGenesisFrom n (_lead_validator self))
                  (trace_of (prepare self)))
  /\ (forall account_id msgs gas fee_amount (chain : Chain),
        broadcast_transaction self account_id msgs gas fee_amount None chain
        = broadcast_transaction self account_id msgs gas fee_amount
            (Some (_lead_validator self)) chain)
  /\ get_grpc_channel self None = get_grpc_channel self (Some (_lead_validator self)).
Proof.
  split; [|split; [|split; [|split; [|split]]]].
  - intros t t' vs H. unfold set_validators in H.
    destruct (nth_error (ids_of vs) 0) as [l|] eqn:E; [|discriminate].
    inversion H; subst. unfold lead_first. simpl. auto.
  - intros Hmk. destruct (prepare_in_ceremony self Hmk) as (nodes & Hs & Hk).
    exists nodes. rewrite Hs. split; [reflexivity|].
    rewrite Hk. now apply node_keys_head.
  - apply genesis_from_lead_all.
  - intros Hok n Hn Hne.
    destruct (prepare_log_ok (prepare_ok_log self Hok))
      as (t_conf & t_print & t_gentx & -> & _).
    rewrite !in_app_iff. do 5 right. left. now apply share_script_in.
  - reflexivity.
  - reflexivity.
Qed.

(** C10: in every run of [prepare] a funding call is on the lead with
    [account_balance], for validators as for accounts, and a self-stake
    passed to [add_validator] is [validator_balance]; in a run that
    returns every validator identity and every account was funded so, and
    every node staked [validator_balance] for its validator. *)
Theorem validators_funded_with_account_balance (self : Testnet Node) :
  Forall (balance_use self) (trace_of (prepare self))
  /\ (value_of (prepare self) = inr tt ->
      (forall v, In v (dict_values (the_validators self)) ->
                 In (EvAddAccount (_lead_validator self)
                       (mkCoin (account_balance self) (denom self)) v)
                   (trace_of (prepare self)))
      /\ (forall a, In a (dict_values (the_accounts self)) ->
                    In (EvAddAccount (_lead_validator self)
                          (mkCoin (account_balance self) (denom self)) a)
                      (trace_of (prepare self)))
      /\ (forall n v, is_validator self n v ->
                      In (EvAddValidator n
                            (mkCoin (validator_balance self) (denom self)) v)
                        (trace_of (prepare self)))).
Proof.
  split.
  - apply prepare_events; try exact I;
      try (intros [] H; simpl in *; try exact I; try contradiction; tauto).
    repeat constructor.
  - intros Hok.
    destruct (prepare_log_ok (prepare_ok_log self Hok))
      as (t_conf & t_print & t_gentx & -> & _ & _ & _ & _ & (segs & -> & HF)).
    split; [|split].
    + intros v Hv. rewrite !in_app_iff. do 3 right. left.
      unfold fund_script. now apply in_map.
    + intros a Ha. rewrite !in_app_iff. do 4 right. left.
      unfold fund_script. now apply in_map.
    + intros n v Hv. rewrite !in_app_iff. do 9 right. left.
      destruct (Forall2_in_left n HF (is_validator_in Hv))
        as (seg & Hseg & (a & rest & Ha & -> & _)).
      assert (a = v) by (unfold is_validator in *; congruence). subst a.
      eapply in_concat_of; [exact Hseg|]. simpl. auto.
Qed.

Lemma signs_follow_rewrite_all (self : Testnet Node) :
  signs_follow_rewrite (trace_of (prepare self)).
Proof.
  destruct (prepare_spec self) as [HL _]. revert HL.
  apply prepare_log_closed; try apply signs_app;
    try (intros l Hl; apply signs_of_unsigned; eapply Forall_impl; [|exact Hl];
         intros e He n a f ->; exact He).
  - apply signs_atom. discriminate.
  - apply signs_atom. discriminate.
  - intros l [_ Hl]. exact Hl.
Qed.

(** C5: in every run of [prepare] locating a gentx file, rewriting a
    document through [update] and signing are calls on nodes other than
    the lead, a signature is by the signing node's own validator, and it
    comes right after the memo of the same file was set to the port of
    that node's own [p2p.laddr]; in a run that returns every node other
    than the lead has located its gentx, rewritten the memo so and then
    signed the file. *)
Theorem followers_rewrite_memo_then_resign (self : Testnet Node) :
  Forall (followers_only self) (trace_of (prepare self))
  /\ signs_follow_rewrite (trace_of (prepare self))
  /\ (value_of (prepare self) = inr tt ->
      forall n, In n (_validator_ids self) -> n <> _lead_validator self ->
        exists a file more laddr home pre post,
          is_validator self n a
          /\ trace_of (prepare self)
             = pre ++ readdressing n file more laddr
                   ++ EvSign n a (path_join home file) :: post).
Proof.
  split; [|split].
  - apply prepare_events; try exact I;
      try (intros [] H; simpl in *; try exact I; try contradiction;
           repeat match goal with
                  | p : Value |- _ => destruct p; try contradiction
                  | H : _ /\ _ |- _ => destruct H
                  | H : In _ (followers _) |- _ => apply followers_in in H
                  end; tauto).
    repeat constructor.
  - apply signs_follow_rewrite_all.
  - intros Hok n Hn Hne.
    destruct (prepare_log_ok (prepare_ok_log self Hok))
      as (t_conf & t_print & t_gentx & -> & _ & _ & _ & _ & (segs & -> & HF)).
    apply (node_keys_in self) in Hn.
    destruct (Forall2_in_left n HF Hn) as (seg & Hseg & (a & rest & Ha & -> & Hrest)).
    apply id_eqb_false in Hne. rewrite Hne in Hrest.
    destruct Hrest as (file & more & laddr & home & ->).
    destruct (in_concat_split _ _ Hseg) as (p & q & ->).
    exists a, file, more, laddr, home,
      ([EvMkdir (data_dir self)] ++ init_script self ++ override_script self
       ++ fund_script self (dict_values (the_validators self))
       ++ fund_script self (dict_values (the_accounts self))
       ++ share_script self ++ alloc_script self ++ t_conf ++ t_print ++ p
       ++ [EvAddKey n a; EvAddValidator n (self_stake self) a]),
      (q ++ exchange_script (node_keys self) ++ collect_script self).
    split; [exact Ha|]. unfold readdressing.
    rewrite <- !app_assoc. cbn [app]. reflexivity.
Qed.
End GenesisClaims.


(** ** The exchange before the collection *)

Lemma split_after_prefix (A : Type) (P : A -> Prop) (l1 l2 pre post : list A) (x : A) :
  Forall P l1 -> ~ P x -> l1 ++ l2 = pre ++ x :: post ->
  exists p2, pre = l1 ++ p2 /\ l2 = p2 ++ x :: post.
Proof.
  intros H1 Hx E. apply app_eq_app in E. destruct E as [l [[E1 E2] | [E1 E2]]].
  - destruct l as [|y l].
    + rewrite app_nil_r in E1. subst. exists []. rewrite app_nil_r. auto.
    + simpl in E2. inversion E2; subst.
      apply Forall_app in H1. destruct H1 as [_ H1]. inversion H1; subst. contradiction.
  - exists l. auto.
Qed.

Lemma exchange_script_in ids a b :
  In (EvCopyGentxFrom a b) (exchange_script ids) <-> In a ids /\ In b ids /\ a <> b.
Proof.
  unfold exchange_script. rewrite in_flat_map. split.
  - intros (x & Hx & H). apply in_flat_map in H. destruct H as (y & Hy & H).
    destruct (id_eqb x y) eqn:E; simpl in H; [contradiction|].
    destruct H as [H|[]]. inversion H; subst. apply id_eqb_false in E. auto.
  - intros (Ha & Hb & Hne). exists a. split; [assumption|].
    apply in_flat_map. exists b. split; [assumption|].
    apply id_eqb_false in Hne. rewrite Hne. simpl. auto.
Qed.

Section ExchangeClaims.
Context {Node : Type} {API : NodeAPI Node}.
Variable self : Testnet Node.

Lemma collection_step (L1 L2 : Log) :
  (forall ok l, L1 ok l -> Forall (fun e => is_collect e = false) l) ->
  (forall ok l, L2 ok l -> ends_with_collection self l) ->
  forall ok l, then_ L1 L2 ok l -> ends_with_collection self l.
Proof.
  intros H1 H2 ok l (l1 & l2 & -> & [[A B] | (-> & -> & A)]).
  - destruct (H2 _ _ B) as (before & t_ex & t_col & -> & Hb & Hc & Hx).
    exists (l1 ++ before), t_ex, t_col. rewrite <- !app_assoc.
    repeat split; auto. apply Forall_app. split; [eauto | exact Hb].
  - exists l1, [], []. rewrite !app_nil_r. repeat split; eauto.
    intros H. congruence.
Qed.

Lemma collection_base ok l :
  then_ (phase (Forall (exchange_event self)) (eq (exchange_script (node_keys self))))
        (phase (Forall (collect_event self)) (eq (collect_script self))) ok l ->
  ends_with_collection self l.
Proof.
  assert (Hex : forall l, Forall (exchange_event self) l ->
                          Forall (fun e => is_collect e = false) l).
  { intros l0 H. eapply Forall_impl; [|exact H].
    intros [] He; simpl in *; try contradiction; reflexivity. }
  assert (Hcol : forall l, Forall (collect_event self) l ->
                           Forall (fun e => is_collect e = true) l).
  { intros l0 H. eapply Forall_impl; [|exact H].
    intros [] He; simpl in *; try contradiction; reflexivity. }
  intros (l1 & l2 & -> & [[A B] | (-> & -> & A)]).
  - apply phase_ok in A. destruct A as [A1 <-]. destruct B as [B1 _].
    exists [], (exchange_script (node_keys self)), l2. simpl. repeat split; auto.
  - destruct A as [A1 _]. exists [], l1, []. simpl.
    rewrite !app_nil_r. repeat split; auto. congruence.
Qed.

Lemma prepare_ends_with_collection :
  ends_with_collection self (trace_of (prepare self)).
Proof.
  destruct (prepare_spec self) as [HL _]. revert HL.
  generalize (is_ok (value_of (prepare self))) (trace_of (prepare self)).
  unfold prepare_log, ceremony_log.
  do 10 (apply collection_step;
          [ intros ok l [HT _];
            try (rewrite <- HT; repeat constructor);
            try (destruct HT as [HT _]);
            try (eapply Forall_impl; [|exact HT];
                 intros [] He; simpl in *; try contradiction; reflexivity)
          | ]).
  apply collection_base.
Qed.

(** C4: in every run of [prepare], before any call of [collect_gentx] the
    exchange has imported, for every ordered pair of distinct nodes
    [(a, b)], the gentx of [b] into [a], and no import follows a
    collection; an import is never of a node's gentx into itself; in a run
    that returns every pair was exchanged and every node has collected. *)
Theorem collect_after_all_pairs_exchange :
  (forall pre n post,
      trace_of (prepare self) = pre ++ EvCollectGentx n :: post ->
      (forall a b, In a (_validator_ids self) -> In b (_validator_ids self) ->
                   a <> b -> In (EvCopyGentxFrom a b) pre)
      /\ (forall a b, ~ In (EvCopyGentxFrom a b) post))
  /\ Forall pair_exchange (trace_of (prepare self))
  /\ (value_of (prepare self) = inr tt ->
      (forall a b, In a (_validator_ids self) -> In b (_validator_ids self) ->
                   a <> b -> In (EvCopyGentxFrom a b) (trace_of (prepare self)))
      /\ (forall n, In n (_validator_ids self) ->
                    In (EvCollectGentx n) (trace_of (prepare self)))).
Proof.
  split; [|split].
  - intros pre n post H.
    destruct prepare_ends_with_collection
      as (before & t_ex & t_col & E & Hb & Hc & Hx).
    rewrite E, app_assoc in H.
    apply split_after_prefix with (P := fun e => is_collect e = false) in H;
      [|exact Hb|simpl; discriminate].
    destruct H as (p2 & -> & Ecol). split.
    + intros a b Ha Hb' Hab. rewrite Hx by (rewrite Ecol; destruct p2; discriminate).
      rewrite !in_app_iff. left. right.
      apply exchange_script_in. rewrite !node_keys_in. auto.
    + intros a b Hin.
      assert (Hin' : In (EvCopyGentxFrom a b) t_col).
      { rewrite Ecol. apply in_or_app. right. right. exact Hin. }
      rewrite Forall_forall in Hc. specialize (Hc _ Hin'). discriminate.
  - apply prepare_events; try exact I;
      try (intros [] H; simpl in *; try exact I; try contradiction; tauto).
    repeat constructor.
  - intros Hok.
    destruct (prepare_log_ok (prepare_ok_log self Hok))
      as (t_conf & t_print & t_gentx & -> & _).
    split.
    + intros a b Ha Hb Hab. rewrite !in_app_iff. do 10 right. left.
      apply exchange_script_in. rewrite !node_keys_in. auto.
    + intros n Hn. rewrite !in_app_iff. do 11 right.
      unfold collect_script. apply in_map. now apply node_keys_in.
Qed.
End ExchangeClaims.


(** ** Rows of ports *)

Arguments block_assignment n row : simpl never.

Lemma rows_of_concat (A : Type) (n w : nat) (l : list A) :
  List.concat (rows_of n w l) = firstn (n * w) l.
Proof.
  revert l. induction n as [|n IH]; intros l; simpl; [reflexivity|].
  rewrite IH. rewrite <- (firstn_skipn w l) at 3.
  rewrite firstn_app, firstn_firstn.
  replace (Nat.min (w + n * w) w) with w by lia.
  f_equal.
  destruct (Nat.le_gt_cases w (List.length l)) as [Hle|Hgt].
  - rewrite length_firstn. replace (Nat.min w (List.length l)) with w by lia.
    now replace (w + n * w - w)%nat with (n * w)%nat by lia.
  - rewrite (skipn_all2 l) by lia. now rewrite !firstn_nil.
Qed.

Lemma rows_of_length (A : Type) (n w : nat) (l : list A) :
  List.length (rows_of n w l) = n.
Proof. revert l. induction n; intros l; simpl; auto. Qed.

Lemma rows_of_width (A : Type) (n w : nat) (l : list A) :
  (n * w <= List.length l)%nat ->
  Forall (fun row => List.length row = w) (rows_of n w l).
Proof.
  revert l. induction n as [|n IH]; intros l H; simpl; constructor.
  - rewrite length_firstn. lia.
  - apply IH. rewrite length_skipn. lia.
Qed.

Lemma reshape_ok (A : Type) (w : nat) (l : list A) rows :
  reshape w l = inr rows ->
  List.concat rows = l
  /\ Forall (fun row => List.length row = w) rows
  /\ (List.length rows * w = List.length l)%nat.
Proof.
  unfold reshape. destruct (0 <? w)%nat eqn:E1; [|discriminate].
  destruct (List.length l mod w =? 0)%nat eqn:E2; [|discriminate].
  simpl. intros H. inversion H; subst. clear H.
  apply Nat.ltb_lt in E1. apply Nat.eqb_eq in E2.
  assert (Hq : (List.length l / w * w = List.length l)%nat).
  { pose proof (Nat.div_mod_eq (List.length l) w). lia. }
  split; [|split].
  - rewrite rows_of_concat, Hq. apply firstn_all.
  - apply rows_of_width. lia.
  - now rewrite rows_of_length.
Qed.

Lemma enumerate_from_in (A : Type) (i k : nat) (x : A) l :
  In (k, x) (enumerate_from i l) -> (i <= k < i + List.length l)%nat /\ In x l.
Proof.
  revert i. induction l as [|y r IH]; intros i; simpl; [tauto|].
  intros [E|Hin].
  - inversion E; subst. split; [lia | auto].
  - destruct (IH _ Hin). split; [lia | auto].
Qed.


Lemma enumerate_from_map (A B : Type) (g : nat -> B) (i : nat) (l : list A) :
  map (fun kn => g (fst kn)) (enumerate_from i l) = map g (seq i (List.length l)).
Proof. revert i. induction l as [|x r IH]; intros i; simpl; [reflexivity|]. now rewrite IH. Qed.

Lemma flat_map_ext_on (A B : Type) (f g : A -> list B) l :
  (forall x, In x l -> f x = g x) -> flat_map f l = flat_map g l.
Proof.
  induction l as [|x r IH]; intros H; simpl; [reflexivity|].
  rewrite H by (simpl; auto). f_equal. apply IH. intros y Hy. apply H. simpl; auto.
Qed.



(** The rows go to the followers from the last row backwards. *)
Lemma assignment_script_nth lead ids :
  forall rows i,
    (List.length (filter (fun n => negb (id_eqb n lead)) ids) <= List.length rows)%nat ->
    assignment_script lead ids rows
    = flat_map (fun kn =>
                  block_assignment (snd kn)
                    (nth (List.length rows + i - 1 - fst kn) rows []))
        (enumerate_from i (filter (fun n => negb (id_eqb n lead)) ids)).
Proof.
  induction ids as [|n r IH]; intros rows i Hlen; [reflexivity|].
  cbn [assignment_script filter]. cbn [filter] in Hlen.
  destruct (id_eqb n lead) eqn:E; cbn [negb] in *.
  - apply IH, Hlen.
  - cbn [enumerate_from flat_map fst snd]. cbn [List.length] in Hlen.
    destruct (list_pop rows) as [[rest row]|] eqn:Ep.
    + apply list_pop_some in Ep. subst rows. rewrite length_app in *.
      cbn [List.length] in *.
      replace (List.length rest + 1 + i - 1 - i)%nat with (List.length rest) by lia.
      rewrite nth_middle.
      apply (f_equal (app (block_assignment n row))).
      rewrite (IH rest (S i)) by lia. apply flat_map_ext_on.
      intros [k x] Hin. apply enumerate_from_in in Hin. destruct Hin as [Hk _].
      cbn [fst snd]. apply f_equal.
      replace (List.length rest + 1 + i - 1 - k)%nat
        with (List.length rest + S i - 1 - k)%nat by lia.
      rewrite app_nth1 by lia. reflexivity.
    + apply list_pop_none in Ep. subst rows. cbn [List.length] in Hlen. lia.
Qed.

Lemma rev_by_index (A : Type) (d : A) (l : list A) :
  map (fun k => nth (List.length l - 1 - k) l d) (seq 0 (List.length l)) = rev l.
Proof.
  apply nth_ext with (d := d) (d' := d).
  - now rewrite length_map, length_seq, length_rev.
  - intros k Hk. rewrite length_map, length_seq in Hk.
    rewrite (nth_indep _ d (nth (List.length l - 1 - 0) l d))
      by (now rewrite length_map, length_seq).
    rewrite (map_nth (fun k => nth (List.length l - 1 - k) l d)).
    rewrite seq_nth by assumption. rewrite rev_nth by assumption. simpl.
    f_equal. lia.
Qed.

Lemma filter_none (A : Type) (P : A -> Prop) (f : A -> bool) l :
  Forall P l -> (forall x, P x -> f x = false) -> filter f l = [].
Proof.
  intros H Hf. apply filter_all_false. eapply Forall_impl; [|exact H]. exact Hf.
Qed.

Lemma filter_map_none (A B : Type) (f : B -> bool) (g : A -> B) l :
  (forall x, f (g x) = false) -> filter f (map g l) = [].
Proof. intros H. induction l; simpl; [reflexivity|]. now rewrite H. Qed.

Lemma exchange_script_quiet (f : Event -> bool) ids :
  (forall a b, f (EvCopyGentxFrom a b) = false) -> filter f (exchange_script ids) = [].
Proof.
  intros H. apply filter_all_false. apply Forall_forall. intros e He.
  unfold exchange_script in He. apply in_flat_map in He. destruct He as (a & _ & He).
  apply in_flat_map in He. destruct He as (b & _ & He).
  destruct (id_eqb a b); simpl in He; [contradiction|].
  destruct He as [<-|[]]. apply H.
Qed.


(** ** One rewrite per role *)

















(** ** Ports *)

Section PortClaims.
Context {Node : Type} {API : NodeAPI Node}.
Variable self : Testnet Node.

Abbreviation lead := (_lead_validator self).


Lemma port_use_all : Forall (port_use self) (trace_of (prepare self)).
Proof.
  apply prepare_events; try exact I;
    try (intros [] H; simpl in *; try exact I; try contradiction;
         repeat match goal with
                | p : Value |- _ => destruct p; try contradiction
                | H : _ /\ _ |- _ => destruct H
                | H : In _ (followers _) |- _ => apply followers_in in H
                end; tauto).
  repeat constructor.
Qed.

(** The port assignments in the log of a [prepare] that returned are those
    of the configuration loop. *)
Lemma assignments_of_prepare (f : Event -> bool) t_conf t_print t_gentx :
  (forall e, print_event e -> f e = false) ->
  (forall e, gentx_event self e -> f e = false) ->
  (forall a b c d, f (EvSet a b c d) = false) ->
  (forall a b c, f (EvAddAccount a b c) = false) ->
  (forall a, f (EvInit a) = false) ->
  (forall a, f (EvMkdir a) = false) ->
  (forall a b, f (EvCopyGenesisFrom a b) = false) ->
  (forall a b, f (EvCopyGentxFrom a b) = false) ->
  (forall a, f (EvCollectGentx a) = false) ->
  Forall print_event t_print -> gentx_logs self t_gentx ->
  filter f
    ([EvMkdir (data_dir self)] ++ init_script self ++ override_script self
     ++ fund_script self (dict_values (the_validators self))
     ++ fund_script self (dict_values (the_accounts self))
     ++ share_script self ++ alloc_script self
     ++ t_conf ++ t_print ++ t_gentx
     ++ exchange_script (node_keys self) ++ collect_script self)
  = filter f (alloc_script self) ++ filter f t_conf.
Proof.
  intros Hp Hg Hset Hadd Hinit Hmk Hcg Hcx Hcol Fp [Fg _].
  rewrite !filter_app.
  unfold init_script, override_script, fund_script, share_script, collect_script.
  rewrite !filter_map_none by auto.
  rewrite exchange_script_quiet by auto.
  rewrite (filter_none f Fp Hp), (filter_none f Fg Hg).
  simpl. rewrite Hmk. simpl. now rewrite !app_nil_r.
Qed.




(** C3: in a run of [prepare] that returns, the allocated list is cut in
    rows of one port per role, in the declared order of the port table;
    the nodes other than the lead, in creation order, each take one row,
    from the last row backwards, and role [j] of the node is rewritten to
    column [j] of its row; with as many ports as asked for, the rows taken
    are all the rows.  No listening address of the lead is rewritten, in
    any run. *)
Theorem ports_assigned_by_node_and_role
    (Hok : value_of (prepare self) = inr tt) :
  exists flat rows,
    get_free_ports (port_request self) = inr flat
    /\ reshape (List.length ports) flat = inr rows
    /\ List.concat rows = flat
    /\ Forall (fun row => List.length row = List.length ports) rows
    /\ (List.length (followers self) <= List.length rows)%nat
    /\ filter is_port_assignment (trace_of (prepare self))
       = flat_map (fun kn =>
                     block_assignment (snd kn)
                       (nth (List.length rows - 1 - fst kn) rows []))
           (enumerate (followers self))
    /\ (List.length flat
        = (List.length ports * List.length (followers self))%nat ->
        List.concat
          (rev (map (fun kn => nth (List.length rows - 1 - fst kn) rows [])
                  (enumerate (followers self))))
        = flat)
    /\ Forall (port_use self) (trace_of (prepare self)).
Proof.
  destruct (prepare_log_ok (prepare_ok_log self Hok))
    as (t_conf & t_print & t_gentx & E & Fc & Cc & Fp & Fg & _).
  destruct Cc as (flat & rows & Hflat & Hrows & Hassign & Hsets & Hlen).
  destruct (reshape_ok _ _ Hrows) as (Hcat & Hwidth & Hsize).
  exists flat, rows. repeat (split; [assumption|]).
  split; [|split; [|apply port_use_all]].
  - rewrite E. rewrite assignments_of_prepare; auto;
      try (intros [] H; simpl in *; try contradiction;
           try (destruct port; try contradiction); reflexivity).
    simpl. rewrite Hassign.
    rewrite (assignment_script_nth lead (node_keys self) rows 0) by exact Hlen.
    fold (followers self). unfold enumerate.
    apply flat_map_ext_on. intros [k x] _. simpl. do 2 f_equal. lia.
  - intros Hall.
    assert (Hrows_len : List.length rows = List.length (followers self)).
    { change (List.length ports) with 8%nat in *. nia. }
    unfold enumerate.
    rewrite (enumerate_from_map
               (fun k => nth (List.length rows - 1 - k) rows []) 0 (followers self)).
    rewrite <- Hrows_len, rev_by_index, rev_involutive. exact Hcat.
Qed.
End PortClaims.


(** * [broadcast_transaction] *)

Section BroadcastClaims.
Context {Node : Type} {API : NodeAPI Node}.
Context {Chain : Type} {CAPI : ChainAPI Chain}.

(** C7: when the sender account exists and has no mnemonic,
    [broadcast_transaction] raises [ValueError] (the specification's
    [ConfigurationError]); the run has an empty log, so no channel was
    opened, no account was queried and nothing was submitted, and the
    chain is as it was. *)
Theorem broadcast_without_mnemonic_fails_first (self : Testnet Node)
    (account_id : AccountId) (msgs : MsgsArg) (gas fee_amount : Z)
    (validator_id : option AccountId) (chain : Chain)
    (accs : dict AccountId Account) (account : Account)
    (Haccs : accounts self = Some accs)
    (Hacc : dict_get AccountId_eq_dec account_id accs = Some account)
    (Hm : mnemonic account = None) :
  broadcast_transaction self account_id msgs gas fee_amount validator_id chain
  = ([], chain, inl ValueError).
Proof.
  unfold broadcast_transaction, bind, lift, subscript. rewrite Haccs, Hacc.
  unfold ret. rewrite Hm. reflexivity.
Qed.

(** C8: when the sender has a mnemonic, the target node's gRPC address
    resolves and the account query for the sender's address returns,
    [broadcast_transaction] signs with the account number and the sequence
    of that answer, submits once, in [BROADCAST_MODE_BLOCK], and returns
    what the submission returned: a response with a nonzero code is
    returned as it is. *)
Theorem broadcast_signs_queried_numbers_and_waits_for_commit
    (self : Testnet Node) (account_id : AccountId) (msgs : MsgsArg)
    (gas fee_amount : Z) (validator_id : option AccountId) (chain : Chain)
    (accs : dict AccountId Account) (account : Account) (words : string)
    (channel : string * Z) (info : BaseAccount)
    (Haccs : accounts self = Some accs)
    (Hacc : dict_get AccountId_eq_dec account_id accs = Some account)
    (Hm : mnemonic account = Some words)
    (Hch : get_grpc_channel self (Some (target_of self validator_id)) = inr channel)
    (Hinfo : auth_account chain (fst channel) (snd channel)
               (account_address account (hrp_prefix self)) = inr info) :
  let tx :=
    mkTx words (coin_type self) (chain_id self) (msgs_of msgs)
      (mkFee gas (str_int fee_amount +s+ denom self))
      (account_number info) (sequence info) in
  let out := broadcast_tx chain (fst channel) (snd channel) tx BROADCAST_MODE_BLOCK in
  let run :=
    broadcast_transaction self account_id msgs gas fee_amount validator_id chain in
  value_of run = snd out
  /\ state_of run = fst out
  /\ trace_of run
     = [EvChannel (fst channel) (snd channel);
        EvAuthAccount (account_address account (hrp_prefix self)) (inr info);
        EvBroadcastTx tx BROADCAST_MODE_BLOCK (snd out)]
       ++ (if is_ok (snd out) then [EvChannelClose] else [])
  /\ filter is_broadcast (trace_of run)
     = [EvBroadcastTx tx BROADCAST_MODE_BLOCK (snd out)]
  /\ (forall response, snd out = inr response -> value_of run = inr response).
Proof.
  intros tx out run.
  assert (Hrun : run
                 = ([EvChannel (fst channel) (snd channel);
                     EvAuthAccount (account_address account (hrp_prefix self)) (inr info);
                     EvBroadcastTx tx BROADCAST_MODE_BLOCK (snd out)]
                    ++ (if is_ok (snd out) then [EvChannelClose] else []),
                    fst out, snd out)).
  { unfold run, broadcast_transaction, bind, lift, subscript.
    rewrite Haccs, Hacc. unfold ret. rewrite Hm.
    unfold target_of in Hch. rewrite Hch.
    unfold emit, query_account. rewrite Hinfo.
    unfold submit. fold (msgs_of msgs). fold tx. fold out.
    destruct out as [chain' [e|response]]; reflexivity. }
  rewrite Hrun. unfold value_of, state_of, trace_of. simpl fst. simpl snd.
  repeat split.
  - destruct (snd out); reflexivity.
  - intros response H. exact H.
Qed.
End BroadcastClaims.


(** * [teardown] *)

Section Teardown.
Context {Node : Type} {API : NodeAPI Node}.

(** A loop of calls of one method on nodes that exist, when the method
    never fails: every call is made, and the keys stay. *)
Lemma calls_on_nodes_return (ev : AccountId -> Event)
    (method : Node -> result Node)
    (Htotal : forall n, exists n', method n = inr n') ids :
  forall (s : Testnet Node) nodes,
    validator_nodes s = Some nodes -> incl ids (dict_keys nodes) ->
    exists nodes',
      for_ ids (fun id => node_call id (ev id) method) s
      = (map ev ids, with_validator_nodes s nodes', inr tt)
      /\ dict_keys nodes' = dict_keys nodes.
Proof.
  induction ids as [|id r IH]; intros s nodes Hn Hincl.
  - exists nodes. split; [|reflexivity]. simpl. unfold ret.
    destruct s; simpl in Hn; subst; reflexivity.
  - assert (Hid : In id (dict_keys nodes)) by (apply Hincl; simpl; auto).
    destruct (dict_get_in_some AccountId_eq_dec _ _ Hid) as (n & Hg).
    destruct (Htotal n) as (n' & Hm).
    destruct (IH (with_validator_nodes s (dict_set AccountId_eq_dec id n' nodes))
                (dict_set AccountId_eq_dec id n' nodes)) as (nodes' & Hrun & Hk).
    { reflexivity. }
    { rewrite (dict_keys_set_present _ _ n' _ Hg).
      intros y Hy. apply Hincl. simpl; auto. }
    exists nodes'. split.
    + simpl. unfold bind at 1. unfold node_call at 1. rewrite Hn, Hg, Hm.
      rewrite Hrun. reflexivity.
    + rewrite Hk. exact (dict_keys_set_present _ _ n' _ Hg).
Qed.

Lemma teardown_returns (Hclose : forall n, exists n', node_close n = inr n')
    (s : Testnet Node) nodes :
  validator_nodes s = Some nodes ->
  exists nodes',
    teardown s = (map EvClose (dict_keys nodes), with_validator_nodes s nodes', inr tt)
    /\ dict_keys nodes' = dict_keys nodes.
Proof.
  intros Hn.
  destruct (@calls_on_nodes_return EvClose node_close Hclose (dict_keys nodes) s
              nodes Hn (incl_refl _)) as (nodes' & Hrun & Hk).
  exists nodes'. split; [|assumption].
  unfold teardown, node_ids, bind, attr, ret. rewrite Hn. simpl.
  rewrite Hrun. reflexivity.
Qed.

(** Without [validator_nodes] there is nothing to iterate over. *)
Lemma teardown_before_prepare (s : Testnet Node) :
  validator_nodes s = None -> teardown s = ([], s, inl AttributeError).
Proof.
  intros Hn. unfold teardown, node_ids, bind, attr. rewrite Hn. reflexivity.
Qed.

(** No run of [spinup] removes [validator_nodes]. *)
Lemma calls_keep_nodes (ev : AccountId -> Event) (method : Node -> result Node) ids :
  forall s : Testnet Node,
    validator_nodes s <> None ->
    validator_nodes (state_of (for_ ids (fun id => node_call id (ev id) method) s))
    <> None.
Proof.
  induction ids as [|id r IH]; intros s Hs; simpl; [exact Hs|].
  unfold bind. unfold node_call at 1.
  destruct (validator_nodes s) as [nodes|] eqn:Hn; [|congruence].
  destruct (dict_get AccountId_eq_dec id nodes) as [n|];
    [|unfold state_of; simpl; rewrite Hn; discriminate].
  destruct (method n) as [e|n'];
    [unfold state_of; simpl; rewrite Hn; discriminate|].
  specialize (IH (with_validator_nodes s (dict_set AccountId_eq_dec id n' nodes))).
  destruct (for_ r _ _) as [[tr2 s2] v] eqn:E. simpl in *.
  apply IH. discriminate.
Qed.

Lemma spinup_keeps_nodes (s : Testnet Node) :
  validator_nodes s <> None -> validator_nodes (state_of (spinup s)) <> None.
Proof.
  intros Hs. unfold spinup, node_ids, bind, attr.
  destruct (validator_nodes s) as [nodes|] eqn:Hn; [|congruence].
  unfold ret.
  pose proof (calls_keep_nodes EvStart node_start (dict_keys nodes) s) as H.
  destruct (for_ _ _ s) as [[tr2 s2] v] eqn:E. simpl in *.
  apply H. congruence.
Qed.

Lemma prepare_leaves_nodes (t : Testnet Node) :
  path_mkdir (data_dir t) = inr tt ->
  validator_nodes (state_of (prepare t)) <> None.
Proof.
  intros Hmk. destruct (prepare_in_ceremony t Hmk) as (nodes & Hs & _).
  rewrite Hs. discriminate.
Qed.

Lemma oneshot_leaves_nodes (t : Testnet Node) :
  path_mkdir (data_dir t) = inr tt ->
  validator_nodes (state_of (oneshot t)) <> None.
Proof.
  intros Hmk.
  unfold oneshot. destruct (bind_run prepare (fun _ => spinup) t)
    as [(e & _ & ->)|(a & _ & ->)]; unfold state_of at 1; simpl.
  - now apply prepare_leaves_nodes.
  - now apply spinup_keeps_nodes, prepare_leaves_nodes.
Qed.
End Teardown.

Section TeardownClaims.
Variable w : SpecNode.World.

Lemma close_returns (n : SpecNode.Node) : exists n', SpecNode.close n = inr n'.
Proof. unfold SpecNode.close. destruct (SpecNode.node_keep n); eauto. Qed.

(** C9, as it holds: once [validator_nodes] exists, [teardown] returns,
    and returns again when called a second time; it exists after every
    run of [prepare] and of [oneshot] that got to the loops ([mkdir]
    returned), whether the run returned or raised in one of the loops, so
    [teardown] returns there; and [close] returns on every node, started
    or not. *)
Theorem teardown_returns_once_nodes_exist (self : Testnet SpecNode.Node)
    (Hnodes : validator_nodes self <> None) :
  value_of (teardown (API := SpecNode.api w) self) = inr tt
  /\ value_of (teardown (API := SpecNode.api w)
                 (state_of (teardown (API := SpecNode.api w) self))) = inr tt
  /\ (forall t,
        path_mkdir (NodeAPI := SpecNode.api w) (data_dir t) = inr tt ->
        value_of (teardown (API := SpecNode.api w)
                    (state_of (prepare (API := SpecNode.api w) t))) = inr tt)
  /\ (forall t,
        path_mkdir (NodeAPI := SpecNode.api w) (data_dir t) = inr tt ->
        value_of (teardown (API := SpecNode.api w)
                    (state_of (oneshot (API := SpecNode.api w) t))) = inr tt)
  /\ (forall n, exists n', node_close (NodeAPI := SpecNode.api w) n = inr n').
Proof.
  assert (Hany : forall s : Testnet SpecNode.Node,
             validator_nodes s <> None ->
             value_of (teardown (API := SpecNode.api w) s) = inr tt
             /\ validator_nodes (state_of (teardown (API := SpecNode.api w) s)) <> None).
  { intros s Hs. destruct (validator_nodes s) as [nodes|] eqn:Hn; [|congruence].
    destruct (@teardown_returns _ (SpecNode.api w) close_returns s nodes Hn)
      as (nodes' & -> & _).
    split; [reflexivity | discriminate]. }
  split; [apply Hany, Hnodes|].
  split; [apply Hany, Hany, Hnodes|].
  split; [intros t Hmk; apply Hany, prepare_leaves_nodes, Hmk|].
  split; [intros t Hmk; apply Hany, oneshot_leaves_nodes, Hmk|].
  exact close_returns.
Qed.
End TeardownClaims.

(** C9, as stated, fails on a [Testnet] that was never prepared:
    [validator_nodes] is assigned in [prepare] only, and [teardown] raises
    [AttributeError]. *)
Lemma teardown_never_prepared_raises :
  teardown (API := Simd.api) Simd.net3 = ([], Simd.net3, inl AttributeError).
Proof. reflexivity. Qed.


(** * The state of the nodes *)

Section Local.
Context {Node : Type} {API : NodeAPI Node}.
Variable self : Testnet Node.

Lemma node_of_key s x :
  in_ceremony self s -> In x (node_keys self) -> exists n, node_of s x = Some n.
Proof.
  intros (nodes & -> & Hk) Hx. unfold node_of. simpl.
  apply dict_get_in_some. now rewrite Hk.
Qed.

Lemma node_of_in s x n :
  in_ceremony self s -> node_of s x = Some n -> In x (node_keys self).
Proof.
  intros (nodes & -> & Hk). unfold node_of. simpl. intros H.
  rewrite <- Hk. eapply dict_get_some_in, H.
Qed.

Lemma node_call_run id ev method s tr s' :
  in_ceremony self s ->
  node_call id ev method s = (tr, s', inr tt) ->
  in_ceremony self s'
  /\ (forall y, y <> id -> node_of s' y = node_of s y)
  /\ exists n n', node_of s id = Some n /\ node_of s' id = Some n'
                  /\ method n = inr n'.
Proof.
  intros Hs. destruct (in_ceremony_nodes Hs) as (nodes & Hn & Hk).
  unfold node_call, node_of. rewrite Hn.
  destruct (dict_get AccountId_eq_dec id nodes) as [n|] eqn:Hg; [|discriminate].
  destruct (method n) as [e|n'] eqn:Hm; [discriminate|].
  intros H. inversion H; subst. simpl. split; [|split].
  - eapply in_ceremony_update; eauto.
  - intros y Hy. apply dict_get_set_other. congruence.
  - exists n, n'. rewrite dict_get_set_same. auto.
Qed.

Lemma node_call2_run id other ev method s tr s' :
  in_ceremony self s ->
  node_call2 id other ev method s = (tr, s', inr tt) ->
  in_ceremony self s'
  /\ (forall y, y <> id -> node_of s' y = node_of s y)
  /\ exists n nb n', node_of s id = Some n /\ node_of s other = Some nb
                     /\ node_of s' id = Some n' /\ method n nb = inr n'.
Proof.
  intros Hs. destruct (in_ceremony_nodes Hs) as (nodes & Hn & Hk).
  unfold node_call2, node_of. rewrite Hn.
  destruct (dict_get AccountId_eq_dec id nodes) as [n|] eqn:Hg; [|discriminate].
  destruct (dict_get AccountId_eq_dec other nodes) as [nb|] eqn:Hb; [|discriminate].
  destruct (method n nb) as [e|n'] eqn:Hm; [discriminate|].
  intros H. inversion H; subst. simpl. split; [|split].
  - eapply in_ceremony_update; eauto.
  - intros y Hy. apply dict_get_set_other. congruence.
  - exists n, nb, n'. rewrite dict_get_set_same. auto.
Qed.

(** Programs that leave the object as it was. *)
Lemma quiet_ret (A : Type) (a : A) : @quiet Node A (ret a).
Proof. intros s tr s' b H. inversion H; reflexivity. Qed.

Lemma quiet_raise (A : Type) (e : exn) : @quiet Node A (raise e).
Proof. intros s tr s' b H. discriminate. Qed.

Lemma quiet_lift (A : Type) (r : result A) : @quiet Node A (lift r).
Proof. intros s tr s' b H. inversion H; reflexivity. Qed.

Lemma quiet_emit e : @quiet Node unit (emit e).
Proof. intros s tr s' b H. inversion H; reflexivity. Qed.

Lemma quiet_get_self : @quiet Node _ get_self.
Proof. intros s tr s' b H. inversion H; reflexivity. Qed.

Lemma quiet_attr (A : Type) (f : Testnet Node -> option A) : quiet (attr f).
Proof.
  intros s tr s' b. unfold attr. destruct (f s); intros H; inversion H; reflexivity.
Qed.

Lemma quiet_bind (A B : Type) (m : M (Testnet Node) A) (f : A -> M (Testnet Node) B) :
  quiet m -> (forall a, quiet (f a)) -> quiet (bind m f).
Proof.
  intros Hm Hf s tr s' b H. apply bind_ok in H.
  destruct H as (tr1 & s1 & a & tr2 & H1 & H2 & _).
  apply Hm in H1. apply Hf in H2. congruence.
Qed.

Lemma quiet_node_ids : @quiet Node _ node_ids.
Proof.
  unfold node_ids. apply quiet_bind; [apply quiet_attr | intros; apply quiet_ret].
Qed.

Lemma quiet_node_read (A : Type) id (ev : A -> list Event) (method : Node -> A) :
  quiet (node_read id ev method).
Proof.
  intros s tr s' b. unfold node_read. destruct (validator_nodes s); [|discriminate].
  destruct (dict_get AccountId_eq_dec id d); intros H; inversion H; reflexivity.
Qed.

Lemma quiet_call_get id file key : quiet (call_get id file key).
Proof.
  unfold call_get. apply quiet_bind; [apply quiet_node_read | intros; apply quiet_lift].
Qed.

Lemma quiet_subscript (K V : Type) (dec : forall a b : K, {a = b} + {a <> b})
    (d : dict K V) (k : K) : @quiet Node V (subscript dec d k).
Proof.
  unfold subscript. destruct (dict_get dec k d); [apply quiet_ret | apply quiet_raise].
Qed.

Lemma quiet_mapM (X A : Type) (f : X -> M (Testnet Node) A) xs :
  (forall x, quiet (f x)) -> quiet (mapM f xs).
Proof.
  intros H. induction xs as [|x r IH]; simpl; [apply quiet_ret|].
  apply quiet_bind; [apply H|]. intros a.
  apply quiet_bind; [exact IH | intros; apply quiet_ret].
Qed.

Lemma quiet_for (X : Type) (body : X -> M (Testnet Node) unit) xs :
  (forall x, quiet (body x)) -> quiet (for_ xs body).
Proof.
  intros H. induction xs as [|x r IH]; simpl; [apply quiet_ret|].
  apply quiet_bind; [apply H | intros; exact IH].
Qed.

(** Programs that change one node. *)
Lemma local_weaken x (R R' : Node -> Node -> Prop) (A : Type) (m : M (Testnet Node) A) :
  local self x R m -> (forall n n', R n n' -> R' n n') -> local self x R' m.
Proof.
  intros H HR s tr s' a Hs Hrun.
  destruct (H s tr s' a Hs Hrun) as (H1 & H2 & n & n' & H3 & H4 & H5).
  split; [assumption|]. split; [assumption|]. exists n, n'. auto.
Qed.

Lemma local_call x ev method :
  local self x (fun n n' => method n = inr n') (node_call x ev method).
Proof.
  intros s tr s' [] Hs Hrun. exact (node_call_run _ _ _ Hs Hrun).
Qed.

Lemma local_quiet x (R : Node -> Node -> Prop) (A : Type) (m : M (Testnet Node) A) :
  In x (node_keys self) -> quiet m -> (forall n, R n n) -> local self x R m.
Proof.
  intros Hx Hq HR s tr s' a Hs Hrun. apply Hq in Hrun. subst s'.
  split; [assumption|]. split; [reflexivity|].
  destruct (@node_of_key s x Hs Hx) as (n & Hn). exists n, n. auto.
Qed.

Lemma local_raise x (R : Node -> Node -> Prop) (A : Type) (e : exn) :
  local self x R (@raise (Testnet Node) A e).
Proof. intros s tr s' a _ H. discriminate. Qed.

Lemma bind_ret (A B : Type) (a : A) (f : A -> M (Testnet Node) B) s :
  bind (ret a) f s = f a s.
Proof. apply bind_pure. reflexivity. Qed.

Lemma local_bind x (R1 R2 : Node -> Node -> Prop) (A B : Type)
    (m : M (Testnet Node) A) (f : A -> M (Testnet Node) B) :
  local self x R1 m -> (forall a, local self x R2 (f a)) ->
  local self x (fun n n'' => exists n', R1 n n' /\ R2 n' n'') (bind m f).
Proof.
  intros Hm Hf s tr s' b Hs Hrun. apply bind_ok in Hrun.
  destruct Hrun as (tr1 & s1 & a & tr2 & H1 & H2 & _).
  destruct (Hm _ _ _ _ Hs H1) as (Hs1 & Ho1 & n & n1 & Hn & Hn1 & HR1).
  destruct (Hf a _ _ _ _ Hs1 H2) as (Hs2 & Ho2 & n1' & n2 & Hn1' & Hn2 & HR2).
  split; [assumption|]. split.
  - intros y Hy. rewrite Ho2, Ho1 by assumption. reflexivity.
  - exists n, n2. repeat split; auto. exists n1. split; [assumption|]. congruence.
Qed.

(** The same, for a relation that is reflexive and transitive. *)
Lemma local_seq x (R : Node -> Node -> Prop) (A B : Type)
    (m : M (Testnet Node) A) (f : A -> M (Testnet Node) B) :
  (forall n1 n2 n3, R n1 n2 -> R n2 n3 -> R n1 n3) ->
  local self x R m -> (forall a, local self x R (f a)) -> local self x R (bind m f).
Proof.
  intros Htr Hm Hf. eapply local_weaken; [apply local_bind; eassumption|].
  intros n n'' (n' & H1 & H2). eauto.
Qed.

Lemma local_for x (R : Node -> Node -> Prop) (X : Type)
    (body : X -> M (Testnet Node) unit) xs :
  In x (node_keys self) ->
  (forall n, R n n) -> (forall n1 n2 n3, R n1 n2 -> R n2 n3 -> R n1 n3) ->
  (forall i, In i xs -> local self x R (body i)) -> local self x R (for_ xs body).
Proof.
  intros Hx Hrefl Htr. induction xs as [|i r IH]; intros H; simpl.
  - apply local_quiet; auto. apply quiet_ret.
  - apply local_seq; [assumption | apply H; simpl; auto |].
    intros _. apply IH. intros j Hj. apply H. simpl; auto.
Qed.

(** A loop over distinct nodes whose iteration on [x] changes node [x]. *)
Lemma local_nodes (Rel : AccountId -> Node -> Node -> Prop)
    (body : AccountId -> M (Testnet Node) unit) ids :
  NoDup ids ->
  (forall x, In x ids -> local self x (Rel x) (body x)) ->
  forall s tr s',
    in_ceremony self s -> for_ ids body s = (tr, s', inr tt) ->
    in_ceremony self s'
    /\ (forall y, ~ In y ids -> node_of s' y = node_of s y)
    /\ forall x, In x ids ->
         exists n n', node_of s x = Some n /\ node_of s' x = Some n' /\ Rel x n n'.
Proof.
  induction 1 as [|x r Hx Hnd IH]; intros Hb s tr s' Hs Hrun; simpl in Hrun.
  - apply ret_ok in Hrun. destruct Hrun as (_ & -> & _).
    split; [assumption|]. split; [reflexivity | intros x []].
  - apply bind_ok in Hrun. destruct Hrun as (tr1 & s1 & [] & tr2 & H1 & H2 & _).
    destruct (Hb x (or_introl eq_refl) _ _ _ _ Hs H1)
      as (Hs1 & Ho1 & n & n1 & Hn & Hn1 & HR1).
    destruct (IH (fun y Hy => Hb y (or_intror Hy)) _ _ _ Hs1 H2) as (Hs2 & Ho2 & Hin2).
    split; [assumption|]. split.
    + intros y Hy. simpl in Hy. rewrite Ho2 by tauto. apply Ho1. intros ->. tauto.
    + intros y [<-|Hy].
      * exists n, n1. rewrite Ho2 by assumption. auto.
      * destruct (Hin2 y Hy) as (m & m' & Hm & Hm' & HR).
        exists m, m'. rewrite <- Ho1; [auto|]. intros ->. contradiction.
Qed.

Lemma local_nodes_fold (A : Type) (Rel : AccountId -> Node -> Node -> Prop)
    (body : A -> AccountId -> M (Testnet Node) A) ids :
  NoDup ids ->
  (forall a x, In x ids -> local self x (Rel x) (body a x)) ->
  forall a s tr s' a',
    in_ceremony self s -> foldM body a ids s = (tr, s', inr a') ->
    in_ceremony self s'
    /\ (forall y, ~ In y ids -> node_of s' y = node_of s y)
    /\ forall x, In x ids ->
         exists n n', node_of s x = Some n /\ node_of s' x = Some n' /\ Rel x n n'.
Proof.
  induction 1 as [|x r Hx Hnd IH]; intros Hb a s tr s' a' Hs Hrun; simpl in Hrun.
  - apply ret_ok in Hrun. destruct Hrun as (_ & -> & _).
    split; [assumption|]. split; [reflexivity | intros x []].
  - apply bind_ok in Hrun. destruct Hrun as (tr1 & s1 & a1 & tr2 & H1 & H2 & _).
    destruct (Hb a x (or_introl eq_refl) _ _ _ _ Hs H1)
      as (Hs1 & Ho1 & n & n1 & Hn & Hn1 & HR1).
    destruct (IH (fun b y Hy => Hb b y (or_intror Hy)) _ _ _ _ _ Hs1 H2)
      as (Hs2 & Ho2 & Hin2).
    split; [assumption|]. split.
    + intros y Hy. simpl in Hy. rewrite Ho2 by tauto. apply Ho1. intros ->. tauto.
    + intros y [<-|Hy].
      * exists n, n1. rewrite Ho2 by assumption. auto.
      * destruct (Hin2 y Hy) as (m & m' & Hm & Hm' & HR).
        exists m, m'. rewrite <- Ho1; [auto|]. intros ->. contradiction.
Qed.

Lemma node_read_run (A : Type) id (ev : A -> list Event) (method : Node -> A)
    s tr s' a :
  node_read id ev method s = (tr, s', inr a) ->
  s' = s /\ exists n, node_of s id = Some n /\ a = method n.
Proof.
  unfold node_read, node_of. destruct (validator_nodes s); [|discriminate].
  destruct (dict_get AccountId_eq_dec id d) as [n|]; [|discriminate].
  intros H. inversion H; subst. eauto.
Qed.

Lemma ceremony_fields s :
  in_ceremony self s ->
  _lead_validator s = _lead_validator self
  /\ config_genesis s = config_genesis self
  /\ config_node s = config_node self
  /\ account_balance s = account_balance self
  /\ validator_balance s = validator_balance self
  /\ denom s = denom self.
Proof. intros (nodes & -> & _). repeat split. Qed.
End Local.


(** * The nodes of the specification *)

Section NodeViews.
Import SpecNode.
Variable w : World.

Lemma gentx_path_is_gentx g : is_gentx_path (gentx_path g) = true.
Proof. reflexivity. Qed.

Lemma gentx_path_not_genesis g : gentx_path g <> genesis_json.
Proof.
  intros H. pose proof (gentx_path_is_gentx g) as H1. rewrite H in H1. discriminate.
Qed.

Lemma gentx_path_validator g g' :
  gx_validator g = gx_validator g' -> gentx_path g = gentx_path g'.
Proof. unfold gentx_path. now intros ->. Qed.

(** ** The gentx directory *)

Lemma store_in g dir x : In x (store_gentx g dir) -> x = g \/ In x dir.
Proof.
  induction dir as [|g' r IH]; simpl.
  - intros [<-|[]]. auto.
  - destruct (Account_eq_dec (gx_validator g) (gx_validator g')); simpl.
    + intros [<-|H]; auto.
    + intros [<-|H]; auto. destruct (IH H); auto.
Qed.

Lemma store_has g dir : In g (store_gentx g dir).
Proof.
  induction dir as [|g' r IH]; simpl; [auto|].
  destruct (Account_eq_dec (gx_validator g) (gx_validator g')); simpl; auto.
Qed.

Lemma store_keeps g dir x :
  In x dir -> gx_validator x <> gx_validator g -> In x (store_gentx g dir).
Proof.
  induction dir as [|g' r IH]; simpl; [tauto|].
  intros [->|H] Hne; destruct (Account_eq_dec (gx_validator g) (gx_validator x));
    try (destruct (Account_eq_dec (gx_validator g) (gx_validator g')));
    simpl; auto; congruence.
Qed.

Lemma store_validators g dir :
  map gx_validator (store_gentx g dir)
  = if in_dec Account_eq_dec (gx_validator g) (map gx_validator dir)
    then map gx_validator dir
    else map gx_validator dir ++ [gx_validator g].
Proof.
  induction dir as [|g' r IH]; simpl; [reflexivity|].
  destruct (Account_eq_dec (gx_validator g) (gx_validator g')) as [E|E]; simpl.
  - destruct (Account_eq_dec (gx_validator g') (gx_validator g)); [|congruence].
    now rewrite E.
  - destruct (Account_eq_dec (gx_validator g') (gx_validator g)); [congruence|].
    rewrite IH.
    destruct (in_dec Account_eq_dec (gx_validator g) (map gx_validator r)); reflexivity.
Qed.

Lemma store_nodup g dir :
  NoDup (map gx_validator dir) -> NoDup (map gx_validator (store_gentx g dir)).
Proof.
  intros H. rewrite store_validators.
  destruct (in_dec Account_eq_dec (gx_validator g) (map gx_validator dir)) as [Hin|Hnin];
    [assumption|].
  apply NoDup_app; [assumption | constructor; [simpl; tauto | constructor] |].
  intros x Hx [<-|[]]. contradiction.
Qed.

Lemma find_store_other v g dir :
  v <> gx_validator g -> find_gentx v (store_gentx g dir) = find_gentx v dir.
Proof.
  intros Hne. induction dir as [|g' r IH]; simpl.
  - destruct (Account_eq_dec v (gx_validator g)); congruence.
  - destruct (Account_eq_dec (gx_validator g) (gx_validator g')) as [E|E]; simpl.
    + destruct (Account_eq_dec v (gx_validator g)); [congruence|].
      destruct (Account_eq_dec v (gx_validator g')); congruence.
    + destruct (Account_eq_dec v (gx_validator g')); [reflexivity | exact IH].
Qed.

Lemma find_in v dir g :
  find_gentx v dir = Some g -> In g dir /\ gx_validator g = v.
Proof.
  induction dir as [|g' r IH]; simpl; [discriminate|].
  destruct (Account_eq_dec v (gx_validator g')) as [E|E].
  - intros H. inversion H; subst. auto.
  - intros H. destruct (IH H). auto.
Qed.

(** ** What a call that returned did to the genesis document and to the
    gentx directory *)

Lemma init_view n n' :
  init w n = inr n' -> gentx_dir n' = gentx_dir n /\ genesis n' <> None.
Proof. unfold init. intros H. inversion H; subst. simpl. split; [reflexivity | discriminate]. Qed.

Lemma set_view n file v key n' :
  set n file v key = inr n' -> gentx_dir n = [] ->
  gentx_dir n' = []
  /\ (genesis n <> None -> genesis n' <> None)
  /\ (file <> genesis_json -> genesis n' = genesis n).
Proof.
  unfold set. intros H Hd.
  destruct (string_dec file genesis_json) as [E|E].
  - destruct (genesis n) as [g|]; [|discriminate].
    destruct (doc_set _ _ _); [discriminate|]. inversion H; subst. simpl.
    split; [assumption|]. split; [discriminate | congruence].
  - destruct (is_gentx_path file).
    + destruct (string_dec key memo_key); [|discriminate].
      rewrite Hd in H. discriminate.
    + destruct (dict_get string_dec file (configs n)); [|discriminate].
      destruct (doc_set _ _ _); [discriminate|]. inversion H; subst. simpl. auto.
Qed.

Lemma update_view n file f key n' :
  update n file f key = inr n' -> gentx_dir n = [] ->
  gentx_dir n' = []
  /\ (genesis n <> None -> genesis n' <> None)
  /\ (file <> genesis_json -> genesis n' = genesis n).
Proof.
  unfold update. intros H Hd.
  destruct (string_dec file genesis_json) as [E|E].
  - destruct (genesis n) as [g|]; [|discriminate].
    destruct (doc_update _ _ _); [discriminate|]. inversion H; subst. simpl.
    split; [assumption|]. split; [discriminate | congruence].
  - destruct (is_gentx_path file).
    + destruct (string_dec key memo_key); [|discriminate].
      rewrite Hd in H. discriminate.
    + destruct (dict_get string_dec file (configs n)); [|discriminate].
      destruct (doc_update _ _ _); [discriminate|]. inversion H; subst. simpl. auto.
Qed.

Lemma add_account_view n c a n' :
  add_account n c a = inr n' ->
  gentx_dir n' = gentx_dir n /\ genesis n' <> None.
Proof.
  unfold add_account. destruct (genesis n); [|discriminate].
  intros H. inversion H; subst. simpl. split; [reflexivity | discriminate].
Qed.

Lemma copy_genesis_view n other n' :
  copy_genesis_from n other = inr n' ->
  gentx_dir n' = gentx_dir n /\ genesis n' = genesis other /\ genesis other <> None.
Proof.
  unfold copy_genesis_from. destruct (genesis other) as [g|] eqn:E; [|discriminate].
  intros H. inversion H; subst. simpl. repeat split; discriminate.
Qed.

Lemma add_key_view n a n' :
  add_key n a = inr n' ->
  gentx_dir n' = gentx_dir n /\ genesis n' = genesis n.
Proof. unfold add_key. intros H. inversion H; subst. simpl. auto. Qed.

Lemma add_validator_view n c a n' :
  add_validator w n c a = inr n' -> gentx_dir n = [] ->
  genesis n' = genesis n /\ staged n' = Some a
  /\ exists g, gentx_dir n' = [g] /\ gx_validator g = a /\ gx_stake g = c
               /\ gx_signed_by g = Some a.
Proof.
  unfold add_validator. intros H Hd.
  destruct (genesis n) eqn:E in H; [|discriminate].
  inversion H; subst. simpl. rewrite Hd. simpl.
  split; [reflexivity|]. split; [reflexivity|]. eexists. repeat split.
Qed.

(** The memo rewrite of the only gentx of a node. *)
Lemma update_gentx_view n g f n' :
  update n (gentx_path g) f memo_key = inr n' -> gentx_dir n = [g] ->
  genesis n' = genesis n /\ staged n' = staged n /\ home_dir n' = home_dir n
  /\ exists g', gentx_dir n' = [g'] /\ gx_validator g' = gx_validator g
                /\ gx_stake g' = gx_stake g.
Proof.
  unfold update. intros H Hd.
  destruct (string_dec (gentx_path g) genesis_json) as [E|_];
    [now apply gentx_path_not_genesis in E|].
  rewrite gentx_path_is_gentx in H.
  destruct (string_dec memo_key memo_key); [|congruence].
  rewrite Hd in H. cbn [edit_gentx] in H.
  destruct (string_dec (gentx_path g) (gentx_path g)); [|congruence].
  destruct (f (VStr (gx_memo g))) as [e'|v]; [discriminate|].
  unfold set_memo in H. destruct v; try discriminate.
  destruct (string_dec s (gx_memo g)); inversion H; subst; simpl;
    (split; [reflexivity|]); (split; [reflexivity|]); (split; [reflexivity|]);
    eexists; repeat split.
Qed.

Lemma sign_view n g a n' :
  sign n a (path_join (home_dir n) (gentx_path g)) = inr n' -> gentx_dir n = [g] ->
  genesis n' = genesis n /\ staged n' = staged n
  /\ exists g', gentx_dir n' = [g'] /\ gx_validator g' = gx_validator g
                /\ gx_stake g' = gx_stake g /\ gx_signed_by g' = Some a.
Proof.
  unfold sign. intros H Hd. rewrite Hd in H. cbv beta iota fix in H.
  destruct (string_dec (path_join (home_dir n) (gentx_path g))
              (path_join (home_dir n) (gentx_path g))); [|congruence].
  inversion H; subst. simpl.
  split; [reflexivity|]. split; [reflexivity|]. eexists. repeat split.
Qed.

Lemma copy_gentx_view n other n' :
  copy_gentx_from n other = inr n' ->
  genesis n' = genesis n /\ staged n' = staged n
  /\ exists v g, staged other = Some v /\ find_gentx v (gentx_dir other) = Some g
                 /\ gentx_dir n' = store_gentx g (gentx_dir n).
Proof.
  unfold copy_gentx_from. destruct (staged other) as [v|]; [|discriminate].
  destruct (find_gentx v (gentx_dir other)) as [g|] eqn:E; [|discriminate].
  intros H. inversion H; subst. simpl.
  split; [reflexivity|]. split; [reflexivity|]. exists v, g. auto.
Qed.

Lemma collect_view n n' :
  collect_gentx n = inr n' ->
  exists g,
    genesis n = Some g
    /\ genesis n' = Some (mkGenesis (gen_params g) (gen_balances g)
                            (map validator_entry (gentx_dir n))).
Proof.
  unfold collect_gentx. destruct (genesis n) as [g|]; [|discriminate].
  destruct (forallb gentx_valid (gentx_dir n)); [|discriminate].
  intros H. inversion H; subst. simpl. eauto.
Qed.
End NodeViews.


(** * The genesis documents after [prepare] *)

Section Agreement.
Variable w : SpecNode.World.
Variable self : Testnet SpecNode.Node.
Hypothesis Hlead : lead_first self.

Let world_api : NodeAPI SpecNode.Node := SpecNode.api w.
#[local] Existing Instance world_api.

Lemma keys_nodup : NoDup (node_keys self).
Proof. apply first_occurrences_nodup. Qed.

Lemma all_nodes_weaken (P Q : AccountId -> SpecNode.Node -> Prop) s :
  all_nodes self P s ->
  (forall x n, In x (node_keys self) -> P x n -> Q x n) ->
  all_nodes self Q s.
Proof.
  intros H HPQ x Hx. destruct (H x Hx) as (n & Hn & HP). exists n. auto.
Qed.

(** A program that changes one node keeps what it keeps on that node. *)
Lemma all_nodes_local x (R : SpecNode.Node -> SpecNode.Node -> Prop) (A : Type)
    (m : M (Testnet SpecNode.Node) A) (P : AccountId -> SpecNode.Node -> Prop) s tr s' a :
  local self x R m -> (forall n n', P x n -> R n n' -> P x n') ->
  in_ceremony self s -> all_nodes self P s -> m s = (tr, s', inr a) ->
  in_ceremony self s' /\ all_nodes self P s'.
Proof.
  intros Hl HP Hs Hall Hrun.
  destruct (Hl _ _ _ _ Hs Hrun) as (Hs' & Ho & n & n' & Hn & Hn' & HR).
  split; [assumption|]. intros y Hy.
  destruct (AccountId_eq_dec y x) as [->|Hne].
  - exists n'. split; [assumption|].
    destruct (Hall x Hy) as (n0 & Hn0 & HP0). apply HP with n; [congruence | assumption].
  - rewrite Ho by assumption. apply Hall, Hy.
Qed.

(** A loop over the nodes whose iteration on [x] changes node [x]. *)
Lemma all_nodes_loop (Rel : AccountId -> SpecNode.Node -> SpecNode.Node -> Prop)
    (body : AccountId -> M (Testnet SpecNode.Node) unit) (P Q : AccountId -> SpecNode.Node -> Prop)
    s tr s' :
  (forall x, In x (node_keys self) -> local self x (Rel x) (body x)) ->
  (forall x n n', In x (node_keys self) -> P x n -> Rel x n n' -> Q x n') ->
  in_ceremony self s -> all_nodes self P s ->
  for_ (node_keys self) body s = (tr, s', inr tt) ->
  in_ceremony self s' /\ all_nodes self Q s'.
Proof.
  intros Hl HPQ Hs Hall Hrun.
  destruct (local_nodes Rel body keys_nodup Hl Hs Hrun) as (Hs' & _ & Hin).
  split; [assumption|]. intros x Hx.
  destruct (Hin x Hx) as (n & n' & Hn & Hn' & HR).
  destruct (Hall x Hx) as (n0 & Hn0 & HP0).
  exists n'. split; [assumption|]. apply HPQ with n; [assumption | congruence | assumption].
Qed.

Lemma all_nodes_fold (A : Type)
    (Rel : AccountId -> SpecNode.Node -> SpecNode.Node -> Prop)
    (body : A -> AccountId -> M (Testnet SpecNode.Node) A) (P Q : AccountId -> SpecNode.Node -> Prop)
    a s tr s' a' :
  (forall b x, In x (node_keys self) -> local self x (Rel x) (body b x)) ->
  (forall x n n', In x (node_keys self) -> P x n -> Rel x n n' -> Q x n') ->
  in_ceremony self s -> all_nodes self P s ->
  foldM body a (node_keys self) s = (tr, s', inr a') ->
  in_ceremony self s' /\ all_nodes self Q s'.
Proof.
  intros Hl HPQ Hs Hall Hrun.
  destruct (local_nodes_fold Rel body keys_nodup Hl a Hs Hrun) as (Hs' & _ & Hin).
  split; [assumption|]. intros x Hx.
  destruct (Hin x Hx) as (n & n' & Hn & Hn' & HR).
  destruct (Hall x Hx) as (n0 & Hn0 & HP0).
  exists n'. split; [assumption|]. apply HPQ with n; [assumption | congruence | assumption].
Qed.

(** ** The node objects [prepare] creates *)
Lemma created_fresh : all_nodes self (fun _ n => fresh n) (after_create self).
Proof.
  intros x Hx. unfold node_of, after_create. simpl.
  unfold new_nodes. rewrite dict_comp_get.
  - eexists. split; [reflexivity|]. reflexivity.
  - unfold the_validators. rewrite dict_comp_keys. exact Hx.
Qed.

(** ** [init] on every node *)
Lemma init_phase s tr s' :
  in_ceremony self s -> all_nodes self (fun _ n => fresh n) s ->
  init_nodes s = (tr, s', inr tt) ->
  in_ceremony self s' /\ all_nodes self (fun _ n => initialised n) s'.
Proof.
  intros Hs Hall Hrun. unfold init_nodes in Hrun.
  rewrite (bind_pure _ _ (node_ids_run Hs)) in Hrun.
  revert Hs Hall Hrun.
  apply all_nodes_loop with (Rel := fun _ n n' => SpecNode.init w n = inr n').
  - intros x Hx. apply local_call.
  - intros x n n' _ Hf Hi. destruct (@init_view _ _ _ Hi) as [Hd Hg].
    split; [congruence | assumption].
Qed.

Lemma lead_key : In (_lead_validator self) (node_keys self).
Proof. exact (lead_in_keys Hlead). Qed.

Lemma keeps_fresh_refl n : keeps_fresh n n.
Proof. intros H. auto. Qed.

Lemma keeps_fresh_trans n1 n2 n3 :
  keeps_fresh n1 n2 -> keeps_fresh n2 n3 -> keeps_fresh n1 n3.
Proof.
  intros H1 H2 Hd. destruct (H1 Hd) as [Hd2 Hg2]. destruct (H2 Hd2) as [Hd3 Hg3]. auto.
Qed.

Lemma keeps_genesis_refl n : keeps_genesis n n.
Proof. intros H. auto. Qed.

Lemma keeps_genesis_trans n1 n2 n3 :
  keeps_genesis n1 n2 -> keeps_genesis n2 n3 -> keeps_genesis n1 n3.
Proof.
  intros H1 H2 Hd. destruct (H1 Hd) as [Hd2 Hg2]. destruct (H2 Hd2) as [Hd3 Hg3].
  split; congruence.
Qed.

(** ** The genesis overrides and the funding, on the lead *)
Lemma overrides_local :
  local self (_lead_validator self) keeps_fresh apply_genesis_overrides.
Proof.
  intros s tr s' a Hs Hrun. unfold apply_genesis_overrides in Hrun.
  rewrite bind_get_self in Hrun.
  destruct (ceremony_fields Hs) as (El & Eg & _). rewrite El, Eg in Hrun.
  revert s tr s' a Hs Hrun El Eg.
  assert (Hl : local self (_lead_validator self) keeps_fresh
                 (for_ (config_genesis self) (fun kv =>
                    call_set (_lead_validator self) genesis_json (snd kv) (fst kv)))).
  { apply local_for; [exact lead_key | exact keeps_fresh_refl | exact keeps_fresh_trans |].
    intros kv _. unfold call_set. eapply local_weaken; [apply local_call|].
    intros n n' H Hd. destruct (@set_view _ _ _ _ _ H Hd) as (H1 & H2 & _). auto. }
  intros s tr s' a Hs Hrun _ _. exact (Hl s tr s' a Hs Hrun).
Qed.

Lemma fund_local (self0 : Testnet SpecNode.Node) account :
  _lead_validator self0 = _lead_validator self ->
  local self (_lead_validator self) keeps_fresh (fund self0 account).
Proof.
  intros El. unfold fund. rewrite El.
  eapply local_weaken; [apply local_call|].
  intros n n' H Hd. destruct (@add_account_view _ _ _ _ H) as (H1 & H2). split; [congruence | auto].
Qed.

Lemma fund_validators_local :
  local self (_lead_validator self) keeps_fresh fund_validators.
Proof.
  intros s tr s' a Hs Hrun. unfold fund_validators in Hrun.
  rewrite bind_get_self in Hrun.
  rewrite (bind_pure _ _ (attr_validators_run Hs)) in Hrun.
  destruct (ceremony_fields Hs) as (El & _).
  revert Hrun. apply local_for;
    [exact lead_key | exact keeps_fresh_refl | exact keeps_fresh_trans | | exact Hs].
  intros v _. now apply fund_local.
Qed.

Lemma fund_accounts_local :
  local self (_lead_validator self) keeps_fresh fund_accounts.
Proof.
  intros s tr s' a Hs Hrun. unfold fund_accounts in Hrun.
  rewrite bind_get_self in Hrun.
  rewrite (bind_pure _ _ (attr_accounts_run Hs)) in Hrun.
  destruct (ceremony_fields Hs) as (El & _).
  revert Hrun. apply local_for;
    [exact lead_key | exact keeps_fresh_refl | exact keeps_fresh_trans | | exact Hs].
  intros v _. now apply fund_local.
Qed.

Lemma initialised_kept n n' : initialised n -> keeps_fresh n n' -> initialised n'.
Proof. intros [Hd Hg] H. destruct (H Hd). split; auto. Qed.

(** ** Every other node copies the lead's genesis *)
Lemma share_loop (nl : SpecNode.Node) ids :
  forall done s tr s',
    in_ceremony self s ->
    node_of s (_lead_validator self) = Some nl ->
    all_nodes self (fun x n => SpecNode.gentx_dir n = []
                               /\ (In x done -> SpecNode.genesis n = SpecNode.genesis nl)) s ->
    for_ ids (fun node_id =>
      if id_eqb node_id (_lead_validator self) then ret tt
      else node_call2 node_id (_lead_validator self)
             (EvCopyGenesisFrom node_id (_lead_validator self))
             node_copy_genesis_from) s = (tr, s', inr tt) ->
    in_ceremony self s'
    /\ all_nodes self (fun x n => SpecNode.gentx_dir n = []
                                  /\ (In x (done ++ ids) -> SpecNode.genesis n = SpecNode.genesis nl)) s'.
Proof.
  induction ids as [|x r IH]; intros done s tr s' Hs Hnl Hall Hrun; simpl in Hrun.
  - apply ret_ok in Hrun. destruct Hrun as (_ & -> & _). rewrite app_nil_r. auto.
  - apply bind_ok in Hrun. destruct Hrun as (tr1 & s1 & [] & tr2 & H1 & H2 & _).
    replace (done ++ x :: r) with ((done ++ [x]) ++ r) by (rewrite <- app_assoc; reflexivity).
    destruct (id_eqb x (_lead_validator self)) eqn:E.
    + apply ret_ok in H1. destruct H1 as (_ & -> & _).
      apply id_eqb_true in E. subst x.
      apply (IH (done ++ [_lead_validator self]) s tr2 s' Hs Hnl); [|exact H2].
      intros y Hy. destruct (Hall y Hy) as (n & Hn & Hd & Hg).
      exists n. split; [assumption|]. split; [assumption|].
      intros Hin. apply in_app_or in Hin. destruct Hin as [Hin|[<-|[]]]; [auto|].
      congruence.
    + apply id_eqb_false in E.
      destruct (node_call2_run _ _ _ _ Hs H1)
        as (Hs1 & Ho & n & nb & n' & Hn & Hb & Hn' & Hm).
      rewrite Hnl in Hb. inversion Hb; subst nb.
      destruct (@copy_genesis_view _ _ _ Hm) as (Hd' & Hg' & _).
      apply (IH (done ++ [x]) s1 tr2 s' Hs1); [| |exact H2].
      * rewrite Ho by congruence. exact Hnl.
      * intros y Hy. destruct (AccountId_eq_dec y x) as [->|Hne].
        -- exists n'. split; [assumption|].
           destruct (Hall x Hy) as (n0 & Hn0 & Hd0 & _).
           split; [congruence | auto].
        -- rewrite Ho by assumption. destruct (Hall y Hy) as (n0 & Hn0 & Hd0 & Hg0).
           exists n0. split; [assumption|]. split; [assumption|].
           intros Hin. apply in_app_or in Hin. destruct Hin as [Hin|[<-|[]]]; [auto|].
           congruence.
Qed.

Lemma share_phase s tr s' :
  in_ceremony self s -> all_nodes self (fun _ n => initialised n) s ->
  share_genesis s = (tr, s', inr tt) ->
  in_ceremony self s' /\ exists G, all_nodes self (fun _ n => shares G n) s'.
Proof.
  intros Hs Hall Hrun. unfold share_genesis in Hrun.
  rewrite bind_get_self in Hrun.
  rewrite (bind_pure _ _ (node_ids_run Hs)) in Hrun.
  destruct (ceremony_fields Hs) as (El & _). rewrite El in Hrun.
  destruct (Hall _ lead_key) as (nl & Hnl & Hdl & Hgl).
  destruct (SpecNode.genesis nl) as [G|] eqn:EG; [|congruence].
  destruct (@share_loop nl (node_keys self) [] s tr s' Hs Hnl) as (Hs' & Hall').
  - intros y Hy. destruct (Hall y Hy) as (n & Hn & Hd & _).
    exists n. split; [assumption|]. split; [assumption | intros []].
  - exact Hrun.
  - split; [assumption|]. exists G. intros y Hy.
    destruct (Hall' y Hy) as (n & Hn & Hd & Hg). exists n. split; [assumption|].
    split; [assumption|]. rewrite <- EG. apply Hg. exact Hy.
Qed.

(** ** The configuration loop *)
Lemma ports_not_genesis je :
  In je (enumerate (dict_values ports)) -> config_file (snd je) <> genesis_json.
Proof.
  unfold ports, enumerate. simpl. intros H.
  repeat (destruct H as [<-|H]; [discriminate|]). contradiction.
Qed.

Lemma set_config_local x file v key :
  file <> genesis_json -> local self x keeps_genesis (call_set x file v key).
Proof.
  intros Hf. unfold call_set. eapply local_weaken; [apply local_call|].
  intros n n' H Hd. destruct (@set_view _ _ _ _ _ H Hd) as (H1 & _ & H3). auto.
Qed.

Lemma apply_config_overrides_local (self0 : Testnet SpecNode.Node) x :
  In x (node_keys self) ->
  local self x keeps_genesis (apply_config_overrides self0 x).
Proof.
  intros Hx. unfold apply_config_overrides.
  apply local_for; [exact Hx | exact keeps_genesis_refl | exact keeps_genesis_trans |].
  intros entry _.
  apply local_for; [exact Hx | exact keeps_genesis_refl | exact keeps_genesis_trans |].
  intros kv _.
  destruct (isinstance_str (snd kv)); apply set_config_local, config_toml_not_genesis.
Qed.

Lemma rewrite_ports_local x row :
  In x (node_keys self) -> local self x keeps_genesis (rewrite_ports x row).
Proof.
  intros Hx. unfold rewrite_ports.
  apply local_for; [exact Hx | exact keeps_genesis_refl | exact keeps_genesis_trans |].
  intros je Hje. destruct (nth_error row (fst je)) as [port|]; [|apply local_raise].
  unfold call_update_port. eapply local_weaken; [apply local_call|].
  intros n n' H Hd. destruct (@update_view _ _ _ _ _ H Hd) as (H1 & _ & H3).
  split; [assumption|]. apply H3. now apply ports_not_genesis.
Qed.

Lemma quiet_read_port_data x : quiet (read_port_data x).
Proof.
  unfold read_port_data. apply quiet_bind; [apply quiet_node_read|]. intros m.
  apply quiet_bind; [|intros; apply quiet_ret].
  apply quiet_mapM. intros e. apply quiet_call_get.
Qed.

Lemma configure_node_local (self0 : Testnet SpecNode.Node) locals x :
  In x (node_keys self) ->
  local self x keeps_genesis (configure_node self0 locals x).
Proof.
  intros Hx. unfold configure_node.
  apply local_seq; [exact keeps_genesis_trans | now apply apply_config_overrides_local |].
  intros _. apply local_seq; [exact keeps_genesis_trans | |].
  - destruct (id_eqb x (_lead_validator self0)).
    + apply local_quiet; [exact Hx | apply quiet_ret | exact keeps_genesis_refl].
    + destruct (list_pop (fst locals)) as [[rest row]|]; [|apply local_raise].
      apply local_seq; [exact keeps_genesis_trans | now apply rewrite_ports_local |].
      intros _. apply local_quiet; [exact Hx | apply quiet_ret | exact keeps_genesis_refl].
  - intros all_ports. apply local_seq; [exact keeps_genesis_trans | |].
    + apply local_quiet; [exact Hx | apply quiet_read_port_data | exact keeps_genesis_refl].
    + intros port_data.
      apply local_quiet; [exact Hx | apply quiet_ret | exact keeps_genesis_refl].
Qed.

Lemma config_phase G all_ports s tr s' data :
  in_ceremony self s -> all_nodes self (fun _ n => shares G n) s ->
  configure_nodes all_ports s = (tr, s', inr data) ->
  in_ceremony self s' /\ all_nodes self (fun _ n => shares G n) s'.
Proof.
  intros Hs Hall Hrun. unfold configure_nodes in Hrun.
  rewrite bind_get_self in Hrun.
  rewrite (bind_pure _ _ (node_ids_run Hs)) in Hrun.
  apply bind_ok in Hrun. destruct Hrun as (tr1 & s1 & locals & tr2 & H1 & H2 & _).
  apply ret_ok in H2. destruct H2 as (_ & -> & _).
  revert Hs Hall H1.
  apply all_nodes_fold with (Rel := fun _ => keeps_genesis).
  - intros b x Hx. now apply configure_node_local.
  - intros x n n' _ [Hd Hg] H. destruct (H Hd) as [Hd' Hg']. split; congruence.
Qed.

Lemma quiet_allocate_ports : quiet allocate_ports.
Proof.
  unfold allocate_ports. apply quiet_bind; [apply quiet_attr|]. intros validators.
  apply quiet_bind; [apply quiet_emit|]. intros _.
  apply quiet_bind; [apply quiet_lift|]. intros flat. apply quiet_lift.
Qed.

Lemma quiet_print_tables data : quiet (print_tables data).
Proof.
  unfold print_tables. apply quiet_bind; [apply quiet_get_self|]. intros self0.
  destruct (verbose self0); [|apply quiet_ret].
  apply quiet_bind; [apply quiet_attr|]. intros validators.
  apply quiet_bind; [apply quiet_attr|]. intros accounts.
  apply quiet_bind; [apply quiet_emit|]. intros _.
  apply quiet_bind; [apply quiet_emit|]. intros _. apply quiet_emit.
Qed.

(** ** The gentx loop *)
Lemma validator_lookup x :
  In x (node_keys self) ->
  dict_get AccountId_eq_dec x (the_validators self) = Some (validator_of w self x).
Proof.
  intros Hx. unfold the_validators. rewrite dict_comp_get; [reflexivity|].
  now apply first_occurrences_in.
Qed.

Lemma readdress_local x v p2p :
  local self x
    (fun n n' =>
       forall g, SpecNode.gentx_dir n = [g] -> SpecNode.gx_validator g = v ->
         SpecNode.genesis n' = SpecNode.genesis n
         /\ SpecNode.staged n' = SpecNode.staged n
         /\ exists g', SpecNode.gentx_dir n' = [g']
                       /\ SpecNode.gx_validator g' = v
                       /\ SpecNode.gx_stake g' = SpecNode.gx_stake g
                       /\ SpecNode.gx_signed_by g' = Some v)
    (readdress_gentx x v p2p).
Proof.
  intros s tr s' [] Hs Hrun. unfold readdress_gentx in Hrun.
  apply bind_ok in Hrun. destruct Hrun as (tr1 & s1 & files & tr2 & H1 & H2 & _).
  apply node_read_run in H1. destruct H1 as (-> & n & Hn & Hfiles).
  destruct files as [|gentx_file more]; [discriminate H2|].
  apply bind_ok in H2. destruct H2 as (tr3 & s3 & laddr & tr4 & H3 & H4 & _).
  apply quiet_call_get in H3. subst s3.
  destruct laddr as [laddr| |]; try discriminate H4.
  apply bind_ok in H4. destruct H4 as (tr5 & s5 & [] & tr6 & H5 & H6 & _).
  unfold call_update_port in H5.
  destruct (node_call_run _ _ _ Hs H5) as (Hs5 & Ho5 & n0 & n1 & Hn0 & Hn1 & Hm5).
  apply bind_ok in H6. destruct H6 as (tr7 & s7 & home & tr8 & H7 & H8 & _).
  apply node_read_run in H7. destruct H7 as (-> & n1' & Hn1' & Hhome).
  destruct (node_call_run _ _ _ Hs5 H8) as (Hs8 & Ho8 & n1'' & n2 & Hn1'' & Hn2 & Hm8).
  assert (n0 = n) by congruence. subst n0.
  assert (n1' = n1) by congruence. subst n1'.
  assert (n1'' = n1) by congruence. subst n1''.
  split; [exact Hs8|]. split.
  - intros y Hy. rewrite Ho8, Ho5 by assumption. reflexivity.
  - exists n, n2. split; [assumption|]. split; [assumption|].
    intros g Hd Hv.
    change (gentx_file :: more = map SpecNode.gentx_path (SpecNode.gentx_dir n)) in Hfiles.
    rewrite Hd in Hfiles. simpl in Hfiles. inversion Hfiles; subst gentx_file more.
    destruct (@update_gentx_view _ _ _ _ Hm5 Hd)
      as (Hg1 & Hst1 & Hh1 & g1 & Hd1 & Hv1 & Hk1).
    change (home = SpecNode.home_dir n1) in Hhome. subst home.
    rewrite (@gentx_path_validator g g1) in Hm8 by congruence.
    destruct (@sign_view _ _ _ _ Hm8 Hd1) as (Hg2 & Hst2 & g2 & Hd2 & Hv2 & Hk2 & Hsig).
    split; [congruence|]. split; [congruence|].
    exists g2. repeat split; congruence.
Qed.

Lemma stage_gentx_local (self0 : Testnet SpecNode.Node) x :
  _lead_validator self0 = _lead_validator self ->
  validator_balance self0 = validator_balance self ->
  denom self0 = denom self ->
  In x (node_keys self) ->
  local self x
    (fun n n' =>
       SpecNode.gentx_dir n = [] ->
       SpecNode.genesis n' = SpecNode.genesis n
       /\ SpecNode.staged n' = Some (validator_of w self x)
       /\ exists g, SpecNode.gentx_dir n' = [g]
                    /\ SpecNode.gx_validator g = validator_of w self x
                    /\ SpecNode.gx_stake g = self_stake self
                    /\ SpecNode.gx_signed_by g = Some (validator_of w self x))
    (stage_gentx self0 x).
Proof.
  intros El Eb Ed Hx s tr s' [] Hs Hrun. unfold stage_gentx in Hrun.
  rewrite (bind_pure _ _ (attr_validators_run Hs)) in Hrun.
  unfold subscript at 1 in Hrun. rewrite (@validator_lookup x Hx) in Hrun.
  rewrite bind_ret in Hrun.
  apply bind_ok in Hrun. destruct Hrun as (tr1 & s1 & [] & tr2 & H1 & H2 & _).
  destruct (node_call_run _ _ _ Hs H1) as (Hs1 & Ho1 & n & n1 & Hn & Hn1 & Hm1).
  apply bind_ok in H2. destruct H2 as (tr3 & s3 & p2p & tr4 & H3 & H4 & _).
  apply quiet_subscript in H3. subst s3.
  apply bind_ok in H4. destruct H4 as (tr5 & s5 & [] & tr6 & H5 & H6 & _).
  destruct (node_call_run _ _ _ Hs1 H5) as (Hs5 & Ho5 & n1' & n2 & Hn1' & Hn2 & Hm5).
  assert (n1' = n1) by congruence. subst n1'.
  rewrite Eb, Ed in Hm5.
  destruct (@add_key_view _ _ _ Hm1) as (Hd1 & Hg1).
  destruct (id_eqb x (_lead_validator self0)).
  - apply ret_ok in H6. destruct H6 as (_ & -> & _).
    split; [exact Hs5|]. split.
    + intros y Hy. rewrite Ho5, Ho1 by assumption. reflexivity.
    + exists n, n2. split; [assumption|]. split; [assumption|]. intros Hd.
      destruct (@add_validator_view _ _ _ _ _ Hm5) as (Hg2 & Hst2 & g & Hd2 & Hv & Hk & Hsig);
        [congruence|].
      split; [congruence|]. split; [assumption|]. exists g. auto.
  - destruct (@readdress_local x _ p2p s5 tr6 s' tt Hs5 H6) as (Hs6 & Ho6 & n2' & n3 & Hn2' & Hn3 & HR).
    assert (n2' = n2) by congruence. subst n2'.
    split; [exact Hs6|]. split.
    + intros y Hy. rewrite Ho6, Ho5, Ho1 by assumption. reflexivity.
    + exists n, n3. split; [assumption|]. split; [assumption|]. intros Hd.
      destruct (@add_validator_view _ _ _ _ _ Hm5) as (Hg2 & Hst2 & g & Hd2 & Hv & Hk & Hsig);
        [congruence|].
      destruct (HR g Hd2 Hv) as (Hg3 & Hst3 & g3 & Hd3 & Hv3 & Hk3 & Hsig3).
      split; [congruence|]. split; [congruence|].
      exists g3. unfold self_stake. repeat split; congruence.
Qed.

Lemma gentx_phase G s tr s' :
  in_ceremony self s -> all_nodes self (fun _ n => shares G n) s ->
  stage_gentxs s = (tr, s', inr tt) ->
  in_ceremony self s'
  /\ all_nodes self
       (fun x n => staged_own G (validator_of w self x) (self_stake self) n) s'.
Proof.
  intros Hs Hall Hrun. unfold stage_gentxs in Hrun.
  rewrite bind_get_self in Hrun.
  rewrite (bind_pure _ _ (node_ids_run Hs)) in Hrun.
  destruct (ceremony_fields Hs) as (El & _ & _ & _ & Eb & Ed).
  revert Hs Hall Hrun.
  apply all_nodes_loop
    with (Rel := fun x n n' =>
            SpecNode.gentx_dir n = [] ->
            SpecNode.genesis n' = SpecNode.genesis n
            /\ SpecNode.staged n' = Some (validator_of w self x)
            /\ exists g, SpecNode.gentx_dir n' = [g]
                         /\ SpecNode.gx_validator g = validator_of w self x
                         /\ SpecNode.gx_stake g = self_stake self
                         /\ SpecNode.gx_signed_by g = Some (validator_of w self x)).
  - intros x Hx. now apply stage_gentx_local.
  - intros x n n' _ [Hd Hg] H. destruct (H Hd) as (Hg' & Hst & Hex).
    split; [congruence|]. split; assumption.
Qed.

(** ** The all-pairs exchange *)
Lemma validator_of_inj x y :
  validator_of w self x = validator_of w self y -> x = y.
Proof. intros H. exact (f_equal acc_name H). Qed.

Section Exchange.
Variable G : SpecNode.Genesis.
Variable own : AccountId -> SpecNode.Gentx.
Hypothesis Hown :
  forall y, In y (node_keys self) ->
            SpecNode.gx_validator (own y) = validator_of w self y.

Lemma exchange_step a b s tr s' :
  in_ceremony self s -> all_nodes self (exchanging w self G own) s -> a <> b ->
  node_call2 a b (EvCopyGentxFrom a b) node_copy_gentx_from s = (tr, s', inr tt) ->
  in_ceremony self s'
  /\ all_nodes self (exchanging w self G own) s'
  /\ holds s' a (own b)
  /\ (forall x y, In y (node_keys self) -> holds s x (own y) -> holds s' x (own y)).
Proof.
  intros Hs Hall Hab Hrun.
  destruct (node_call2_run _ _ _ _ Hs Hrun)
    as (Hs' & Ho & n & nb & n' & Hn & Hb & Hn' & Hm).
  pose proof (@node_of_in _ _ self s a n Hs Hn) as Ha.
  pose proof (@node_of_in _ _ self s b nb Hs Hb) as Hbk.
  destruct (Hall a Ha) as (n0 & Hn0 & Hg & Hst & Hfind & Hmem & Hnd).
  assert (n0 = n) by congruence. subst n0.
  destruct (Hall b Hbk) as (nb0 & Hnb0 & Hgb & Hstb & Hfindb & Hmemb & Hndb).
  assert (nb0 = nb) by congruence. subst nb0.
  destruct (@copy_gentx_view _ _ _ Hm) as (Hg' & Hst' & v & g & Hv & Hf & Hd').
  assert (v = validator_of w self b) by congruence. subst v.
  assert (g = own b) by congruence. subst g.
  assert (Hne : validator_of w self a <> SpecNode.gx_validator (own b)).
  { rewrite Hown by assumption. intros E. apply Hab. now apply validator_of_inj. }
  split; [assumption|]. split; [|split].
  - intros y Hy. destruct (AccountId_eq_dec y a) as [->|Hya].
    + exists n'. split; [assumption|].
      split; [congruence|]. split; [congruence|]. split; [|split].
      * rewrite Hd'. rewrite find_store_other by assumption. exact Hfind.
      * intros g Hin. rewrite Hd' in Hin. apply store_in in Hin.
        destruct Hin as [->|Hin]; [eauto | auto].
      * rewrite Hd'. now apply store_nodup.
    + rewrite Ho by assumption. apply Hall, Hy.
  - exists n'. split; [assumption|]. rewrite Hd'. apply store_has.
  - intros x y Hy (nx & Hnx & Hin).
    destruct (AccountId_eq_dec x a) as [->|Hxa].
    + assert (nx = n) by congruence. subst nx.
      exists n'. split; [assumption|]. rewrite Hd'.
      destruct (AccountId_eq_dec y b) as [->|Hyb]; [apply store_has|].
      apply store_keeps; [assumption|].
      rewrite !Hown by assumption. intros E. apply Hyb. now apply validator_of_inj.
    + exists nx. rewrite Ho by assumption. auto.
Qed.

Lemma exchange_inner a bs :
  forall s tr s',
    in_ceremony self s -> all_nodes self (exchanging w self G own) s ->
    for_ bs (fun id_b =>
      if id_eqb a id_b then ret tt
      else node_call2 a id_b (EvCopyGentxFrom a id_b) node_copy_gentx_from) s
    = (tr, s', inr tt) ->
    in_ceremony self s'
    /\ all_nodes self (exchanging w self G own) s'
    /\ (forall b, In b bs -> In b (node_keys self) -> b <> a -> holds s' a (own b))
    /\ (forall x y, In y (node_keys self) -> holds s x (own y) -> holds s' x (own y)).
Proof.
  induction bs as [|b r IH]; intros s tr s' Hs Hall Hrun; simpl in Hrun.
  - apply ret_ok in Hrun. destruct Hrun as (_ & -> & _).
    split; [assumption|]. split; [assumption|]. split; [intros b []|auto].
  - apply bind_ok in Hrun. destruct Hrun as (tr1 & s1 & [] & tr2 & H1 & H2 & _).
    destruct (id_eqb a b) eqn:E.
    + apply ret_ok in H1. destruct H1 as (_ & -> & _).
      apply id_eqb_true in E. subst b.
      destruct (IH _ _ _ Hs Hall H2) as (Hs' & Hall' & Hhas & Hmono).
      split; [assumption|]. split; [assumption|]. split; [|assumption].
      intros b [<-|Hin] Hk Hne; [congruence | auto].
    + apply id_eqb_false in E.
      destruct (exchange_step Hs Hall E H1) as (Hs1 & Hall1 & Hhas1 & Hmono1).
      destruct (IH _ _ _ Hs1 Hall1 H2) as (Hs' & Hall' & Hhas & Hmono).
      split; [assumption|]. split; [assumption|]. split; [|auto].
      intros c [<-|Hin] Hk Hne; [auto | auto].
Qed.

Lemma exchange_outer ids nodes_a :
  forall s tr s',
    in_ceremony self s -> all_nodes self (exchanging w self G own) s ->
    for_ nodes_a (fun id_a =>
      for_ ids (fun id_b =>
        if id_eqb id_a id_b then ret tt
        else node_call2 id_a id_b (EvCopyGentxFrom id_a id_b) node_copy_gentx_from)) s
    = (tr, s', inr tt) ->
    in_ceremony self s'
    /\ all_nodes self (exchanging w self G own) s'
    /\ (forall a b, In a nodes_a -> In b ids -> In b (node_keys self) -> b <> a ->
                    holds s' a (own b))
    /\ (forall x y, In y (node_keys self) -> holds s x (own y) -> holds s' x (own y)).
Proof.
  induction nodes_a as [|a r IH]; intros s tr s' Hs Hall Hrun; simpl in Hrun.
  - apply ret_ok in Hrun. destruct Hrun as (_ & -> & _).
    split; [assumption|]. split; [assumption|]. split; [intros a b []|auto].
  - apply bind_ok in Hrun. destruct Hrun as (tr1 & s1 & [] & tr2 & H1 & H2 & _).
    destruct (exchange_inner _ _ Hs Hall H1) as (Hs1 & Hall1 & Hhas1 & Hmono1).
    destruct (IH _ _ _ Hs1 Hall1 H2) as (Hs' & Hall' & Hhas & Hmono).
    split; [assumption|]. split; [assumption|]. split; [|auto].
    intros c b [<-|Hin] Hb Hk Hne; [auto | auto].
Qed.

Lemma exchange_complete s tr s' :
  in_ceremony self s -> all_nodes self (exchanging w self G own) s ->
  exchange_gentxs s = (tr, s', inr tt) ->
  in_ceremony self s'
  /\ all_nodes self
       (fun x n => exchanging w self G own x n
                   /\ forall y, In y (node_keys self) ->
                                In (own y) (SpecNode.gentx_dir n)) s'.
Proof.
  intros Hs Hall Hrun. unfold exchange_gentxs in Hrun.
  rewrite (bind_pure _ _ (node_ids_run Hs)) in Hrun.
  destruct (exchange_outer _ _ Hs Hall Hrun) as (Hs' & Hall' & Hhas & _).
  split; [assumption|]. intros x Hx.
  destruct (Hall' x Hx) as (n & Hn & Hex). exists n. split; [assumption|].
  split; [assumption|]. intros y Hy.
  destruct (AccountId_eq_dec y x) as [->|Hne].
  - destruct Hex as (_ & _ & Hfind & _). now apply find_in in Hfind.
  - destruct (Hhas x y Hx Hy Hy Hne) as (n0 & Hn0 & Hin). congruence.
Qed.
End Exchange.

(** ** The collection *)
Lemma nodup_map_on (A B : Type) (f : A -> B) l :
  NoDup l -> (forall x y, In x l -> In y l -> f x = f y -> x = y) ->
  NoDup (map f l).
Proof.
  induction 1 as [|x r Hx Hnd IH]; intros Hinj; simpl; constructor.
  - intros Hin. apply in_map_iff in Hin. destruct Hin as (y & Hy & Hiny).
    assert (y = x) by (apply Hinj; simpl; auto). subst y. contradiction.
  - apply IH. intros a b Ha Hb. apply Hinj; simpl; auto.
Qed.

Lemma staged_exchanging G s :
  all_nodes self
    (fun x n => staged_own G (validator_of w self x) (self_stake self) n) s ->
  all_nodes self (exchanging w self G (own_gentx w self s)) s
  /\ forall y, In y (node_keys self) ->
       SpecNode.gx_validator (own_gentx w self s y) = validator_of w self y
       /\ SpecNode.gx_stake (own_gentx w self s y) = self_stake self.
Proof.
  intros Hall.
  assert (Hown : forall y, In y (node_keys self) ->
            exists n, node_of s y = Some n
                      /\ SpecNode.gentx_dir n = [own_gentx w self s y]
                      /\ SpecNode.genesis n = Some G
                      /\ SpecNode.staged n = Some (validator_of w self y)
                      /\ SpecNode.gx_validator (own_gentx w self s y)
                         = validator_of w self y
                      /\ SpecNode.gx_stake (own_gentx w self s y) = self_stake self).
  { intros y Hy. destruct (Hall y Hy) as (n & Hn & Hg & Hst & g & Hd & Hv & Hk & _).
    exists n. unfold own_gentx. rewrite Hn, Hd. repeat split; assumption. }
  split.
  - intros x Hx. destruct (Hown x Hx) as (n & Hn & Hd & Hg & Hst & Hv & Hk).
    exists n. split; [assumption|]. split; [assumption|]. split; [assumption|].
    rewrite Hd. split; [|split].
    + cbn [SpecNode.find_gentx]. rewrite Hv.
      destruct (SpecNode.Account_eq_dec (validator_of w self x) (validator_of w self x));
        [reflexivity | congruence].
    + intros g [<-|[]]. eauto.
    + cbn [map]. constructor; [simpl; tauto | constructor].
  - intros y Hy. destruct (Hown y Hy) as (n & _ & _ & _ & _ & Hv & Hk). auto.
Qed.

Lemma expected_validators_own (own : AccountId -> SpecNode.Gentx) :
  (forall y, In y (node_keys self) ->
     SpecNode.gx_validator (own y) = validator_of w self y
     /\ SpecNode.gx_stake (own y) = self_stake self) ->
  expected_validators w self
  = map SpecNode.validator_entry (map own (node_keys self)).
Proof.
  intros Hown. unfold expected_validators, the_validators.
  rewrite dict_comp_values. rewrite !map_map. apply map_ext_in.
  intros y Hy. destruct (Hown y Hy) as [Hv Hk].
  unfold SpecNode.validator_entry. rewrite Hv, Hk. reflexivity.
Qed.

Lemma collected_validators G (own : AccountId -> SpecNode.Gentx) x n :
  (forall y, In y (node_keys self) ->
     SpecNode.gx_validator (own y) = validator_of w self y
     /\ SpecNode.gx_stake (own y) = self_stake self) ->
  exchanging w self G own x n ->
  (forall y, In y (node_keys self) -> In (own y) (SpecNode.gentx_dir n)) ->
  Permutation (map SpecNode.validator_entry (SpecNode.gentx_dir n))
    (expected_validators w self).
Proof.
  intros Hown (_ & _ & _ & Hmem & Hnd) Hall.
  rewrite (expected_validators_own own Hown). apply Permutation_map.
  apply NoDup_Permutation.
  - eapply NoDup_map_inv, Hnd.
  - apply nodup_map_on; [apply keys_nodup|].
    intros a b Ha Hb E. apply validator_of_inj.
    rewrite <- (proj1 (Hown a Ha)), <- (proj1 (Hown b Hb)). now rewrite E.
  - intros g. split.
    + intros Hin. destruct (Hmem g Hin) as (y & Hy & ->). now apply in_map.
    + intros Hin. apply in_map_iff in Hin. destruct Hin as (y & <- & Hy). auto.
Qed.

Lemma collect_phase G (own : AccountId -> SpecNode.Gentx) s tr s' :
  (forall y, In y (node_keys self) ->
     SpecNode.gx_validator (own y) = validator_of w self y
     /\ SpecNode.gx_stake (own y) = self_stake self) ->
  in_ceremony self s ->
  all_nodes self
    (fun x n => exchanging w self G own x n
                /\ forall y, In y (node_keys self) ->
                             In (own y) (SpecNode.gentx_dir n)) s ->
  collect_gentxs s = (tr, s', inr tt) ->
  in_ceremony self s'
  /\ all_nodes self
       (fun _ n => exists g,
          SpecNode.genesis n = Some g
          /\ SpecNode.gen_balances g = SpecNode.gen_balances G
          /\ Permutation (SpecNode.gen_validators g) (expected_validators w self)) s'.
Proof.
  intros Hown Hs Hall Hrun. unfold collect_gentxs in Hrun.
  rewrite (bind_pure _ _ (node_ids_run Hs)) in Hrun.
  revert Hs Hall Hrun.
  apply all_nodes_loop with (Rel := fun _ n n' => SpecNode.collect_gentx n = inr n').
  - intros x Hx. apply local_call.
  - intros x n n' _ [Hex Hin] Hc.
    destruct (@collect_view _ _ Hc) as (g & Hg & Hg').
    destruct Hex as (HG & Hrest).
    assert (g = G) by congruence. subst g.
    eexists. split; [exact Hg'|]. split; [reflexivity|]. simpl.
    eapply collected_validators; [exact Hown | split; [exact HG | exact Hrest] | exact Hin].
Qed.

(** ** [prepare] *)
Lemma prepare_agreement :
  value_of (prepare self) = inr tt ->
  exists G,
    all_nodes self
      (fun _ n => exists g,
         SpecNode.genesis n = Some g
         /\ SpecNode.gen_balances g = SpecNode.gen_balances G
         /\ Permutation (SpecNode.gen_validators g) (expected_validators w self))
      (state_of (prepare self))
    /\ in_ceremony self (state_of (prepare self)).
Proof.
  intros Hok0. pose proof (prepare_made_dir self Hok0) as Hmk. revert Hok0.
  rewrite (prepare_run self Hmk).
  unfold value_of at 1, state_of at 1 3. simpl fst. simpl snd.
  intros Hok.
  pose proof (run_eta ((stage_ceremony;; exchange_gentxs;; collect_gentxs)
                         (after_create self))) as Hrun.
  rewrite Hok in Hrun.
  apply bind_ok in Hrun. destruct Hrun as (t1 & s5 & [] & t2 & Hstage & Hrest & _).
  apply bind_ok in Hrest. destruct Hrest as (t3 & s6 & [] & t4 & Hex & Hcol & _).
  unfold stage_ceremony in Hstage.
  apply bind_ok in Hstage. destruct Hstage as (u1 & s1 & [] & u2 & Hinit & Hstage & _).
  apply bind_ok in Hstage. destruct Hstage as (u3 & s2 & [] & u4 & Hover & Hstage & _).
  apply bind_ok in Hstage. destruct Hstage as (u5 & s3 & [] & u6 & Hfv & Hstage & _).
  apply bind_ok in Hstage. destruct Hstage as (u7 & s4 & [] & u8 & Hfa & Hstage & _).
  apply bind_ok in Hstage. destruct Hstage as (u9 & s4' & [] & u10 & Hshare & Hstage & _).
  apply bind_ok in Hstage. destruct Hstage as (v1 & s4a & all_ports & v2 & Halloc & Hstage & _).
  apply bind_ok in Hstage. destruct Hstage as (v3 & s4b & data & v4 & Hconf & Hstage & _).
  apply bind_ok in Hstage. destruct Hstage as (v5 & s4c & [] & v6 & Hprint & Hgentx & _).
  destruct (init_phase (after_create_in_ceremony self) created_fresh Hinit) as (I1 & A1).
  destruct (all_nodes_local overrides_local initialised_kept
              (P := fun _ n => initialised n) I1 A1 Hover) as (I2 & A2).
  destruct (all_nodes_local fund_validators_local initialised_kept
              (P := fun _ n => initialised n) I2 A2 Hfv) as (I3 & A3).
  destruct (all_nodes_local fund_accounts_local initialised_kept
              (P := fun _ n => initialised n) I3 A3 Hfa) as (I4 & A4).
  destruct (share_phase I4 A4 Hshare) as (I5 & G & A5).
  apply quiet_allocate_ports in Halloc. subst s4a.
  destruct (@config_phase G all_ports _ _ _ _ I5 A5 Hconf) as (I6 & A6).
  apply quiet_print_tables in Hprint. subst s4c.
  destruct (@gentx_phase G _ _ _ I6 A6 Hgentx) as (I7 & A7).
  destruct (@staged_exchanging G _ A7) as (A8 & Hown).
  destruct (@exchange_complete G _ (fun y Hy => proj1 (Hown y Hy)) _ _ _ I7 A8 Hex)
    as (I9 & A9).
  destruct (@collect_phase G _ _ _ _ Hown I9 A9 Hcol) as (I10 & A10).
  exists G. split; [exact A10 | exact I10].
Qed.
End Agreement.

(** C1: when [prepare] returns on a network whose lead is the first
    validator, any two nodes hold genesis documents with the same balances
    and the same validator set up to the order of the entries; every
    validator has a node, and the validator set of every node is the set of
    all validator identities, each with the self-stake [validator_balance]. *)
Theorem prepared_nodes_agree_on_genesis (w : SpecNode.World)
    (self : Testnet SpecNode.Node)
    (Hlead : lead_first self)
    (Hok : value_of (prepare (API := SpecNode.api w) self) = inr tt) :
  let s := state_of (prepare (API := SpecNode.api w) self) in
  nodes_agree s
  /\ (forall x, In x (_validator_ids self) -> exists n, node_of s x = Some n)
  /\ (forall x n,
        node_of s x = Some n ->
        exists g,
          SpecNode.genesis n = Some g
          /\ Permutation (SpecNode.gen_validators g) (expected_validators w self)).
Proof.
  intros s. destruct (prepare_agreement w Hlead Hok) as (G & Hall & Hs). fold s in Hall, Hs.
  assert (Hnode : forall x n, node_of s x = Some n ->
            exists g, SpecNode.genesis n = Some g
                      /\ SpecNode.gen_balances g = SpecNode.gen_balances G
                      /\ Permutation (SpecNode.gen_validators g) (expected_validators w self)).
  { intros x n Hn.
    pose proof (@node_of_in _ (SpecNode.api w) self s x n Hs Hn) as Hx.
    destruct (Hall x Hx) as (n0 & Hn0 & H).
    assert (n0 = n) by congruence. subst n0. exact H. }
  split; [|split].
  - intros x y nx ny Hx Hy.
    destruct (Hnode x nx Hx) as (gx & Hgx & Hbx & Hvx).
    destruct (Hnode y ny Hy) as (gy & Hgy & Hby & Hvy).
    exists gx, gy. split; [assumption|]. split; [assumption|]. split.
    + eapply Permutation_trans; [exact Hvx | apply Permutation_sym, Hvy].
    + congruence.
  - intros x Hx. destruct (Hall x) as (n & Hn & _); [|eauto].
    now apply first_occurrences_in.
  - intros x n Hn. destruct (Hnode x n Hn) as (g & Hg & _ & Hv). eauto.
Qed.


(** * The theorems on a concrete network *)

(** C1 on three validators. *)
Lemma prepared_nodes_agree_on_genesis_net3 :
  lead_first Simd.net3
  /\ value_of (prepare (API := SpecNode.api Simd.world) Simd.net3) = inr tt
  /\ nodes_agree (state_of (prepare (API := SpecNode.api Simd.world) Simd.net3)).
Proof.
  assert (Hlead : lead_first Simd.net3) by reflexivity.
  assert (Hok : value_of (prepare (API := SpecNode.api Simd.world) Simd.net3) = inr tt)
    by (vm_compute; reflexivity).
  split; [exact Hlead|]. split; [exact Hok|].
  exact (proj1 (prepared_nodes_agree_on_genesis Simd.world Hlead Hok)).
Defined.

(** C2 on three validators. *)
Lemma lead_is_single_source_of_genesis_net3 :
  lead_first Simd.net3
  /\ Forall (genesis_from_lead Simd.net3) (trace_of (prepare (API := Simd.api) Simd.net3))
  /\ get_grpc_channel (API := Simd.api) Simd.net3 None
     = get_grpc_channel (API := Simd.api) Simd.net3 (Some (IdInt 0)).
Proof.
  assert (Hlead : lead_first Simd.net3) by reflexivity.
  pose proof (@lead_is_single_source_of_genesis _ Simd.api _ Simd.chain_api
                Simd.net3 Hlead) as (_ & _ & Hfrom & _ & _ & Hchannel).
  split; [exact Hlead|]. split; [exact Hfrom | exact Hchannel].
Defined.

(** C3 on three validators: sixteen ports in two rows, the last row for the
    first follower. *)
Lemma ports_assigned_by_node_and_role_net3 :
  value_of (prepare (API := Simd.api) Simd.net3) = inr tt
  /\ exists rows,
       List.length rows = 2%nat
       /\ filter is_port_assignment (trace_of (prepare (API := Simd.api) Simd.net3))
          = block_assignment (IdInt 1) (nth 1 rows [])
            ++ block_assignment (IdInt 2) (nth 0 rows []).
Proof.
  assert (Hok : value_of (prepare (API := Simd.api) Simd.net3) = inr tt)
    by (vm_compute; reflexivity).
  split; [exact Hok|].
  destruct (@ports_assigned_by_node_and_role _ Simd.api Simd.net3 Hok)
    as (flat & rows & Hflat & Hrows & _ & _ & _ & Hassign & _).
  exists rows.
  assert (Hlen : List.length rows = 2%nat).
  { vm_compute in Hflat. inversion Hflat; subst flat.
    vm_compute in Hrows. inversion Hrows; subst rows. reflexivity. }
  split; [exact Hlen|].
  rewrite Hassign, Hlen. reflexivity.
Defined.


(** C7 on an account without a seed. *)
Lemma broadcast_without_mnemonic_fails_first_net1 :
  mnemonic (mkAccount (IdStr "alice") "acc" None None) = None
  /\ broadcast_transaction (API := Simd.api) (CAPI := Simd.chain_api)
       (finalize_accounts (API := Simd.api) Simd.net1) (IdStr "alice")
       (OneMsg "send") 200000 2000 None Simd.chain0
     = ([], Simd.chain0, inl ValueError).
Proof.
  split; [reflexivity|].
  apply (@broadcast_without_mnemonic_fails_first _ Simd.api _ Simd.chain_api
           (finalize_accounts (API := Simd.api) Simd.net1) (IdStr "alice")
           (OneMsg "send") 200000 2000 None Simd.chain0
           [(IdStr "alice", mkAccount (IdStr "alice") "acc" None None)]
           (mkAccount (IdStr "alice") "acc" None None));
    reflexivity.
Defined.

(** C8 on the prepared network: the account query answers number 7 and
    sequence 0, and the transaction carries them. *)
Lemma broadcast_signs_queried_numbers_net3 :
  get_grpc_channel (API := Simd.api) Simd.net3_prepared (Some (IdInt 0))
  = inr ("0.0.0.0", 9090%Z)
  /\ @auth_account _ Simd.chain_api Simd.chain0 "0.0.0.0" 9090 "cosmos1acc0"
     = inr (mkBaseAccount "cosmos1acc0" 7 0)
  /\ filter is_broadcast
       (trace_of
          (broadcast_transaction (API := Simd.api) (CAPI := Simd.chain_api)
             Simd.net3_prepared (IdInt 0) (OneMsg "send") 200000 2000 None Simd.chain0))
     = [EvBroadcastTx
          (mkTx "seed/acc/0" 118 "test-1" ["send"] (mkFee 200000 "2000stake") 7 0)
          BROADCAST_MODE_BLOCK (inr (mkTxResponse 0 "[]" 11 "A1B2"))]
  /\ value_of
       (broadcast_transaction (API := Simd.api) (CAPI := Simd.chain_api)
          Simd.net3_prepared (IdInt 0) (OneMsg "send") 200000 2000 None Simd.chain0)
     = inr (mkTxResponse 0 "[]" 11 "A1B2").
Proof.
  assert (Hch : get_grpc_channel (API := Simd.api) Simd.net3_prepared (Some (IdInt 0))
                = inr ("0.0.0.0", 9090%Z)) by (vm_compute; reflexivity).
  assert (Hinfo : @auth_account _ Simd.chain_api Simd.chain0 "0.0.0.0" 9090 "cosmos1acc0"
                  = inr (mkBaseAccount "cosmos1acc0" 7 0)) by reflexivity.
  split; [exact Hch|]. split; [exact Hinfo|].
  assert (Haccs : accounts Simd.net3_prepared
                  = Some [(IdInt 0, mkAccount (IdInt 0) "acc" (Some "seed") (Some "seed/acc/0"));
                          (IdInt 1, mkAccount (IdInt 1) "acc" (Some "seed") (Some "seed/acc/1"))])
    by (vm_compute; reflexivity).
  pose proof (@broadcast_signs_queried_numbers_and_waits_for_commit
                _ Simd.api _ Simd.chain_api
                Simd.net3_prepared (IdInt 0) (OneMsg "send") 200000 2000 None Simd.chain0
                _ (mkAccount (IdInt 0) "acc" (Some "seed") (Some "seed/acc/0"))
                "seed/acc/0" ("0.0.0.0", 9090%Z) (mkBaseAccount "cosmos1acc0" 7 0)
                Haccs eq_refl eq_refl Hch Hinfo) as (Hvalue & _ & _ & Honce & _).
  split; [exact Honce | exact Hvalue].
Defined.

(** C9 on the prepared network. *)
Lemma teardown_returns_once_nodes_exist_net3 :
  validator_nodes Simd.net3_prepared <> None
  /\ value_of (teardown (API := Simd.api) Simd.net3_prepared) = inr tt
  /\ value_of (teardown (API := Simd.api)
                 (state_of (teardown (API := Simd.api) Simd.net3_prepared))) = inr tt.
Proof.
  assert (Hnodes : validator_nodes Simd.net3_prepared <> None)
    by (vm_compute; discriminate).
  pose proof (@teardown_returns_once_nodes_exist Simd.world Simd.net3_prepared Hnodes)
    as (H1 & H2 & _).
  split; [exact Hnodes|]. split; [exact H1 | exact H2].
Defined.


(** * The constructor and the identities *)

Section Construction.
Context {Node : Type} {API : NodeAPI Node}.

Lemma dict_get_absent (V : Type) k (d : dict AccountId V) :
  ~ In k (dict_keys d) -> dict_get AccountId_eq_dec k d = None.
Proof.
  intros H. destruct (dict_get AccountId_eq_dec k d) as [v|] eqn:E; [|reflexivity].
  apply dict_get_some_in in E. contradiction.
Qed.

Lemma py_range_nil n : py_range n = [] <-> (n <= 0)%Z.
Proof.
  unfold py_range. split.
  - intros H. destruct (Z.to_nat n) eqn:E; [lia | discriminate].
  - intros H. replace (Z.to_nat n) with 0%nat by lia. reflexivity.
Qed.

Lemma append_assoc (a b c : string) : (a +s+ b) +s+ c = a +s+ b +s+ c.
Proof. induction a as [|x a IH]; simpl; [reflexivity | now rewrite IH]. Qed.

Lemma concat_last (sep x p : string) (r : list string) :
  String.concat sep (p :: r ++ [x]) = String.concat sep (p :: r) +s+ sep +s+ x.
Proof.
  revert p. induction r as [|q r IH]; intros p; [reflexivity|].
  change (String.concat sep (p :: (q :: r) ++ [x]))
    with (p +s+ sep +s+ String.concat sep (q :: r ++ [x])).
  rewrite IH.
  change (String.concat sep (p :: q :: r))
    with (p +s+ sep +s+ String.concat sep (q :: r)).
  now rewrite !append_assoc.
Qed.

(** [Path(a) / VALIDATOR_DIR]: the components of [a], then
    [validator_nodes]. *)
Lemma path_join_validator_dir (a : string) :
  path_join a VALIDATOR_DIR
  = path_root (path_of a)
    +s+ match path_parts (path_of a) with
        | [] => VALIDATOR_DIR
        | parts => String.concat "/" parts +s+ "/" +s+ VALIDATOR_DIR
        end.
Proof.
  unfold path_join, path_div.
  change (path_of VALIDATOR_DIR) with (mkPath EmptyString [VALIDATOR_DIR]).
  cbn [path_root path_parts]. unfold path_text. cbn [path_root path_parts].
  destruct (path_parts (path_of a)) as [|part more].
  - destruct (path_root (path_of a)); reflexivity.
  - cbn [app]. rewrite <- (concat_last "/" VALIDATOR_DIR part more).
    destruct (path_root (path_of a)); reflexivity.
Qed.

(** X1: [Testnet(...)] raises [IndexError], and nothing else, exactly when
    the validators are an empty list (a count that is not positive is
    one); the object it returns holds the identifiers as given, the first
    validator as the lead, the binary as a path, and no [validators],
    [accounts] or [validator_nodes] yet; its data directory is
    [validator_nodes] inside the directory given: the components of that
    directory as [Path] keeps them, then [validator_nodes], with no slash
    added after a directory that has no component, and [validator_nodes]
    itself when no directory is given. *)
Theorem init_requires_a_validator (chain : string)
    (vs accs : IdsArg) (bin den prefix : string)
    (seed : option string) (coin : Z) (genesis_overrides : dict string Value)
    (node_overrides : dict string (dict string Value))
    (balance stake : Z) (overwrite_flag keep_flag verbose_flag : bool)
    (dir : option string) :
  match
    Testnet_init (Node := Node) chain vs accs bin den prefix seed coin
      genesis_overrides node_overrides balance stake overwrite_flag
      keep_flag verbose_flag dir
  with
  | inl e => e = IndexError /\ ids_of vs = []
  | inr t =>
      ids_of vs <> []
      /\ _validator_ids t = ids_of vs
      /\ _account_ids t = ids_of accs
      /\ lead_first t
      /\ binary t = path_text (path_of bin)
      /\ (forall d, dir = Some d ->
            data_dir t
            = path_root (path_of d)
              +s+ match path_parts (path_of d) with
                  | [] => VALIDATOR_DIR
                  | parts => String.concat "/" parts +s+ "/" +s+ VALIDATOR_DIR
                  end)
      /\ (dir = None -> data_dir t = VALIDATOR_DIR)
      /\ validators t = None /\ accounts t = None
      /\ validator_nodes t = None
  end
  /\ (forall n, ids_of (Count n) = [] <-> (n <= 0)%Z).
Proof.
  split; [|intros n; apply py_range_nil].
  unfold Testnet_init, set_validators, set_accounts.
  destruct (ids_of vs) as [|lead rest] eqn:E; cbn [nth_error].
  - auto.
  - unfold lead_first. cbn [_validator_ids _account_ids _lead_validator binary
                            data_dir validators accounts validator_nodes
                            with_validator_ids with_account_ids nth_error].
    split; [discriminate|]. split; [reflexivity|]. split; [reflexivity|].
    split; [reflexivity|]. split; [reflexivity|].
    split; [intros d ->; apply path_join_validator_dir|].
    split; [intros ->; reflexivity|]. auto.
Qed.

(** X2: [finalize_accounts] builds one identity for each distinct
    identifier, in the order of first occurrence: the validators in group
    ["val"], the accounts in group ["acc"], all from the one seed; an
    identifier that was not given has none; running it again changes
    nothing, and [validator_nodes] is left as it was. *)
Theorem finalize_accounts_one_identity_per_id (self : Testnet Node) :
  exists vals accs,
    validators (finalize_accounts self) = Some vals
    /\ accounts (finalize_accounts self) = Some accs
    /\ dict_keys vals = first_occurrences [] (_validator_ids self)
    /\ dict_keys accs = first_occurrences [] (_account_ids self)
    /\ NoDup (dict_keys vals) /\ NoDup (dict_keys accs)
    /\ (forall v, In v (_validator_ids self) ->
          dict_get AccountId_eq_dec v vals
          = Some (Account_new v "val" (_account_seed self)))
    /\ (forall a, In a (_account_ids self) ->
          dict_get AccountId_eq_dec a accs
          = Some (Account_new a "acc" (_account_seed self)))
    /\ (forall v, ~ In v (_validator_ids self) ->
          dict_get AccountId_eq_dec v vals = None)
    /\ (forall a, ~ In a (_account_ids self) ->
          dict_get AccountId_eq_dec a accs = None)
    /\ finalize_accounts (finalize_accounts self) = finalize_accounts self
    /\ validator_nodes (finalize_accounts self) = validator_nodes self.
Proof.
  eexists. eexists. split; [reflexivity|]. split; [reflexivity|].
  rewrite !dict_comp_keys.
  repeat split; try apply first_occurrences_nodup.
  - intros v Hv. now apply dict_comp_get.
  - intros a Ha. now apply dict_comp_get.
  - intros v Hv. apply dict_get_absent. rewrite dict_comp_keys.
    now rewrite first_occurrences_in.
  - intros a Ha. apply dict_get_absent. rewrite dict_comp_keys.
    now rewrite first_occurrences_in.
Qed.

Variable validator_address : Account -> string -> string.

(** X3: [val_addr] subscripts [self.accounts], as [acc_addr] does: without
    [valoper] it is [acc_addr]; on the object [finalize_accounts] leaves,
    an identifier that is not an account identifier is a [KeyError],
    validator or not, and the address of one that is comes from the
    identity of group ["acc"]; before [finalize_accounts] both raise
    [AttributeError]. *)
Theorem val_addr_subscripts_accounts (self : Testnet Node) (id : AccountId) :
  val_addr validator_address self id false = acc_addr self id
  /\ (accounts self = None ->
      forall valoper,
        val_addr validator_address self id valoper = inl AttributeError
        /\ acc_addr self id = inl AttributeError)
  /\ (~ In id (_account_ids self) ->
      forall valoper,
        val_addr validator_address (finalize_accounts self) id valoper = inl KeyError)
  /\ (In id (_account_ids self) ->
      val_addr validator_address (finalize_accounts self) id true
      = inr (validator_address (Account_new id "acc" (_account_seed self))
               (hrp_prefix self))
      /\ acc_addr (finalize_accounts self) id
         = inr (account_address (Account_new id "acc" (_account_seed self))
                  (hrp_prefix self))).
Proof.
  split; [reflexivity|]. split; [|split].
  - intros Hn valoper. unfold val_addr, acc_addr, the_account. rewrite Hn.
    destruct valoper; auto.
  - intros Hid valoper. unfold val_addr, the_account. simpl.
    rewrite dict_get_absent
      by (rewrite dict_comp_keys; now rewrite first_occurrences_in).
    destruct valoper; reflexivity.
  - intros Hid. unfold val_addr, acc_addr, the_account. simpl.
    rewrite dict_comp_get by assumption. auto.
Qed.
End Construction.


(** * The endpoints of a node *)

Lemma append_has_colon a b : has_colon (a +s+ b) = has_colon a || has_colon b.
Proof.
  induction a as [|c a IH]; simpl; [reflexivity|].
  destruct (Ascii.eqb c colon); [reflexivity | exact IH].
Qed.

Lemma split_first_colon host rest :
  has_colon host = false ->
  split_first (host +s+ String colon rest) = Some (host, rest).
Proof.
  induction host as [|c host IH]; simpl; intros H.
  - reflexivity.
  - destruct (Ascii.eqb c colon); [discriminate|]. now rewrite IH.
Qed.

Lemma split_first_none s : has_colon s = false -> split_first s = None.
Proof.
  induction s as [|c s IH]; simpl; intros H; [reflexivity|].
  destruct (Ascii.eqb c colon); [discriminate|]. now rewrite IH.
Qed.

Lemma split_first_some s a b :
  split_first s = Some (a, b) ->
  s = a +s+ String colon b /\ has_colon a = false.
Proof.
  revert a b. induction s as [|c s IH]; simpl; intros a b H; [discriminate|].
  destruct (Ascii.eqb c colon) eqn:E.
  - inversion H; subst. apply Ascii.eqb_eq in E. subst c. auto.
  - destruct (split_first s) as [[a' b']|]; [|discriminate].
    inversion H; subst. destruct (IH a' b eq_refl) as [-> Ha].
    split; [reflexivity|]. simpl. now rewrite E.
Qed.

Lemma digit_not_space c : is_digit c = true -> is_space c = false.
Proof.
  unfold is_digit, is_space. intros H. apply andb_true_iff in H.
  destruct H as [H1 H2]. apply Nat.leb_le in H1, H2.
  repeat match goal with
         | |- context [(?a <=? ?b)%nat] => destruct (Nat.leb_spec a b)
         | |- context [(?a =? ?b)%nat] => destruct (Nat.eqb_spec a b)
         end; simpl; try reflexivity; lia.
Qed.

Lemma digit_not_sign c :
  is_digit c = true ->
  Ascii.eqb c "+" = false /\ Ascii.eqb c "-" = false
  /\ Ascii.eqb c colon = false /\ Ascii.eqb c underscore = false.
Proof.
  intros H. repeat split;
    match goal with
    | |- Ascii.eqb c ?x = false =>
        destruct (Ascii.eqb_spec c x) as [->|]; [discriminate | reflexivity]
    end.
Qed.

Lemma digits_no_space s :
  all_chars is_digit s = true -> all_chars (fun c => negb (is_space c)) s = true.
Proof.
  induction s as [|c s IH]; simpl; [reflexivity|]. intros H.
  apply andb_true_iff in H. destruct H as [Hc Hs].
  now rewrite (digit_not_space _ Hc), IH.
Qed.

Lemma strip_no_space s :
  all_chars (fun c => negb (is_space c)) s = true -> strip s = s.
Proof.
  intros H. unfold strip.
  assert (Hl : lstrip s = s).
  { destruct s as [|c s]; [reflexivity|]. simpl in *.
    destruct (is_space c); [discriminate | reflexivity]. }
  rewrite Hl. clear Hl.
  induction s as [|c s IH]; [reflexivity|]. simpl in *.
  apply andb_true_iff in H. destruct H as [Hc Hs]. rewrite (IH Hs).
  destruct s; [|reflexivity]. destruct (is_space c); [discriminate | reflexivity].
Qed.

Lemma digit_groups_digits s b :
  all_chars is_digit s = true -> s <> EmptyString \/ b = true ->
  digit_groups b s = Some s.
Proof.
  revert b. induction s as [|c s IH]; simpl; intros b H Hb.
  - destruct Hb as [Hb| ->]; [now destruct Hb | reflexivity].
  - apply andb_true_iff in H. destruct H as [Hc Hs]. rewrite Hc.
    now rewrite (IH true Hs) by auto.
Qed.

Lemma nilempty_digits d : all_chars is_digit (NilEmpty.string_of_uint d) = true.
Proof. induction d; simpl; auto. Qed.

Lemma nilzero_digits d :
  all_chars is_digit (NilZero.string_of_uint d) = true
  /\ NilZero.string_of_uint d <> EmptyString.
Proof.
  unfold NilZero.string_of_uint. destruct d; simpl;
    (split; [try reflexivity; apply nilempty_digits | discriminate]).
Qed.

(** [int] reads back what [str] wrote. *)
Lemma py_int_str_int z : py_int (str_int z) = inr z.
Proof.
  assert (Hread : NilZero.int_of_string (str_int z) = Some (Z.to_int z)).
  { unfold str_int. rewrite NilZero.isi.
    - reflexivity.
    - destruct z; simpl; try discriminate.
      intros H. inversion H. now apply Unsigned.to_uint_nonnil in H1.
    - destruct z; simpl; try discriminate.
      intros H. inversion H. now apply Unsigned.to_uint_nonnil in H1. }
  assert (Hshape : py_int (str_int z)
                   = match NilZero.int_of_string (str_int z) with
                     | Some d => inr (Z.of_int d)
                     | None => inl ValueError
                     end).
  { unfold py_int, str_int, NilZero.string_of_int.
    destruct (Z.to_int z) as [d|d]; destruct (nilzero_digits d) as [Hd Hne].
    - rewrite (strip_no_space _ (digits_no_space _ Hd)).
      destruct (NilZero.string_of_uint d) as [|c r] eqn:E; [now destruct Hne|].
      unfold split_sign. simpl in Hd. apply andb_true_iff in Hd.
      destruct (digit_not_sign c (proj1 Hd)) as (-> & -> & _).
      cbn [fst snd]. rewrite digit_groups_digits; [reflexivity | | auto].
      simpl. now apply andb_true_iff.
    - rewrite strip_no_space
        by (simpl; now rewrite (digits_no_space _ Hd)).
      unfold split_sign. cbn [Ascii.eqb Bool.eqb fst snd].
      rewrite digit_groups_digits; [reflexivity | exact Hd | auto]. }
  rewrite Hshape, Hread. now rewrite DecimalZ.of_to.
Qed.

Lemma space_not_colon c : is_space c = true -> Ascii.eqb c colon = false.
Proof.
  intros H. destruct (Ascii.eqb_spec c colon) as [->|]; [discriminate | reflexivity].
Qed.

Lemma lstrip_has_colon s : has_colon (lstrip s) = has_colon s.
Proof.
  induction s as [|c s IH]; simpl; [reflexivity|].
  destruct (is_space c) eqn:E; [|reflexivity].
  now rewrite (space_not_colon _ E).
Qed.

Lemma rstrip_has_colon s : has_colon (rstrip s) = has_colon s.
Proof.
  induction s as [|c s IH]; [reflexivity|].
  cbn [rstrip has_colon]. rewrite <- IH.
  destruct (rstrip s) as [|c' s'].
  - destruct (is_space c) eqn:E; simpl.
    + now rewrite (space_not_colon _ E).
    + reflexivity.
  - reflexivity.
Qed.

Lemma digit_groups_with_colon s b :
  has_colon s = true -> digit_groups b s = None.
Proof.
  revert b. induction s as [|c s IH]; simpl; intros b H; [discriminate|].
  destruct (is_digit c) eqn:Hd.
  - destruct (digit_not_sign c Hd) as (_ & _ & Hc & _). rewrite Hc in H.
    now rewrite IH.
  - destruct (Ascii.eqb c underscore) eqn:Hu; [|reflexivity].
    apply Ascii.eqb_eq in Hu. subst c. simpl in H.
    destruct b; [now apply IH | reflexivity].
Qed.

(** Text with a colon is no integer. *)
Lemma py_int_with_colon s : has_colon s = true -> py_int s = inl ValueError.
Proof.
  intros H. unfold py_int.
  assert (Hs : has_colon (strip s) = true)
    by (unfold strip; now rewrite rstrip_has_colon, lstrip_has_colon).
  assert (Hb : has_colon (snd (split_sign (strip s))) = true).
  { unfold split_sign. destruct (strip s) as [|c r]; [discriminate|].
    destruct (Ascii.eqb_spec c "+") as [->|]; [exact Hs|].
    destruct (Ascii.eqb_spec c "-") as [->|]; [exact Hs | exact Hs]. }
  now rewrite (digit_groups_with_colon _ false Hb).
Qed.

Section Endpoints.
Context {Node : Type} {API : NodeAPI Node}.

(** X4: [get_grpc_channel] on a node that exists: an address
    ["host:port"] with a colon-free host and a decimal port gives the
    channel [(host, port)]; an address without a colon is a [ValueError],
    and so is one with a second colon (a scheme in front, an IPv6 host),
    because the text after the first colon is no integer; a gRPC field
    that is no text is an [AttributeError]; an exception of [get_port] is
    passed on. *)
Theorem grpc_channel_of_address (self : Testnet Node)
    (validator_id : option AccountId) (nodes : dict AccountId Node) (node : Node)
    (Hnodes : validator_nodes self = Some nodes)
    (Hnode : dict_get AccountId_eq_dec (target_of self validator_id) nodes = Some node) :
  (forall host port,
      has_colon host = false ->
      node_get_port node grpc_role = inr (VStr (host +s+ ":" +s+ str_int port)) ->
      get_grpc_channel self validator_id = inr (host, port))
  /\ (forall address,
        node_get_port node grpc_role = inr (VStr address) ->
        has_colon address = false ->
        get_grpc_channel self validator_id = inl ValueError)
  /\ (forall host rest,
        node_get_port node grpc_role = inr (VStr (host +s+ ":" +s+ rest)) ->
        has_colon host = false -> has_colon rest = true ->
        get_grpc_channel self validator_id = inl ValueError)
  /\ (forall v,
        node_get_port node grpc_role = inr v -> (forall s, v <> VStr s) ->
        get_grpc_channel self validator_id = inl AttributeError)
  /\ (forall e,
        node_get_port node grpc_role = inl e ->
        get_grpc_channel self validator_id = inl e).
Proof.
  assert (Hport : get_validator_port self (target_of self validator_id) "grpc"
                  = node_get_port node grpc_role).
  { unfold get_validator_port. rewrite Hnodes, Hnode. reflexivity. }
  unfold get_grpc_channel. fold (target_of self validator_id). rewrite Hport.
  split; [|split; [|split; [|split]]].
  - intros host port Hh ->. change (":" +s+ str_int port) with (String colon (str_int port)).
    rewrite split_first_colon by assumption. now rewrite py_int_str_int.
  - intros address -> Hc. now rewrite split_first_none.
  - intros host rest -> Hh Hr. change (":" +s+ rest) with (String colon rest).
    rewrite split_first_colon by assumption. now rewrite py_int_with_colon.
  - intros v -> Hv. destruct v; try reflexivity. now destruct (Hv s).
  - intros e ->. reflexivity.
Qed.

(** X5: [get_validator_port] before [prepare] is an [AttributeError].
    After a run of [prepare] in which [mkdir] returned, whether the run
    then returned or raised, it is the [get_port] of the validator's node
    for every validator and every role of the port table, and a
    [KeyError] for an identifier that is no validator and for a role that
    is not in the table.  After a run in which [mkdir] raised it is what
    it was before the run. *)
Theorem validator_port_lookup (self : Testnet Node) (id : AccountId)
    (port_type : string) :
  (validator_nodes self = None ->
   get_validator_port self id port_type = inl AttributeError)
  /\ match path_mkdir (data_dir self) with
     | inr _ =>
         (In id (_validator_ids self) ->
          exists node,
            node_of (state_of (prepare self)) id = Some node
            /\ forall role,
                 dict_get string_dec port_type ports = Some role ->
                 get_validator_port (state_of (prepare self)) id port_type
                 = node_get_port node role)
         /\ (~ In id (_validator_ids self) ->
             get_validator_port (state_of (prepare self)) id port_type
             = inl KeyError)
         /\ (~ In port_type (dict_keys ports) ->
             get_validator_port (state_of (prepare self)) id port_type
             = inl KeyError)
     | inl e =>
         value_of (prepare self) = inl e
         /\ get_validator_port (state_of (prepare self)) id port_type
            = get_validator_port self id port_type
     end.
Proof.
  split; [intros H; unfold get_validator_port; now rewrite H|].
  destruct (path_mkdir (data_dir self)) as [e|[]] eqn:Hmk.
  { rewrite (prepare_stopped self Hmk). split; reflexivity. }
  pose proof (prepare_in_ceremony self Hmk) as Hs.
  destruct (in_ceremony_nodes Hs) as (nodes & Hn & Hk).
  split; [|split].
  - intros Hid.
    assert (Hin : In id (dict_keys nodes))
      by (rewrite Hk; now apply first_occurrences_in).
    destruct (dict_get_in_some AccountId_eq_dec _ _ Hin) as (node & Hg).
    exists node. unfold node_of, get_validator_port. rewrite Hn, Hg.
    split; [reflexivity|]. intros role ->. reflexivity.
  - intros Hid. unfold get_validator_port. rewrite Hn.
    destruct (dict_get AccountId_eq_dec id nodes) as [node|] eqn:Hg; [|reflexivity].
    exfalso. apply Hid. apply dict_get_some_in in Hg. rewrite Hk in Hg.
    now apply first_occurrences_in.
  - intros Hp. unfold get_validator_port. rewrite Hn.
    destruct (dict_get AccountId_eq_dec id nodes) as [node|]; [|reflexivity].
    destruct (dict_get string_dec port_type ports) as [role|] eqn:Hg; [|reflexivity].
    exfalso. apply Hp. eapply dict_get_some_in, Hg.
Qed.
End Endpoints.


(** * [spinup], [oneshot] and the nodes [teardown] leaves *)

Section Calls.
Context {Node : Type} {API : NodeAPI Node}.

(** A loop of calls of one method over nodes whose first failure is on
    [x]: the loop raises what the method raised, the calls up to [x] are
    logged, the nodes before [x] are the nodes after their call and all
    other nodes are as they were. *)
Lemma calls_first_failure (ev : AccountId -> Event)
    (method : Node -> result Node) pre :
  forall x post (s : Testnet Node) nodes nx e,
    validator_nodes s = Some nodes ->
    NoDup (pre ++ x :: post) ->
    (forall y, In y pre ->
       exists n n', dict_get AccountId_eq_dec y nodes = Some n /\ method n = inr n') ->
    dict_get AccountId_eq_dec x nodes = Some nx -> method nx = inl e ->
    value_of (for_ (pre ++ x :: post) (fun id => node_call id (ev id) method) s) = inl e
    /\ trace_of (for_ (pre ++ x :: post) (fun id => node_call id (ev id) method) s)
       = map ev (pre ++ [x])
    /\ (forall y, ~ In y pre ->
          node_of (state_of (for_ (pre ++ x :: post)
                               (fun id => node_call id (ev id) method) s)) y
          = node_of s y)
    /\ (forall y n, In y pre -> dict_get AccountId_eq_dec y nodes = Some n ->
          exists n', method n = inr n'
                     /\ node_of (state_of (for_ (pre ++ x :: post)
                                             (fun id => node_call id (ev id) method) s)) y
                        = Some n').
Proof.
  induction pre as [|p pre IH]; intros x post s nodes nx e Hn Hnd Hpre Hx He.
  - simpl. unfold bind, node_call. rewrite Hn, Hx, He. simpl.
    repeat split; try reflexivity. intros y n [].
  - simpl in Hnd. inversion Hnd as [|? ? Hp Hnd']; subst.
    destruct (Hpre p (or_introl eq_refl)) as (n & n' & Hg & Hm).
    assert (Hp_x : p <> x) by (intros ->; apply Hp, in_elt).
    assert (Hp_pre : ~ In p pre) by (intros H; apply Hp, in_or_app; auto).
    specialize (IH x post (with_validator_nodes s (dict_set AccountId_eq_dec p n' nodes))
                  (dict_set AccountId_eq_dec p n' nodes) nx e eq_refl Hnd').
    destruct IH as (Hv & Ht & Ho & Hi).
    + intros y Hy. rewrite dict_get_set_other by (intros ->; contradiction).
      apply Hpre. simpl; auto.
    + rewrite dict_get_set_other by (intros E; apply Hp_x; congruence). exact Hx.
    + exact He.
    + assert (Hrun : for_ ((p :: pre) ++ x :: post)
                       (fun id => node_call id (ev id) method) s
                     = (ev p :: trace_of (for_ (pre ++ x :: post)
                                            (fun id => node_call id (ev id) method)
                                            (with_validator_nodes s
                                               (dict_set AccountId_eq_dec p n' nodes))),
                        state_of (for_ (pre ++ x :: post)
                                    (fun id => node_call id (ev id) method)
                                    (with_validator_nodes s
                                       (dict_set AccountId_eq_dec p n' nodes))),
                        value_of (for_ (pre ++ x :: post)
                                    (fun id => node_call id (ev id) method)
                                    (with_validator_nodes s
                                       (dict_set AccountId_eq_dec p n' nodes))))).
      { simpl. unfold bind at 1. unfold node_call at 1. rewrite Hn, Hg, Hm.
        destruct (for_ (pre ++ x :: post) _ _) as [[t2 s2] v2]. reflexivity. }
      rewrite Hrun. unfold value_of at 1, trace_of at 1, state_of at 1 3.
      simpl fst. simpl snd.
      split; [exact Hv|]. split; [now rewrite Ht|]. split.
      * intros y Hy. simpl in Hy. rewrite Ho by tauto.
        unfold node_of. simpl. rewrite Hn.
        apply dict_get_set_other. intros ->. tauto.
      * intros y n0 [<-|Hy] Hg0.
        -- assert (n0 = n) by congruence. subst n0. exists n'. split; [assumption|].
           rewrite Ho by assumption. unfold node_of. simpl.
           apply dict_get_set_same.
        -- apply Hi; [assumption|].
           rewrite dict_get_set_other by (intros ->; contradiction). exact Hg0.
Qed.

(** The log of such a loop is the calls on a prefix of the nodes, and all
    of them when the loop returns. *)
Lemma calls_log_prefix (ev : AccountId -> Event) (method : Node -> result Node) ids :
  forall s : Testnet Node,
    exists k,
      trace_of (for_ ids (fun id => node_call id (ev id) method) s)
      = map ev (firstn k ids)
      /\ (value_of (for_ ids (fun id => node_call id (ev id) method) s) = inr tt ->
          trace_of (for_ ids (fun id => node_call id (ev id) method) s) = map ev ids).
Proof.
  induction ids as [|id r IH]; intros s.
  - exists 0%nat. split; reflexivity.
  - simpl. unfold bind. unfold node_call at 1 3 5.
    destruct (validator_nodes s) as [nodes|];
      [|exists 0%nat; split; [reflexivity | discriminate]].
    destruct (dict_get AccountId_eq_dec id nodes) as [n|];
      [|exists 0%nat; split; [reflexivity | discriminate]].
    destruct (method n) as [e|n'];
      [exists 1%nat; split; [reflexivity | discriminate]|].
    destruct (IH (with_validator_nodes s (dict_set AccountId_eq_dec id n' nodes)))
      as (k & Hk & Hall).
    destruct (for_ r _ _) as [[t2 s2] v2]. unfold trace_of, value_of in *. simpl in *.
    exists (S k). split; [now rewrite Hk|]. intros Hv. now rewrite Hall.
Qed.
End Calls.

Section Processes.
Context {Node : Type} {API : NodeAPI Node}.

Lemma spinup_unfold (s : Testnet Node) nodes :
  validator_nodes s = Some nodes ->
  spinup s = for_ (dict_keys nodes) (fun id => node_call id (EvStart id) node_start) s.
Proof.
  intros Hn. unfold spinup, node_ids, bind, attr, ret. rewrite Hn.
  destruct (for_ _ _ s) as [[t2 s2] v2]. reflexivity.
Qed.

Lemma teardown_unfold (s : Testnet Node) nodes :
  validator_nodes s = Some nodes ->
  teardown s = for_ (dict_keys nodes) (fun id => node_call id (EvClose id) node_close) s.
Proof.
  intros Hn. unfold teardown, node_ids, bind, attr, ret. rewrite Hn.
  destruct (for_ _ _ s) as [[t2 s2] v2]. reflexivity.
Qed.

Lemma spinup_starts_in_creation_order_aux (s : Testnet Node) nodes :
  validator_nodes s = Some nodes ->
  exists k,
    trace_of (spinup s) = map EvStart (firstn k (dict_keys nodes))
    /\ (value_of (spinup s) = inr tt ->
        trace_of (spinup s) = map EvStart (dict_keys nodes)).
Proof.
  intros Hn. rewrite (spinup_unfold s Hn). apply calls_log_prefix.
Qed.

(** X6: [spinup] before [prepare] raises [AttributeError] and calls
    nothing; otherwise it starts the nodes in creation order, each once,
    up to the first call that raises: its log is [start] on a prefix of
    the keys of [validator_nodes], and on all of them when it returns. *)
Theorem spinup_starts_in_creation_order (s : Testnet Node) :
  (validator_nodes s = None -> spinup s = ([], s, inl AttributeError))
  /\ (forall nodes,
        validator_nodes s = Some nodes ->
        exists k,
          trace_of (spinup s) = map EvStart (firstn k (dict_keys nodes))
          /\ (value_of (spinup s) = inr tt ->
              trace_of (spinup s) = map EvStart (dict_keys nodes))).
Proof.
  split.
  - intros Hn. unfold spinup, node_ids, bind, attr. rewrite Hn. reflexivity.
  - intros nodes Hn. now apply spinup_starts_in_creation_order_aux.
Qed.

(** X7: when [start] raises on a node, [spinup] raises the same
    exception at once: the nodes before it have been started and stay
    started (nothing closes them), the nodes after it are never
    called. *)
Theorem spinup_stops_at_first_failure (s : Testnet Node)
    (nodes : dict AccountId Node) (pre post : list AccountId) (x : AccountId)
    (nx : Node) (e : exn)
    (Hnodes : validator_nodes s = Some nodes)
    (Hkeys : dict_keys nodes = pre ++ x :: post)
    (Hnodup : NoDup (dict_keys nodes))
    (Hpre : forall y, In y pre ->
              exists n n', dict_get AccountId_eq_dec y nodes = Some n
                           /\ node_start n = inr n')
    (Hx : dict_get AccountId_eq_dec x nodes = Some nx)
    (Hfail : node_start nx = inl e) :
  value_of (spinup s) = inl e
  /\ trace_of (spinup s) = map EvStart (pre ++ [x])
  /\ (forall y, ~ In y pre -> node_of (state_of (spinup s)) y = node_of s y)
  /\ (forall y n, In y pre -> dict_get AccountId_eq_dec y nodes = Some n ->
        exists n', node_start n = inr n'
                   /\ node_of (state_of (spinup s)) y = Some n').
Proof.
  rewrite (spinup_unfold s Hnodes), Hkeys. rewrite Hkeys in Hnodup.
  exact (calls_first_failure EvStart node_start pre x post s Hnodes Hnodup Hpre Hx Hfail).
Qed.

(** X8: when [close] raises on a node, [teardown] raises the same
    exception at once: the nodes before it have been closed, the nodes
    after it are never closed and stay as they were. *)
Theorem teardown_stops_at_first_failure (s : Testnet Node)
    (nodes : dict AccountId Node) (pre post : list AccountId) (x : AccountId)
    (nx : Node) (e : exn)
    (Hnodes : validator_nodes s = Some nodes)
    (Hkeys : dict_keys nodes = pre ++ x :: post)
    (Hnodup : NoDup (dict_keys nodes))
    (Hpre : forall y, In y pre ->
              exists n n', dict_get AccountId_eq_dec y nodes = Some n
                           /\ node_close n = inr n')
    (Hx : dict_get AccountId_eq_dec x nodes = Some nx)
    (Hfail : node_close nx = inl e) :
  value_of (teardown s) = inl e
  /\ trace_of (teardown s) = map EvClose (pre ++ [x])
  /\ (forall y, ~ In y pre -> node_of (state_of (teardown s)) y = node_of s y)
  /\ (forall y n, In y pre -> dict_get AccountId_eq_dec y nodes = Some n ->
        exists n', node_close n = inr n'
                   /\ node_of (state_of (teardown s)) y = Some n').
Proof.
  rewrite (teardown_unfold s Hnodes), Hkeys. rewrite Hkeys in Hnodup.
  exact (calls_first_failure EvClose node_close pre x post s Hnodes Hnodup Hpre Hx Hfail).
Qed.
End Processes.

Section Oneshot.
Context {Node : Type} {API : NodeAPI Node}.
Variable self : Testnet Node.

Lemma prepare_runs_no_process :
  Forall (fun e => is_process_event e = false) (trace_of (prepare self)).
Proof.
  apply prepare_events; try reflexivity;
    try (intros [] H; simpl in *; try reflexivity; contradiction).
  repeat constructor.
Qed.

Lemma collect_script_in m :
  In m (_validator_ids self) -> In (EvCollectGentx m) (collect_script self).
Proof.
  intros H. unfold collect_script. apply in_map. now apply node_keys_in.
Qed.

Lemma oneshot_run :
  (forall e,
      value_of (prepare self) = inl e ->
      oneshot self = (trace_of (prepare self), state_of (prepare self), inl e))
  /\ (value_of (prepare self) = inr tt ->
      oneshot self
      = (trace_of (prepare self) ++ trace_of (spinup (state_of (prepare self))),
         state_of (spinup (state_of (prepare self))),
         value_of (spinup (state_of (prepare self))))).
Proof.
  split.
  - intros e He. unfold oneshot.
    destruct (bind_run prepare (fun _ => spinup) self) as [(e' & He' & ->)|(a & Ha & _)];
      congruence.
  - intros Hv. unfold oneshot.
    destruct (bind_run prepare (fun _ => spinup) self) as [(e' & He' & _)|(a & Ha & ->)];
      [congruence | reflexivity].
Qed.

(** An [oneshot] that returned: [prepare] returned, and every node was
    started. *)
Lemma oneshot_returned :
  value_of (oneshot self) = inr tt ->
  value_of (prepare self) = inr tt
  /\ trace_of (oneshot self) = trace_of (prepare self) ++ map EvStart (node_keys self).
Proof.
  intros Hv. destruct oneshot_run as [Hfail Hok].
  destruct (value_of (prepare self)) as [e|[]] eqn:Hp.
  - rewrite (Hfail e eq_refl) in Hv. discriminate.
  - split; [reflexivity|].
    rewrite (Hok eq_refl) in *. unfold value_of in Hv. unfold trace_of at 1. simpl in *.
    f_equal.
    pose proof (prepare_in_ceremony self (prepare_made_dir self Hp)) as Hs.
    destruct (in_ceremony_nodes Hs) as (nodes & Hn & Hk).
    destruct (spinup_starts_in_creation_order_aux (state_of (prepare self)) Hn)
      as (k & _ & Hall).
    rewrite <- Hk. apply Hall. exact Hv.
Qed.

(** X9: [oneshot] is [prepare] followed, when [prepare] returned, by
    [spinup] on the object [prepare] left; when [prepare] raises,
    [oneshot] raises the same with the same log and starts nothing.
    [prepare] itself starts and closes no node, so a node is started only
    after every node has collected its gentxs; an [oneshot] that returns
    has started every node, in creation order. *)
Theorem oneshot_starts_only_after_prepare :
  (forall e,
      value_of (prepare self) = inl e ->
      oneshot self = (trace_of (prepare self), state_of (prepare self), inl e))
  /\ (value_of (prepare self) = inr tt ->
      oneshot self
      = (trace_of (prepare self) ++ trace_of (spinup (state_of (prepare self))),
         state_of (spinup (state_of (prepare self))),
         value_of (spinup (state_of (prepare self)))))
  /\ Forall (fun e => is_process_event e = false) (trace_of (prepare self))
  /\ (forall pre n post,
        trace_of (oneshot self) = pre ++ EvStart n :: post ->
        value_of (prepare self) = inr tt
        /\ forall m, In m (_validator_ids self) -> In (EvCollectGentx m) pre)
  /\ (value_of (oneshot self) = inr tt ->
      trace_of (oneshot self)
      = trace_of (prepare self) ++ map EvStart (node_keys self)).
Proof.
  assert (Hfail : forall e,
             value_of (prepare self) = inl e ->
             oneshot self = (trace_of (prepare self), state_of (prepare self), inl e)).
  { intros e He. unfold oneshot.
    destruct (bind_run prepare (fun _ => spinup) self) as [(e' & He' & ->)|(a & Ha & _)];
      congruence. }
  assert (Hok : value_of (prepare self) = inr tt ->
             oneshot self
             = (trace_of (prepare self) ++ trace_of (spinup (state_of (prepare self))),
                state_of (spinup (state_of (prepare self))),
                value_of (spinup (state_of (prepare self))))).
  { intros Hv. unfold oneshot.
    destruct (bind_run prepare (fun _ => spinup) self) as [(e' & He' & _)|(a & Ha & ->)];
      [congruence | reflexivity]. }
  split; [exact Hfail|]. split; [exact Hok|].
  split; [exact prepare_runs_no_process|]. split.
  - intros pre n post Htr.
    destruct (value_of (prepare self)) as [e|[]] eqn:Hv.
    + exfalso. rewrite (Hfail e eq_refl) in Htr. unfold trace_of at 1 in Htr. simpl in Htr.
      pose proof prepare_runs_no_process as Hno. rewrite Htr in Hno.
      apply Forall_app in Hno. destruct Hno as [_ Hno]. inversion Hno; subst. discriminate.
    + split; [reflexivity|]. intros m Hm.
      rewrite (Hok eq_refl) in Htr. unfold trace_of at 1 in Htr. simpl in Htr.
      assert (Hx : ~ is_process_event (EvStart n) = false) by (simpl; discriminate).
      destruct (@split_after_prefix Event (fun e => is_process_event e = false)
                  _ _ pre post (EvStart n) prepare_runs_no_process Hx Htr)
        as (p2 & -> & _).
      apply in_or_app. left.
      destruct (prepare_log_ok (prepare_ok_log self Hv))
        as (t_conf & t_print & t_gentx & -> & _).
      rewrite !in_app_iff. do 11 right. now apply collect_script_in.
  - intros Hv.
    destruct (value_of (prepare self)) as [e|[]] eqn:Hp.
    + rewrite (Hfail e eq_refl) in Hv. discriminate.
    + rewrite (Hok eq_refl) in *. unfold value_of in Hv. unfold trace_of at 1. simpl in *.
      f_equal.
      pose proof (prepare_in_ceremony self (prepare_made_dir self Hp)) as Hs.
      destruct (in_ceremony_nodes Hs) as (nodes & Hn & Hk).
      destruct (spinup_starts_in_creation_order_aux (state_of (prepare self)) Hn)
        as (k & _ & Hall).
      rewrite <- Hk. apply Hall. exact Hv.
Qed.
End Oneshot.


(** * Every run of [broadcast_transaction] *)

Section BroadcastRuns.
Context {Node : Type} {API : NodeAPI Node}.
Context {Chain : Type} {CAPI : ChainAPI Chain}.

(** The four ways a run of [broadcast_transaction] ends: before any
    contact; after a failed account query; after a failed submission;
    after a submission that returned. *)
Lemma broadcast_shapes (self : Testnet Node) account_id msgs gas fee_amount
    validator_id (chain : Chain) :
  (exists e,
      broadcast_transaction self account_id msgs gas fee_amount validator_id chain
      = ([], chain, inl e))
  \/ (exists host port address e,
        broadcast_transaction self account_id msgs gas fee_amount validator_id chain
        = ([EvChannel host port; EvAuthAccount address (inl e)], chain, inl e))
  \/ (exists host port address info tx chain' e,
        broadcast_transaction self account_id msgs gas fee_amount validator_id chain
        = ([EvChannel host port; EvAuthAccount address (inr info);
            EvBroadcastTx tx BROADCAST_MODE_BLOCK (inl e)], chain', inl e))
  \/ (exists host port address info tx chain' response,
        broadcast_transaction self account_id msgs gas fee_amount validator_id chain
        = ([EvChannel host port; EvAuthAccount address (inr info);
            EvBroadcastTx tx BROADCAST_MODE_BLOCK (inr response); EvChannelClose],
           chain', inr response)).
Proof.
  unfold broadcast_transaction, bind, lift, subscript.
  destruct (accounts self) as [accs|]; [|left; eexists; reflexivity].
  destruct (dict_get AccountId_eq_dec account_id accs) as [account|];
    [|left; eexists; reflexivity].
  unfold ret. destruct (mnemonic account) as [words|]; [|left; eexists; reflexivity].
  destruct (get_grpc_channel self _) as [e|channel]; [left; eexists; reflexivity|].
  unfold emit, query_account.
  destruct (auth_account chain (fst channel) (snd channel) _) as [e|info] eqn:Hq.
  - right. left. do 4 eexists. reflexivity.
  - unfold submit.
    destruct (broadcast_tx chain (fst channel) (snd channel) _ BROADCAST_MODE_BLOCK)
      as [chain' [e|response]] eqn:Hb.
    + right. right. left. do 7 eexists. reflexivity.
    + right. right. right. do 7 eexists. reflexivity.
Qed.

(** X10: in every run of [broadcast_transaction] there is at most one
    submission and it waits for the commit; the chain changes only
    through the submission; the channel is closed when the submission
    returned and in no run that raises, whether the account query or the
    submission failed; a missing [accounts] attribute is an
    [AttributeError] and an unknown account a [KeyError], both before any
    contact; and a single message is sent as the list of that message. *)
Theorem broadcast_closes_channel_only_on_return (self : Testnet Node)
    (account_id : AccountId) (msgs : MsgsArg) (gas fee_amount : Z)
    (validator_id : option AccountId) (chain : Chain) :
  (List.length
     (filter is_broadcast
        (trace_of (broadcast_transaction self account_id msgs gas fee_amount
                     validator_id chain))) <= 1)%nat
  /\ Forall waits_for_commit
       (trace_of (broadcast_transaction self account_id msgs gas fee_amount
                    validator_id chain))
  /\ (filter is_broadcast
        (trace_of (broadcast_transaction self account_id msgs gas fee_amount
                     validator_id chain)) = [] ->
      state_of (broadcast_transaction self account_id msgs gas fee_amount
                  validator_id chain) = chain)
  /\ (In EvChannelClose
        (trace_of (broadcast_transaction self account_id msgs gas fee_amount
                     validator_id chain))
      <-> is_ok (value_of (broadcast_transaction self account_id msgs gas fee_amount
                             validator_id chain)) = true)
  /\ (accounts self = None ->
      broadcast_transaction self account_id msgs gas fee_amount validator_id chain
      = ([], chain, inl AttributeError))
  /\ (forall accs,
        accounts self = Some accs ->
        dict_get AccountId_eq_dec account_id accs = None ->
        broadcast_transaction self account_id msgs gas fee_amount validator_id chain
        = ([], chain, inl KeyError))
  /\ (forall m,
        broadcast_transaction self account_id (OneMsg m) gas fee_amount validator_id chain
        = broadcast_transaction self account_id (MsgList [m]) gas fee_amount
            validator_id chain).
Proof.
  split; [|split; [|split; [|split; [|split; [|split]]]]].
  - destruct (broadcast_shapes self account_id msgs gas fee_amount validator_id chain)
      as [(e & ->)|[(h & p & a & e & ->)|[(h & p & a & i & tx & c & e & ->)
                                          |(h & p & a & i & tx & c & r & ->)]]];
      simpl; lia.
  - destruct (broadcast_shapes self account_id msgs gas fee_amount validator_id chain)
      as [(e & ->)|[(h & p & a & e & ->)|[(h & p & a & i & tx & c & e & ->)
                                          |(h & p & a & i & tx & c & r & ->)]]];
      unfold trace_of; simpl; repeat constructor.
  - unfold broadcast_transaction, bind, lift, subscript.
    destruct (accounts self) as [accs|]; [|reflexivity].
    destruct (dict_get AccountId_eq_dec account_id accs) as [account|]; [|reflexivity].
    unfold ret. destruct (mnemonic account) as [words|]; [|reflexivity].
    destruct (get_grpc_channel self _) as [e|channel]; [reflexivity|].
    unfold emit, query_account.
    destruct (auth_account chain (fst channel) (snd channel) _) as [e|info];
      [reflexivity|].
    unfold submit.
    destruct (broadcast_tx chain (fst channel) (snd channel) _ BROADCAST_MODE_BLOCK)
      as [chain' [e|response]]; unfold trace_of; simpl; discriminate.
  - destruct (broadcast_shapes self account_id msgs gas fee_amount validator_id chain)
      as [(e & ->)|[(h & p & a & e & ->)|[(h & p & a & i & tx & c & e & ->)
                                          |(h & p & a & i & tx & c & r & ->)]]];
      unfold trace_of, value_of; simpl; split; intros H;
      try discriminate; try reflexivity;
      repeat (destruct H as [H|H]; [discriminate H|]); try contradiction.
    tauto.
  - intros Hn. unfold broadcast_transaction, bind, lift. rewrite Hn. reflexivity.
  - intros accs Ha Hg. unfold broadcast_transaction, bind, lift, subscript.
    rewrite Ha, Hg. reflexivity.
  - intros m. reflexivity.
Qed.
End BroadcastRuns.


(** * More about the runs of [prepare] *)

Section PrepareRuns.
Context {Node : Type} {API : NodeAPI Node}.
Variable self : Testnet Node.

Lemma is_validator_iff n a :
  is_validator self n a
  <-> In n (_validator_ids self) /\ a = Account_new n "val" (_account_seed self).
Proof.
  unfold is_validator, the_validators. split.
  - intros H. assert (Hn : In n (_validator_ids self)).
    { apply dict_get_some_in in H. rewrite dict_comp_keys in H.
      now apply first_occurrences_in. }
    rewrite dict_comp_get in H by assumption. split; [assumption | congruence].
  - intros [Hn ->]. now apply dict_comp_get.
Qed.

(** X11: in every run of [prepare] the key added to a node, the validator
    it stakes and the key that signs its gentx are those of the validator
    identity with the node's own identifier, [Account(n, "val", seed)]:
    no node receives or uses another validator's key. *)
Theorem nodes_use_their_own_validator :
  Forall (uses_own_identity self) (trace_of (prepare self))
  /\ (forall n a,
        is_validator self n a
        <-> In n (_validator_ids self)
            /\ a = Account_new n "val" (_account_seed self)).
Proof.
  split; [|exact is_validator_iff].
  apply prepare_events; try exact I;
    try (intros [] H; simpl in *; try exact I; try contradiction; tauto).
  repeat constructor.
Qed.

(** X12: the calls of a [prepare] that returned, in order: the data
    directory; [init] on every node; the genesis overrides and the funding
    of the validators, then of the accounts, on the lead; the genesis
    copies of the other nodes; one port request; the configuration calls;
    the tables; the gentx calls; the all-pairs exchange; the collection
    on every node.  All but the configuration, the tables and the gentx
    calls are determined by the object alone. *)
Theorem prepare_calls_in_order
    (Hok : value_of (prepare self) = inr tt) :
  exists t_conf t_print t_gentx,
    trace_of (prepare self)
    = [EvMkdir (data_dir self)] ++ init_script self ++ override_script self
      ++ fund_script self (dict_values (the_validators self))
      ++ fund_script self (dict_values (the_accounts self))
      ++ share_script self ++ alloc_script self
      ++ t_conf ++ t_print ++ t_gentx
      ++ exchange_script (node_keys self) ++ collect_script self
    /\ Forall (config_event self) t_conf
    /\ Forall print_event t_print
    /\ Forall (gentx_event self) t_gentx.
Proof.
  destruct (prepare_log_ok (prepare_ok_log self Hok))
    as (t_conf & t_print & t_gentx & Htr & Hc & _ & Hp & [Hg _] & _).
  exists t_conf, t_print, t_gentx. auto.
Qed.

(** X13: once [mkdir] has returned, [prepare], whether it then returns or
    raises, leaves the object of [finalize_accounts] with node objects
    under the identifiers of the validators, each once and in the order
    of their first occurrence: the three dictionaries exist and have the
    same keys, and every other attribute is as it was.  When [mkdir]
    raises, [prepare] raises the same exception, has called nothing else,
    and leaves the object of [finalize_accounts] with [validator_nodes]
    as it was: missing, on an object not prepared before. *)
Theorem prepare_leaves_one_node_per_validator :
  match path_mkdir (data_dir self) with
  | inr _ =>
      exists nodes,
        state_of (prepare self)
        = with_validator_nodes (finalize_accounts self) nodes
        /\ dict_keys nodes = first_occurrences [] (_validator_ids self)
        /\ NoDup (dict_keys nodes)
        /\ (forall vals,
              validators (state_of (prepare self)) = Some vals ->
              dict_keys vals = dict_keys nodes)
        /\ (forall n, In n (_validator_ids self)
                      <-> node_of (state_of (prepare self)) n <> None)
  | inl e =>
      prepare self = ([EvMkdir (data_dir self)], finalize_accounts self, inl e)
      /\ validator_nodes (state_of (prepare self)) = validator_nodes self
      /\ (validator_nodes self = None ->
          teardown (state_of (prepare self))
          = ([], finalize_accounts self, inl AttributeError))
  end.
Proof.
  destruct (path_mkdir (data_dir self)) as [e|[]] eqn:Hmk.
  { rewrite (prepare_stopped self Hmk). split; [reflexivity|].
    split; [reflexivity|]. intros Hnone. unfold state_of. simpl.
    unfold teardown, node_ids, bind, attr. simpl. now rewrite Hnone. }
  destruct (prepare_in_ceremony self Hmk) as (nodes & Hs & Hk).
  exists nodes. split; [exact Hs|]. split; [exact Hk|].
  split; [rewrite Hk; apply first_occurrences_nodup|]. split.
  - intros vals Hv. rewrite Hs in Hv. simpl in Hv. inversion Hv; subst.
    rewrite dict_comp_keys. now rewrite Hk.
  - intros n. rewrite Hs. unfold node_of. simpl. split.
    + intros Hn.
      destruct (dict_get_in_some AccountId_eq_dec n nodes) as (x & ->); [|discriminate].
      rewrite Hk. now apply first_occurrences_in.
    + intros Hn. destruct (dict_get AccountId_eq_dec n nodes) as [x|] eqn:E; [|congruence].
      apply dict_get_some_in in E. rewrite Hk in E. now apply first_occurrences_in.
Qed.

(** ** The tables *)
Lemma spec_step (L : Log) (A : Type) (m : M (Testnet Node) A) (R : A -> Prop)
    s tr s' a :
  spec_for (in_ceremony self) L m R -> in_ceremony self s ->
  m s = (tr, s', inr a) -> L true tr /\ in_ceremony self s' /\ R a.
Proof.
  intros H Hs Hrun. destruct (H s Hs) as (H1 & H2 & H3).
  rewrite Hrun in H1, H2, H3. unfold value_of, trace_of, state_of in *. simpl in *.
  auto.
Qed.

Lemma print_tables_run data s tr s' :
  in_ceremony self s -> print_tables data s = (tr, s', inr tt) ->
  tr = if verbose self then tables self data else [].
Proof.
  intros (nodes & -> & _). unfold print_tables, bind, get_self, attr, emit, ret. simpl.
  destruct (verbose self); intros H; inversion H; reflexivity.
Qed.

Lemma no_print (P : Event -> Prop) l :
  (forall e, P e -> is_print e = false) -> Forall P l -> filter is_print l = [].
Proof. intros HP Hl. exact (filter_none is_print Hl HP). Qed.

(** ** The rows of the table of ports *)
Lemma port_row_more (t t' : list Event) n row :
  (forall e, In e t -> In e t') -> port_row t n row -> port_row t' n row.
Proof.
  intros Hin (node & cells & -> & Hcells). exists node, cells.
  split; [reflexivity|]. eapply Forall2_impl; [|exact Hcells].
  intros e c [H1 H2]. split; [exact H1 | now apply Hin].
Qed.

Lemma call_get_run id file key (s : Testnet Node) node :
  node_of s id = Some node ->
  call_get id file key s
  = ([EvGet id file key (node_get node file key)], s, node_get node file key).
Proof.
  unfold call_get, bind, node_read, lift, node_of.
  destruct (validator_nodes s) as [nodes|]; [|discriminate].
  intros ->. simpl. destruct (node_get node file key); reflexivity.
Qed.

Lemma read_cells id (s : Testnet Node) node es :
  node_of s id = Some node ->
  forall tr s' cells,
    mapM (fun e_port => call_get id (config_file e_port) (property_path e_port))
      es s = (tr, s', inr cells) ->
    s' = s
    /\ Forall2 (fun e_port cell =>
                  node_get node (config_file e_port) (property_path e_port)
                  = inr cell
                  /\ In (EvGet id (config_file e_port) (property_path e_port)
                           (inr cell)) tr)
         es cells.
Proof.
  intros Hnode. induction es as [|e r IH]; intros tr s' cells H; simpl in H.
  - apply ret_ok in H. destruct H as (-> & -> & ->). split; constructor.
  - apply bind_ok in H. destruct H as (t1 & s1 & c & t2 & H1 & H2 & ->).
    rewrite (@call_get_run id _ _ s node Hnode) in H1.
    injection H1 as E1 E2 E3. subst t1 s1.
    apply bind_ok in H2. destruct H2 as (t3 & s3 & cs & t4 & H3 & H4 & ->).
    apply ret_ok in H4. destruct H4 as (-> & -> & ->).
    destruct (IH _ _ _ H3) as (-> & Hcs). split; [reflexivity|].
    constructor.
    + split; [exact E3|]. left. now rewrite E3.
    + eapply Forall2_impl; [|exact Hcs]. intros e' c' [A B].
      split; [exact A|]. rewrite app_nil_r. right. exact B.
Qed.

Lemma read_port_data_row id (s s' : Testnet Node) tr row :
  read_port_data id s = (tr, s', inr row) -> port_row tr id row.
Proof.
  intros H. unfold read_port_data in H.
  apply bind_ok in H. destruct H as (t1 & s1 & moniker & t2 & H1 & H2 & ->).
  apply node_read_run in H1 as Hread. destruct Hread as (-> & node & Hnode & ->).
  assert (t1 = []) as ->.
  { unfold node_read in H1. unfold node_of in Hnode.
    destruct (validator_nodes s); [|discriminate]. rewrite Hnode in H1.
    now inversion H1. }
  apply bind_ok in H2. destruct H2 as (t3 & s3 & cells & t4 & H3 & H4 & ->).
  apply ret_ok in H4. destruct H4 as (-> & -> & ->).
  destruct (@read_cells id s node _ Hnode _ _ _ H3) as (_ & Hcells).
  exists node, cells. split; [reflexivity|].
  eapply Forall2_impl; [|exact Hcells]. intros e c [A B].
  split; [exact A|]. simpl. now rewrite app_nil_r.
Qed.

Lemma configure_node_row s0 locals id (s s' : Testnet Node) tr locals' :
  configure_node s0 locals id s = (tr, s', inr locals') ->
  exists row, snd locals' = snd locals ++ [row] /\ port_row tr id row.
Proof.
  intros H. unfold configure_node in H.
  apply bind_ok in H. destruct H as (t1 & s1 & [] & t2 & _ & H2 & ->).
  apply bind_ok in H2. destruct H2 as (t3 & s3 & all_ports & t4 & _ & H4 & ->).
  apply bind_ok in H4. destruct H4 as (t5 & s5 & pd & t6 & H5 & H6 & ->).
  apply ret_ok in H6. destruct H6 as (-> & -> & ->).
  exists pd. split; [reflexivity|].
  apply (@port_row_more t5 _ _ _); [|exact (@read_port_data_row id _ _ _ _ H5)].
  intros e He. rewrite !in_app_iff. auto.
Qed.

Lemma configure_fold_rows s0 ids :
  forall locals (s s' : Testnet Node) tr res,
    foldM (configure_node s0) locals ids s = (tr, s', inr res) ->
    exists rows,
      snd res = snd locals ++ rows /\ Forall2 (port_row tr) ids rows.
Proof.
  induction ids as [|id r IH]; intros locals s s' tr res H; simpl in H.
  - apply ret_ok in H. destruct H as (-> & _ & ->). exists [].
    split; [now rewrite app_nil_r | constructor].
  - apply bind_ok in H. destruct H as (t1 & s1 & locals1 & t2 & H1 & H2 & ->).
    destruct (@configure_node_row _ _ _ _ _ _ _ H1) as (row & Hrow & Hport).
    destruct (IH _ _ _ _ _ H2) as (rows & Hrows & Hports).
    exists (row :: rows). split.
    + rewrite Hrows, Hrow, <- app_assoc. reflexivity.
    + constructor.
      * apply (@port_row_more t1 _ _ _); [|exact Hport].
        intros e He. apply in_or_app. auto.
      * eapply Forall2_impl; [|exact Hports]. intros n row' Hr.
        apply (@port_row_more t2 _ _ _); [|exact Hr].
        intros e He. apply in_or_app. auto.
Qed.

Lemma configure_nodes_rows rows (s s' : Testnet Node) tr data :
  in_ceremony self s ->
  configure_nodes rows s = (tr, s', inr data) ->
  Forall2 (port_row tr) (node_keys self) data.
Proof.
  intros Hs H. unfold configure_nodes in H.
  rewrite bind_get_self in H.
  rewrite (@bind_pure _ _ _ _ _ _ _ (node_ids_run Hs)) in H.
  apply bind_ok in H. destruct H as (t5 & s5 & locals & t6 & H5 & H6 & ->).
  apply ret_ok in H6. destruct H6 as (-> & _ & ->). rewrite app_nil_r.
  destruct (@configure_fold_rows _ _ _ _ _ _ _ H5) as (rows' & Hrows & Hports).
  simpl in Hrows. now rewrite Hrows.
Qed.

(** The tables in the log of a [prepare] that returned. *)
Lemma tables_of_prepare :
  value_of (prepare self) = inr tt ->
  exists all_port_data,
    Forall2 (port_row (trace_of (prepare self))) (node_keys self) all_port_data
    /\ filter is_print (trace_of (prepare self))
       = if verbose self then tables self all_port_data else [].
Proof.
  intros Hok. pose proof (prepare_made_dir self Hok) as Hmk.
  assert (Htr : trace_of (prepare self)
                = EvMkdir (data_dir self)
                  :: trace_of ((stage_ceremony;; exchange_gentxs;; collect_gentxs)
                                 (after_create self)))
    by (rewrite (prepare_run self Hmk); reflexivity).
  assert (Hv : value_of ((stage_ceremony;; exchange_gentxs;; collect_gentxs)
                           (after_create self)) = inr tt)
    by (rewrite (prepare_run self Hmk) in Hok; exact Hok).
  pose proof (run_eta ((stage_ceremony;; exchange_gentxs;; collect_gentxs)
                         (after_create self))) as Hrun.
  rewrite Hv in Hrun.
  apply bind_ok in Hrun. destruct Hrun as (t1 & s5 & [] & t2 & Hstage & Hrest & Et).
  apply bind_ok in Hrest. destruct Hrest as (t3 & s6 & [] & t4 & Hex & Hcol & ->).
  unfold stage_ceremony in Hstage.
  apply bind_ok in Hstage. destruct Hstage as (u1 & s1 & [] & u2 & Hinit & Hstage & ->).
  apply bind_ok in Hstage. destruct Hstage as (u3 & s2 & [] & u4 & Hover & Hstage & ->).
  apply bind_ok in Hstage. destruct Hstage as (u5 & s3 & [] & u6 & Hfv & Hstage & ->).
  apply bind_ok in Hstage. destruct Hstage as (u7 & s4 & [] & u8 & Hfa & Hstage & ->).
  apply bind_ok in Hstage. destruct Hstage as (u9 & s4' & [] & u10 & Hshare & Hstage & ->).
  apply bind_ok in Hstage.
  destruct Hstage as (v1 & s4a & rows & v2 & Halloc & Hstage & ->).
  apply bind_ok in Hstage.
  destruct Hstage as (v3 & s4b & data & v4 & Hconf & Hstage & ->).
  apply bind_ok in Hstage. destruct Hstage as (v5 & s4c & [] & v6 & Hprint & Hgentx & ->).
  destruct (spec_step (@init_nodes_spec _ _ self) (after_create_in_ceremony self) Hinit)
    as ([T1 _] & I1 & _).
  destruct (spec_step (@apply_genesis_overrides_spec _ _ self) I1 Hover)
    as ([T2 _] & I2 & _).
  destruct (spec_step (@fund_validators_spec _ _ self) I2 Hfv) as ([T3 _] & I3 & _).
  destruct (spec_step (@fund_accounts_spec _ _ self) I3 Hfa) as ([T4 _] & I4 & _).
  destruct (spec_step (@share_genesis_spec _ _ self) I4 Hshare) as ([T5 _] & I5 & _).
  destruct (spec_step (@allocate_ports_spec _ _ self) I5 Halloc)
    as ([T6 _] & I6 & flat & Hflat & Hrows).
  destruct (spec_step (@configure_nodes_spec _ _ self rows flat Hflat Hrows) I6 Hconf)
    as ([T7 _] & I7 & _).
  pose proof (@print_tables_run data s4b v5 s4c I7 Hprint) as T8.
  destruct (spec_step (@print_tables_spec _ _ self data) I7 Hprint) as (_ & I8 & _).
  destruct (spec_step (@stage_gentxs_spec _ _ self) I8 Hgentx) as ([[T9 _] _] & I9 & _).
  destruct (spec_step (@exchange_gentxs_spec _ _ self) I9 Hex) as ([T10 _] & I10 & _).
  destruct (spec_step (@collect_gentxs_spec _ _ self) I10 Hcol) as ([T11 _] & _ & _).
  pose proof (@configure_nodes_rows _ _ _ _ _ I6 Hconf) as Hdata.
  exists data. rewrite Htr, Et. split.
  { eapply Forall2_impl; [|exact Hdata]. intros n row Hr.
    apply (@port_row_more v3 _ _ _); [|exact Hr].
    intros e He. right. rewrite !in_app_iff. tauto. }
  cbn [filter is_print]. rewrite !filter_app.
  rewrite (no_print (P := init_event self) (l := u1)) by
      (try assumption; intros []; simpl; intros; try reflexivity; contradiction).
  rewrite (no_print (P := override_event self) (l := u3)) by
      (try assumption; intros []; simpl; intros; try reflexivity; contradiction).
  rewrite (no_print (P := fund_event self (dict_values (the_validators self))) (l := u5)) by
      (try assumption; intros []; simpl; intros; try reflexivity; contradiction).
  rewrite (no_print (P := fund_event self (dict_values (the_accounts self))) (l := u7)) by
      (try assumption; intros []; simpl; intros; try reflexivity; contradiction).
  rewrite (no_print (P := share_event self) (l := u9)) by
      (try assumption; intros []; simpl; intros; try reflexivity; contradiction).
  rewrite <- T6. cbn [alloc_script filter is_print].
  rewrite (no_print (P := config_event self) (l := v3)) by
      (try assumption; intros []; simpl; intros; try reflexivity; contradiction).
  rewrite (no_print (P := gentx_event self) (l := v6)) by
      (try assumption; intros []; simpl; intros; try reflexivity; contradiction).
  rewrite (no_print (P := exchange_event self) (l := t3)) by
      (try assumption; intros []; simpl; intros; try reflexivity; contradiction).
  rewrite (no_print (P := collect_event self) (l := t4)) by
      (try assumption; intros []; simpl; intros; try reflexivity; contradiction).
  rewrite T8, ?app_nil_r. cbn [app].
  destruct (verbose self); reflexivity.
Qed.

(** X14: a [prepare] that returned printed nothing when [verbose] is
    unset, and otherwise exactly the three tables, in this order: the
    ports, the address of every validator, the address of every account.
    The table of ports has one row for each node, in creation order: the
    moniker of the node object, then the eight port fields in the order
    of the port table, each as [get] on that node returned it in a read
    that the log holds; its headers are ["Moniker"] and the eight titles,
    ["gRPC"] heading two of them. *)
Theorem prepare_prints_three_tables_when_verbose
    (Hok : value_of (prepare self) = inr tt) :
  exists all_port_data,
    Forall2 (port_row (trace_of (prepare self))) (node_keys self) all_port_data
    /\ Forall (fun row => List.length row = S (List.length ports)) all_port_data
    /\ filter is_print (trace_of (prepare self))
       = (if verbose self then tables self all_port_data else [])
    /\ map title (dict_values ports)
       = ["P2P"; "ABCI"; "PPROF"; "RPC"; "Prometheus"; "LCD"; "gRPC"; "gRPC"].
Proof.
  destruct (tables_of_prepare Hok) as (data & Hrows & Hprint).
  exists data. split; [exact Hrows|]. split; [|split; [exact Hprint | reflexivity]].
  clear Hprint. induction Hrows as [|n row ns rows Hrow _ IH]; constructor; [|exact IH].
  destruct Hrow as (node & cells & -> & Hcells). simpl. f_equal.
  symmetry. change (List.length ports) with (List.length (dict_values ports)).
  exact (Forall2_length Hcells).
Qed.

(** ** A port request that fails *)
Lemma before_configuration_closed :
  Forall before_configuration []
  /\ forall l1 l2, Forall before_configuration l1 -> Forall before_configuration l2 ->
                   Forall before_configuration (l1 ++ l2).
Proof. split; [constructor | intros l1 l2 H1 H2; apply Forall_app; auto]. Qed.

Lemma ceremony_stops_at_allocation e :
  get_free_ports (port_request self) = inl e ->
  sound_for (in_ceremony self) (Forall before_configuration)
    (stage_ceremony ;; exchange_gentxs ;; collect_gentxs) (fun _ => False).
Proof.
  intros Hfail. destruct before_configuration_closed as [Hnil Happ].
  eapply sound_bind with (Q := fun _ => False); [exact Happ | | intros _ []].
  unfold stage_ceremony.
  eapply sound_bind; [exact Happ | apply init_nodes_sound; auto |].
  { intros n _. repeat constructor. }
  intros _ _.
  eapply sound_bind; [exact Happ | apply apply_genesis_overrides_sound; auto |].
  { intros k v _. repeat constructor. }
  intros _ _.
  eapply sound_bind; [exact Happ | apply fund_validators_sound; auto |].
  { intros a _. repeat constructor. }
  intros _ _.
  eapply sound_bind; [exact Happ | apply fund_accounts_sound; auto |].
  { intros a _. repeat constructor. }
  intros _ _.
  eapply sound_bind; [exact Happ | apply share_genesis_sound; auto |].
  { intros n _. repeat constructor. }
  intros _ _.
  eapply sound_bind with (Q := fun _ => False); [exact Happ | | intros _ []].
  eapply sound_weaken; [apply allocate_ports_sound; auto|].
  - intros r. repeat constructor.
  - intros rows (flat & Hflat & _). congruence.
Qed.

(** X15: when the request for free ports raises, no run of [prepare]
    returns, and [prepare] has made no call past the request: no node's
    config file is set, no port is rewritten, no key is added, no gentx
    is staged, exchanged or collected. *)
Theorem allocation_failure_stops_prepare (e : exn)
    (Hfail : get_free_ports (port_request self) = inl e) :
  (exists e', value_of (prepare self) = inl e')
  /\ Forall before_configuration (trace_of (prepare self)).
Proof.
  destruct (path_mkdir (data_dir self)) as [e0|[]] eqn:Hmk.
  { rewrite (prepare_stopped self Hmk). split.
    - exists e0. reflexivity.
    - unfold trace_of. simpl. repeat constructor. }
  rewrite (prepare_run self Hmk).
  unfold value_of at 1, trace_of at 1. simpl fst. simpl snd.
  destruct (ceremony_stops_at_allocation Hfail (after_create_in_ceremony self))
    as (HT & _ & HQ).
  split.
  - destruct (value_of _) as [e'|a]; [eauto | destruct (HQ a eq_refl)].
  - constructor; [exact I | exact HT].
Qed.
End PrepareRuns.


(** * The step [Init] of the transfer example *)

Section ReactorInit.
Context {Node : Type} {API : NodeAPI Node}.

Lemma reactor_init_run (n_wallet : Z) (testnet : Testnet Node) :
  reactor_init n_wallet testnet = oneshot (with_verbose testnet true).
Proof.
  unfold reactor_init, bind, get_self, put_self. simpl.
  destruct (oneshot (with_verbose testnet true)) as [[tr s] v]. reflexivity.
Qed.

(** X16: the step [Init] runs [oneshot] with [verbose] set, whatever it
    was: when the step returns, its prints are exactly the three tables,
    its process calls are exactly one [start] per node, in creation
    order, [verbose] is set on the object it leaves, and the validators
    and accounts of that object are those the [Testnet] was built with;
    the number of wallets of the action has no part in it. *)
Theorem reactor_init_prints_and_starts (n_wallet : Z) (testnet : Testnet Node)
    (Hok : value_of (reactor_init n_wallet testnet) = inr tt) :
  exists all_port_data,
    filter is_print (trace_of (reactor_init n_wallet testnet))
    = tables testnet all_port_data
    /\ filter is_process_event (trace_of (reactor_init n_wallet testnet))
       = map EvStart (node_keys testnet)
    /\ verbose (state_of (reactor_init n_wallet testnet)) = true
    /\ validators (state_of (reactor_init n_wallet testnet))
       = Some (the_validators testnet)
    /\ accounts (state_of (reactor_init n_wallet testnet))
       = Some (the_accounts testnet).
Proof.
  rewrite reactor_init_run in *.
  destruct (oneshot_returned (with_verbose testnet true) Hok) as [Hp Htr].
  destruct (tables_of_prepare (with_verbose testnet true) Hp) as (data & _ & Hprint).
  exists data. rewrite Htr, !filter_app.
  split; [|split].
  - rewrite Hprint. rewrite filter_map_none by reflexivity.
    rewrite app_nil_r. reflexivity.
  - rewrite (filter_none is_process_event
               (prepare_runs_no_process (with_verbose testnet true)))
      by (intros e He; exact He).
    simpl. clear. unfold node_keys. simpl.
    induction (first_occurrences [] (_validator_ids testnet)) as [|x r IH];
      simpl; [reflexivity | now rewrite IH].
  - destruct (oneshot_run (with_verbose testnet true)) as [_ Hrun].
    rewrite (Hrun Hp). unfold state_of at 1 2 3. simpl.
    destruct (prepare_in_ceremony (with_verbose testnet true)
                (prepare_made_dir (with_verbose testnet true) Hp))
      as (nodes & Hs & Hk).
    assert (Hn : validator_nodes (state_of (prepare (with_verbose testnet true)))
                 = Some nodes) by (rewrite Hs; reflexivity).
    rewrite (spinup_unfold _ Hn).
    assert (Hkeep : forall ids (s : Testnet Node),
               let s' := state_of (for_ ids (fun id => node_call id (EvStart id) node_start) s) in
               verbose s' = verbose s /\ validators s' = validators s
               /\ accounts s' = accounts s).
    { induction ids as [|id r IH]; intros s; simpl; [auto|].
      unfold bind. unfold node_call at 1 3 5.
      destruct (validator_nodes s) as [d|]; [|simpl; auto].
      destruct (dict_get AccountId_eq_dec id d) as [n|]; [|simpl; auto].
      destruct (node_start n) as [e|n']; [simpl; auto|].
      specialize (IH (with_validator_nodes s (dict_set AccountId_eq_dec id n' d))).
      destruct (for_ r _ _) as [[t2 s2] v2]. unfold state_of in *. simpl in *. exact IH. }
    destruct (Hkeep (dict_keys nodes) (state_of (prepare (with_verbose testnet true))))
      as (H1 & H2 & H3).
    unfold state_of in *. cbn [fst snd] in *.
    rewrite H1, H2, H3, Hs. simpl. auto.
Qed.
End ReactorInit.


(** * The further properties on a concrete network *)

(** X4 on the prepared network: the lead's channel. *)
Lemma grpc_channel_of_address_net3 :
  validator_nodes Simd.net3_prepared <> None
  /\ get_grpc_channel (API := Simd.api) Simd.net3_prepared None
     = inr ("0.0.0.0", 9090%Z).
Proof.
  assert (Hsome : validator_nodes Simd.net3_prepared <> None)
    by (vm_compute; discriminate).
  split; [exact Hsome|].
  let d := eval vm_compute in (validator_nodes Simd.net3_prepared) in
  match d with Some ?x => pose (nodes := x) end.
  let d := eval vm_compute in (dict_get AccountId_eq_dec (IdInt 0) nodes) in
  match d with Some ?x => pose (node := x) end.
  assert (Hnodes : validator_nodes Simd.net3_prepared = Some nodes)
    by (vm_compute; reflexivity).
  assert (Hnode : dict_get AccountId_eq_dec (target_of Simd.net3_prepared None) nodes
                  = Some node) by (vm_compute; reflexivity).
  pose proof (@grpc_channel_of_address _ Simd.api Simd.net3_prepared None nodes node
                Hnodes Hnode) as (Hgood & _).
  apply (Hgood "0.0.0.0" 9090%Z); vm_compute; reflexivity.
Defined.

(** X7 on a network whose first node only was initialised: the second
    start raises, the third node is not started. *)
Lemma spinup_stops_at_first_failure_net3 :
  validator_nodes Stubborn.first_initialised <> None
  /\ value_of (spinup (API := Simd.api) Stubborn.first_initialised) = inl ProcessError
  /\ trace_of (spinup (API := Simd.api) Stubborn.first_initialised)
     = [EvStart (IdInt 0); EvStart (IdInt 1)].
Proof.
  assert (Hsome : validator_nodes Stubborn.first_initialised <> None)
    by (vm_compute; discriminate).
  split; [exact Hsome|].
  let d := eval vm_compute in (validator_nodes Stubborn.first_initialised) in
  match d with Some ?x => pose (nodes := x) end.
  let d := eval vm_compute in (dict_get AccountId_eq_dec (IdInt 1) nodes) in
  match d with Some ?x => pose (nx := x) end.
  assert (Hnodes : validator_nodes Stubborn.first_initialised = Some nodes)
    by (vm_compute; reflexivity).
  assert (Hkeys : dict_keys nodes = [IdInt 0] ++ IdInt 1 :: [IdInt 2]) by reflexivity.
  assert (Hnodup : NoDup (dict_keys nodes)).
  { rewrite Hkeys. repeat constructor; simpl; intuition discriminate. }
  assert (Hpre : forall y, In y [IdInt 0] ->
                   exists n n', dict_get AccountId_eq_dec y nodes = Some n
                                /\ node_start (NodeAPI := Simd.api) n = inr n').
  { intros y [<-|[]].
    let d := eval vm_compute in (dict_get AccountId_eq_dec (IdInt 0) nodes) in
    match d with Some ?x => exists x end.
    eexists. split; vm_compute; reflexivity. }
  assert (Hx : dict_get AccountId_eq_dec (IdInt 1) nodes = Some nx)
    by (vm_compute; reflexivity).
  assert (Hfail : node_start (NodeAPI := Simd.api) nx = inl ProcessError)
    by (vm_compute; reflexivity).
  pose proof (@spinup_stops_at_first_failure _ Simd.api Stubborn.first_initialised
                nodes [IdInt 0] [IdInt 2] (IdInt 1) nx ProcessError
                Hnodes Hkeys Hnodup Hpre Hx Hfail) as (Hv & Ht & _).
  split; [exact Hv | exact Ht].
Defined.

(** X8 on the prepared network with the second node running and processes
    that cannot be terminated: the second close raises, the third node is
    not closed. *)
Lemma teardown_stops_at_first_failure_net3 :
  validator_nodes Stubborn.second_started <> None
  /\ value_of (teardown (API := Stubborn.api) Stubborn.second_started) = inl ProcessError
  /\ trace_of (teardown (API := Stubborn.api) Stubborn.second_started)
     = [EvClose (IdInt 0); EvClose (IdInt 1)].
Proof.
  assert (Hsome : validator_nodes Stubborn.second_started <> None)
    by (vm_compute; discriminate).
  split; [exact Hsome|].
  let d := eval vm_compute in (validator_nodes Stubborn.second_started) in
  match d with Some ?x => pose (nodes := x) end.
  let d := eval vm_compute in (dict_get AccountId_eq_dec (IdInt 1) nodes) in
  match d with Some ?x => pose (nx := x) end.
  assert (Hnodes : validator_nodes Stubborn.second_started = Some nodes)
    by (vm_compute; reflexivity).
  assert (Hkeys : dict_keys nodes = [IdInt 0] ++ IdInt 1 :: [IdInt 2]) by reflexivity.
  assert (Hnodup : NoDup (dict_keys nodes)).
  { rewrite Hkeys. repeat constructor; simpl; intuition discriminate. }
  assert (Hpre : forall y, In y [IdInt 0] ->
                   exists n n', dict_get AccountId_eq_dec y nodes = Some n
                                /\ node_close (NodeAPI := Stubborn.api) n = inr n').
  { intros y [<-|[]].
    let d := eval vm_compute in (dict_get AccountId_eq_dec (IdInt 0) nodes) in
    match d with Some ?x => exists x end.
    eexists. split; vm_compute; reflexivity. }
  assert (Hx : dict_get AccountId_eq_dec (IdInt 1) nodes = Some nx)
    by (vm_compute; reflexivity).
  assert (Hfail : node_close (NodeAPI := Stubborn.api) nx = inl ProcessError)
    by (vm_compute; reflexivity).
  pose proof (@teardown_stops_at_first_failure _ Stubborn.api Stubborn.second_started
                nodes [IdInt 0] [IdInt 2] (IdInt 1) nx ProcessError
                Hnodes Hkeys Hnodup Hpre Hx Hfail) as (Hv & Ht & _).
  split; [exact Hv | exact Ht].
Defined.

(** X12 on three validators. *)
Lemma prepare_calls_in_order_net3 :
  value_of (prepare (API := Simd.api) Simd.net3) = inr tt
  /\ exists t_conf t_print t_gentx,
       trace_of (prepare (API := Simd.api) Simd.net3)
       = [EvMkdir (data_dir Simd.net3)] ++ init_script Simd.net3
         ++ override_script Simd.net3
         ++ fund_script Simd.net3 (dict_values (the_validators (API := Simd.api) Simd.net3))
         ++ fund_script Simd.net3 (dict_values (the_accounts (API := Simd.api) Simd.net3))
         ++ share_script Simd.net3 ++ @alloc_script _ Simd.api Simd.net3
         ++ t_conf ++ t_print ++ t_gentx
         ++ exchange_script (node_keys Simd.net3) ++ collect_script Simd.net3.
Proof.
  assert (Hok : value_of (prepare (API := Simd.api) Simd.net3) = inr tt)
    by (vm_compute; reflexivity).
  split; [exact Hok|].
  destruct (@prepare_calls_in_order _ Simd.api Simd.net3 Hok)
    as (t_conf & t_print & t_gentx & Htr & _).
  exists t_conf, t_print, t_gentx. exact Htr.
Defined.

(** X13 on a file system that refuses the data directory: [prepare] stops
    at [mkdir], and [teardown] then finds no [validator_nodes]. *)
Lemma prepare_leaves_one_node_per_validator_read_only :
  prepare (API := SpecNode.api ReadOnly.world) Simd.net3
  = ([EvMkdir "validator_nodes"],
     finalize_accounts (API := SpecNode.api ReadOnly.world) Simd.net3,
     inl OSError)
  /\ teardown (API := SpecNode.api ReadOnly.world)
       (state_of (prepare (API := SpecNode.api ReadOnly.world) Simd.net3))
     = ([], finalize_accounts (API := SpecNode.api ReadOnly.world) Simd.net3,
        inl AttributeError).
Proof.
  pose proof (@prepare_leaves_one_node_per_validator _ (SpecNode.api ReadOnly.world)
                Simd.net3) as H.
  cbv beta iota delta [path_mkdir SpecNode.api SpecNode.fs_mkdir ReadOnly.world] in H.
  destruct H as (Hrun & _ & Hdown).
  split; [exact Hrun | exact (Hdown eq_refl)].
Defined.

(** X14 on three validators, with [verbose] set: three rows of nine
    cells. *)
Lemma prepare_prints_three_tables_net3 :
  value_of (prepare (API := Simd.api) (with_verbose Simd.net3 true)) = inr tt
  /\ exists all_port_data,
       List.length all_port_data = 3%nat
       /\ Forall (fun row => List.length row = 9%nat) all_port_data
       /\ filter is_print
            (trace_of (prepare (API := Simd.api) (with_verbose Simd.net3 true)))
          = @tables _ Simd.api (with_verbose Simd.net3 true) all_port_data.
Proof.
  assert (Hok : value_of (prepare (API := Simd.api) (with_verbose Simd.net3 true)) = inr tt)
    by (vm_compute; reflexivity).
  split; [exact Hok|].
  destruct (@prepare_prints_three_tables_when_verbose _ Simd.api
              (with_verbose Simd.net3 true) Hok)
    as (data & Hrows & Hwidth & Hprint & _).
  exists data. split; [|split; [exact Hwidth | exact Hprint]].
  symmetry. exact (Forall2_length Hrows).
Defined.

(** X15 on three validators and an operating system without free ports. *)
Lemma allocation_failure_stops_prepare_net3 :
  get_free_ports (NodeAPI := SpecNode.api Exhausted.world) (port_request Simd.net3)
  = inl ResourceExhausted
  /\ value_of (prepare (API := SpecNode.api Exhausted.world) Simd.net3)
     = inl ResourceExhausted
  /\ Forall before_configuration
       (trace_of (prepare (API := SpecNode.api Exhausted.world) Simd.net3)).
Proof.
  assert (Hfail : get_free_ports (NodeAPI := SpecNode.api Exhausted.world)
                    (port_request Simd.net3) = inl ResourceExhausted)
    by reflexivity.
  split; [exact Hfail|].
  pose proof (@allocation_failure_stops_prepare _ (SpecNode.api Exhausted.world)
                Simd.net3 ResourceExhausted Hfail) as (_ & Hquiet).
  split; [vm_compute; reflexivity | exact Hquiet].
Defined.

(** X16 on three validators built without [verbose]. *)
Lemma reactor_init_prints_and_starts_net3 :
  verbose Simd.net3 = false
  /\ value_of (reactor_init (API := Simd.api) 3 Simd.net3) = inr tt
  /\ filter is_process_event (trace_of (reactor_init (API := Simd.api) 3 Simd.net3))
     = [EvStart (IdInt 0); EvStart (IdInt 1); EvStart (IdInt 2)]
  /\ verbose (state_of (reactor_init (API := Simd.api) 3 Simd.net3)) = true.
Proof.
  assert (Hok : value_of (reactor_init (API := Simd.api) 3 Simd.net3) = inr tt)
    by (vm_compute; reflexivity).
  split; [reflexivity|]. split; [exact Hok|].
  destruct (@reactor_init_prints_and_starts _ Simd.api 3%Z Simd.net3 Hok)
    as (data & _ & Hstart & Hverbose & _).
  split; [exact Hstart | exact Hverbose].
Defined.
